(** * Echoes: recorder window, recordings page and IndexedDB storage

    A shallow embedding of the TypeScript sources of the extension:

    - [Storage]    : [src/utils/storage.ts] (the recordings object store);
    - [Recordings] : [src/recordings/Recordings.tsx] ([handleProcess]);
    - [Recorder]   : the two [Recorder] components (with and without the
                     level bars), their refs, the media objects they drive
                     and the callbacks the browser runs on them;
    - [Listing]    : [getRecordings] of [src/utils/storage.ts];
    - [Page]       : the other functions of the recordings page;
    - [Popup]      : the popup's [startRecording], which opens the window;
    - [Lifecycle]  : vocabulary for whole sessions of the recorder window.

    JavaScript values are modelled as the code uses them: integers as [Z],
    a number that may have been rounded or be infinite as [JS.double],
    strings as [string] (the bytes of their UTF-8 encoding),
    [null]/[undefined] as [None], a rejected promise or a thrown exception
    as [Rejected], binary data as [list Byte.byte]. *)

From Stdlib Require Import Ascii QArith Qcanon.
From stdpp Require Import gmap strings list numbers pretty sorting.

Open Scope string_scope.
Open Scope Z_scope.

(** ** JavaScript helpers *)

Module JS.

(** Outcome of an awaited promise (or of a block that may throw). *)
Inductive promise (A : Type) : Type :=
| Resolved (a : A)
| Rejected (e : string).
Arguments Resolved {A} a.
Arguments Rejected {A} e.

Definition Blob : Type := list Byte.byte.

(** [blob.size] *)
Definition size (b : Blob) : Z := Z.of_nat (length b).

(** [new Blob(chunks)] *)
Definition newBlob (chunks : list Blob) : Blob := concat chunks.

(** Truthiness of a [string | null]. *)
Definition truthy_str (s : option string) : bool :=
  match s with
  | None => false
  | Some s => negb (String.eqb s "")
  end.

(** A number whose value is an integer, or an infinity: the doubles
    [parseInt] returns, [NaN] apart (which is [None] where a number may be
    [NaN]).  [Finite 0] stands for both zeros; they are told apart nowhere
    in the code. *)
Inductive double :=
| Finite (z : Z)
| PlusInfinity
| MinusInfinity.

#[global] Instance double_eq_dec : EqDecision double.
Proof. solve_decision. Defined.

(** The Number value of a mathematical integer: the nearest double, ties
    to the even significand of 53 bits; what rounds to [2^1024] or beyond
    is an infinity. *)
Definition to_double (z : Z) : double :=
  let a := Z.abs z in
  if a <? 2 ^ 53 then Finite z
  else
    let e := Z.log2 a - 52 in
    let q := Z.shiftr a e in
    let r := a - Z.shiftl q e in
    let half := Z.shiftl 1 (e - 1) in
    let q := if (half <? r) || ((r =? half) && Z.odd q) then q + 1 else q in
    let m := Z.shiftl q e in
    if 2 ^ 1024 <=? m then (if z <? 0 then MinusInfinity else PlusInfinity)
    else Finite (Z.sgn z * m).

(** Truthiness of a number; [None] is [NaN]. *)
Definition truthy_num (n : option double) : bool :=
  match n with
  | None => false
  | Some (Finite z) => negb (z =? 0)
  | Some _ => true
  end.

(** [a || b] on strings. *)
Definition or_str (a : option string) (b : string) : string :=
  match a with
  | Some s => if String.eqb s "" then b else s
  | None => b
  end.

(** [URLSearchParams]: the decoded pairs in query order; [get] returns the
    first value of a key, or [null]. *)
Definition URLSearchParams : Type := list (string * string).

Fixpoint get (params : URLSearchParams) (key : string) : option string :=
  match params with
  | [] => None
  | (k, v) :: rest => if String.eqb k key then Some v else get rest key
  end.

(** Strings hold the UTF-8 encoding of the JavaScript string; the
    functions below that count characters are applied to ASCII text only,
    where a byte is a code unit. *)

(** [parseInt(s, 10)]: leading white space is skipped, then an optional
    sign, then the longest run of decimal digits is read; [NaN] without a
    digit.  White space is what [StrWhiteSpaceChar] lists: TAB, LF, VT, FF,
    CR and SP, of one byte ([is_ws]); NBSP (U+00A0), of two ([is_ws2]); and
    of three ([is_ws3]) U+1680, U+2000 to U+200A, U+2028, U+2029, U+202F,
    U+205F, U+3000 and U+FEFF. *)
Definition is_ws (c : ascii) : bool :=
  let n := nat_of_ascii c in
  ((9 <=? n) && (n <=? 13) || (n =? 32))%nat.

Definition is_ws2 (c1 c2 : ascii) : bool :=
  ((nat_of_ascii c1 =? 194) && (nat_of_ascii c2 =? 160))%nat.

Definition is_ws3 (c1 c2 c3 : ascii) : bool :=
  let n1 := nat_of_ascii c1 in
  let n2 := nat_of_ascii c2 in
  let n3 := nat_of_ascii c3 in
  ((n1 =? 225) && (n2 =? 154) && (n3 =? 128)
   || (n1 =? 226) && (n2 =? 128)
      && ((128 <=? n3) && (n3 <=? 138) || (n3 =? 168) || (n3 =? 169)
          || (n3 =? 175))
   || (n1 =? 226) && (n2 =? 129) && (n3 =? 159)
   || (n1 =? 227) && (n2 =? 128) && (n3 =? 128)
   || (n1 =? 239) && (n2 =? 187) && (n3 =? 191))%nat.

Fixpoint skip_ws (s : string) : string :=
  match s with
  | String c1 s1 =>
      if is_ws c1 then skip_ws s1
      else
        match s1 with
        | String c2 s2 =>
            if is_ws2 c1 c2 then skip_ws s2
            else
              match s2 with
              | String c3 s3 => if is_ws3 c1 c2 c3 then skip_ws s3 else s
              | EmptyString => s
              end
        | EmptyString => s
        end
  | EmptyString => s
  end.

Definition digit_val (c : ascii) : option Z :=
  let n := nat_of_ascii c in
  if ((48 <=? n) && (n <=? 57))%nat then Some (Z.of_nat n - 48) else None.

Fixpoint digits (acc : option Z) (s : string) : option Z :=
  match s with
  | String c s' =>
      match digit_val c with
      | Some d => digits (Some (10 * default 0 acc + d)) s'
      | None => acc
      end
  | EmptyString => acc
  end.

(** The mathematical integer the sign and the digits denote. *)
Definition mathInt (s : string) : option Z :=
  match skip_ws s with
  | String "-" rest => Z.opp <$> digits None rest
  | String "+" rest => digits None rest
  | rest => digits None rest
  end.

Definition parseInt (s : string) : option double := to_double <$> mathInt s.

(** [n.toString()] for an integer [n]. *)
Definition toString (n : Z) : string := pretty n.

(** [s.padStart(n, pad)] *)
Fixpoint repeat_str (pad : string) (k : nat) : string :=
  match k with
  | O => ""
  | S k' => pad +:+ repeat_str pad k'
  end.

Definition padStart (n : nat) (pad : string) (s : string) : string :=
  let k := (n - String.length s)%nat in
  if String.eqb pad "" then s
  else String.substring 0 k (repeat_str pad k) +:+ s.

(** [s.slice(0, n)] *)
Definition slice0 (n : nat) (s : string) : string := String.substring 0 n s.

(** [s.replace(/[:.]/g, '-')] *)
Fixpoint replace_colon_dot (s : string) : string :=
  match s with
  | String c s' =>
      String (if Ascii.eqb c ":" || Ascii.eqb c "." then "-"%char else c)
             (replace_colon_dot s')
  | EmptyString => EmptyString
  end.

End JS.

(** ** [src/utils/storage.ts] *)

Module Storage.
Import JS.

Inductive TranscriptionStatus := pending | processing | completed | error.

Record Recording := {
  id : string;
  name : string;
  blob : Blob;
  duration : Z;
  createdAt : Z;
  size : Z;
  transcription : option string;
  transcriptionStatus : option TranscriptionStatus;
}.

(** [Partial<Recording>]: a key that is absent is [None]. *)
Record PartialRecording := {
  id' : option string;
  name' : option string;
  blob' : option Blob;
  duration' : option Z;
  createdAt' : option Z;
  size' : option Z;
  transcription' : option string;
  transcriptionStatus' : option TranscriptionStatus;
}.

(** [{}] *)
Definition no_updates : PartialRecording :=
  {| id' := None; name' := None; blob' := None; duration' := None;
     createdAt' := None; size' := None; transcription' := None;
     transcriptionStatus' := None |}.

(** [{ transcriptionStatus: st }] *)
Definition status_update (st : TranscriptionStatus) : PartialRecording :=
  {| id' := None; name' := None; blob' := None; duration' := None;
     createdAt' := None; size' := None; transcription' := None;
     transcriptionStatus' := Some st |}.

(** [{ transcription: text, transcriptionStatus: st }] *)
Definition transcript_update (text : string) (st : TranscriptionStatus)
  : PartialRecording :=
  {| id' := None; name' := None; blob' := None; duration' := None;
     createdAt' := None; size' := None; transcription' := Some text;
     transcriptionStatus' := Some st |}.

(** [{ ...recording, ...updates }] *)
Definition spread (recording : Recording) (updates : PartialRecording)
  : Recording :=
  {| id := default (id recording) (id' updates);
     name := default (name recording) (name' updates);
     blob := default (blob recording) (blob' updates);
     duration := default (duration recording) (duration' updates);
     createdAt := default (createdAt recording) (createdAt' updates);
     size := default (size recording) (size' updates);
     transcription :=
       match transcription' updates with
       | Some t => Some t
       | None => transcription recording
       end;
     transcriptionStatus :=
       match transcriptionStatus' updates with
       | Some st => Some st
       | None => transcriptionStatus recording
       end |}.

(** The database: the object store [recordings] (key path [id]), and
    whether its requests fail ([request.onerror], with the error). *)
Record IDBDatabase := {
  recordings : gmap string Recording;
  failing : option string;
}.

Definition with_recordings (m : gmap string Recording) (database : IDBDatabase)
  : IDBDatabase :=
  {| recordings := m; failing := failing database |}.

(** The result of [store.get(id)]: [undefined] without a record. *)
Inductive IDBResult := Undefined | Value (r : Recording).

Definition store_get (key : string) (database : IDBDatabase) : promise IDBResult :=
  match failing database with
  | Some e => Rejected e
  | None =>
      Resolved match recordings database !! key with
               | Some r => Value r
               | None => Undefined
               end
  end.

(** [store.put(r)] writes under [r.id], replacing. *)
Definition store_put (r : Recording) (database : IDBDatabase) : promise IDBDatabase :=
  match failing database with
  | Some e => Rejected e
  | None => Resolved (with_recordings (<[id r := r]> (recordings database)) database)
  end.

(** [store.add(r)] fails on a key that is taken. *)
Definition store_add (r : Recording) (database : IDBDatabase) : promise IDBDatabase :=
  match failing database with
  | Some e => Rejected e
  | None =>
      match recordings database !! id r with
      | Some _ => Rejected "ConstraintError"
      | None => Resolved (with_recordings (<[id r := r]> (recordings database)) database)
      end
  end.

Definition store_delete (key : string) (database : IDBDatabase) : promise IDBDatabase :=
  match failing database with
  | Some e => Rejected e
  | None => Resolved (with_recordings (delete key (recordings database)) database)
  end.

(** What [saveRecording] reads from its environment, in the order it reads
    it: [Date.now()] for the id, [Math.random().toString(36).slice(2, 9)],
    [new Date().toISOString()], and [Date.now()] again for [createdAt]. *)
Record SaveEnv := {
  now : Z;
  random : string;
  isoString : string;
  nowCreated : Z;
}.

Definition saveRecording (env : SaveEnv) (b : Blob) (d : Z)
    (customName : option string) (database : IDBDatabase)
  : promise (Recording * IDBDatabase) :=
  let id := "rec-" +:+ toString (now env) +:+ "-" +:+ random env in
  let timestamp := slice0 19 (replace_colon_dot (isoString env)) in
  let recording :=
    {| id := id;
       name := or_str customName ("Recording " +:+ timestamp);
       blob := b;
       duration := d;
       createdAt := nowCreated env;
       size := JS.size b;
       transcription := None;
       transcriptionStatus := Some pending |} in
  match store_add recording database with
  | Resolved database' => Resolved (recording, database')
  | Rejected e => Rejected e
  end.

(** [Recording | null] *)
Inductive nullable := Null | Obj (r : Recording).

(** [request.result || null] *)
Definition or_null (result : IDBResult) : nullable :=
  match result with
  | Undefined => Null
  | Value r => Obj r
  end.

Definition getRecording (key : string) (database : IDBDatabase) : promise nullable :=
  match store_get key database with
  | Resolved result => Resolved (or_null result)
  | Rejected e => Rejected e
  end.

Definition updateRecording (key : string) (updates : PartialRecording)
    (database : IDBDatabase) : promise IDBDatabase :=
  match getRecording key database with
  | Rejected e => Rejected e
  | Resolved Null => Rejected "Recording not found"
  | Resolved (Obj recording) => store_put (spread recording updates) database
  end.

Definition deleteRecording (key : string) (database : IDBDatabase)
  : promise IDBDatabase :=
  store_delete key database.

(** Every record is stored under its own [id] (the store's key path). *)
Definition well_keyed (database : IDBDatabase) : Prop :=
  ∀ k r, recordings database !! k = Some r → id r = k.

End Storage.

(** ** [src/recordings/Recordings.tsx]: [handleProcess] *)

Module Recordings.
Import JS.
Import Storage.

(** The outcome of [fetch(...)]: a transport failure, or a response with
    its [ok] flag, [statusText] and the outcome of [response.text()]. *)
Inductive FetchResult :=
| TransportFailure (e : string)
| Response (ok : bool) (statusText : string) (text : promise string).

(** Component state, the database, and the alerts shown. *)
Record State := {
  recordings : list Recording;
  apiAvailable : option bool;
  processingId : option string;
  selectedRecording : option Recording;
  database : IDBDatabase;
  alerts : list string;
}.

Definition setRecordings (f : list Recording → list Recording) (s : State) : State :=
  {| recordings := f (recordings s); apiAvailable := apiAvailable s;
     processingId := processingId s; selectedRecording := selectedRecording s;
     database := database s; alerts := alerts s |}.

Definition setProcessingId (p : option string) (s : State) : State :=
  {| recordings := recordings s; apiAvailable := apiAvailable s;
     processingId := p; selectedRecording := selectedRecording s;
     database := database s; alerts := alerts s |}.

Definition setSelectedRecording (r : option Recording) (s : State) : State :=
  {| recordings := recordings s; apiAvailable := apiAvailable s;
     processingId := processingId s; selectedRecording := r;
     database := database s; alerts := alerts s |}.

Definition setDatabase (d : IDBDatabase) (s : State) : State :=
  {| recordings := recordings s; apiAvailable := apiAvailable s;
     processingId := processingId s; selectedRecording := selectedRecording s;
     database := d; alerts := alerts s |}.

Definition alert (msg : string) (s : State) : State :=
  {| recordings := recordings s; apiAvailable := apiAvailable s;
     processingId := processingId s; selectedRecording := selectedRecording s;
     database := database s; alerts := alerts s ++ [msg] |}.

(** [{ ...r, ...updates }] on every listed record with the given id. *)
Definition patch (key : string) (updates : PartialRecording) (r : Recording)
  : Recording :=
  if String.eqb (id r) key then spread r updates else r.

(** The [try] block: the request, then the update with the transcript. *)
Definition handleProcess_try (fetch : FetchResult) (recording : Recording)
    (s : State) : promise unit * State :=
  match fetch with
  | TransportFailure e => (Rejected e, s)
  | Response ok statusText text =>
      if negb ok then (Rejected ("Transcription failed: " +:+ statusText), s)
      else
        match text with
        | Rejected e => (Rejected e, s)
        | Resolved markdown =>
            let updates := transcript_update markdown completed in
            match updateRecording (id recording) updates (database s) with
            | Rejected e => (Rejected e, s)
            | Resolved d =>
                let s := setDatabase d s in
                let s := setRecordings (map (patch (id recording) updates)) s in
                let s :=
                  match selectedRecording s with
                  | Some sel =>
                      if String.eqb (id sel) (id recording)
                      then setSelectedRecording (Some (spread recording updates)) s
                      else s
                  | None => s
                  end in
                (Resolved (), s)
            end
        end
  end.

(** The [catch] block. *)
Definition handleProcess_catch (recording : Recording) (s : State)
  : promise unit * State :=
  match updateRecording (id recording) (status_update error) (database s) with
  | Rejected e => (Rejected e, s)
  | Resolved d =>
      let s := setDatabase d s in
      (Resolved (),
       setRecordings (map (patch (id recording) (status_update error))) s)
  end.

Definition handleProcess (fetch : FetchResult) (recording : Recording)
    (s : State) : promise unit * State :=
  if negb (default false (apiAvailable s)) then
    (Resolved (),
     alert "Transcription server is not available. Please start Echoes Server." s)
  else
    let s := setProcessingId (Some (id recording)) s in
    match updateRecording (id recording) (status_update processing) (database s) with
    | Rejected e => (Rejected e, s)
    | Resolved d =>
        let s := setDatabase d s in
        let '(outcome, s) :=
          match handleProcess_try fetch recording s with
          | (Resolved _, s) => (Resolved (), s)
          | (Rejected _, s) => handleProcess_catch recording s
          end in
        (outcome, setProcessingId None s)
    end.

(** A transcription attempt that fails as the interface describes: no
    response at all, or a response that is not a success. *)
Definition failed_attempt (fetch : FetchResult) : Prop :=
  match fetch with
  | TransportFailure _ => True
  | Response ok _ _ => ok = false
  end.

End Recordings.

(** ** The recorder window (both [Recorder] components) *)

Module Recorder.
Import JS.

Definition NUM_BARS : nat := 5.

(** The component with the level bars and the one without. *)
Inductive Component := Plain | WithLevels.

Record RecorderParams := {
  mode : string;
  deviceId : string;
  tabId : double;
}.

Inductive Status := starting | recording | stopped.

(** *** Reading the parameters *)

Definition getParams (search : URLSearchParams) : option RecorderParams :=
  let mode := get search "mode" in
  let deviceId := or_str (get search "deviceId") "" in
  let tabId := parseInt (or_str (get search "tabId") "0") in
  if negb (truthy_str mode) || negb (truthy_num tabId) then None
  else Some {| mode := default "" mode; deviceId := deviceId;
               tabId := default (Finite 0) tabId |}.

(** *** The duration display *)

(** [seconds] is a whole number, as [elapsed] below computes it: [/] with
    [Math.floor] is [div], and [%] takes the sign of the dividend, as
    [rem] does. *)
Definition formatDuration (seconds : Z) : string :=
  let hrs := seconds `div` 3600 in
  let mins := (seconds `rem` 3600) `div` 60 in
  let secs := seconds `rem` 60 in
  if 0 <? hrs then
    toString hrs +:+ ":" +:+ padStart 2 "0" (toString mins) +:+ ":"
      +:+ padStart 2 "0" (toString secs)
  else
    padStart 2 "0" (toString mins) +:+ ":" +:+ padStart 2 "0" (toString secs).

(** [Math.floor((Date.now() - startTimeRef.current) / 1000)] *)
Definition elapsed (now startTime : Z) : Z := (now - startTime) `div` 1000.

(** *** The level bars *)

(** A JavaScript number of the level computation: an exact rational, or
    [NaN] ([None]).  Rounding to a double is monotone and keeps 0 and 1,
    so bounds proved on the rationals hold for the doubles. *)
Definition number : Type := option Qc.

Definition fftSize : nat := 256.
Definition frequencyBinCount : nat := fftSize / 2.

(** [new Uint8Array(analyser.frequencyBinCount)] after
    [analyser.getByteFrequencyData(dataArray)]: the analyser's bytes, cut
    or zero-filled to the array's length. *)
Definition readFrequencyData (data : list Byte.byte) : list Z :=
  ((λ b, Z.of_N (Byte.to_N b)) <$> take frequencyBinCount data)
    ++ replicate (frequencyBinCount - length data) 0.

(** The inner loop: [sum += dataArray[j]] for [count] indices from [j]
    (a read past the end is [undefined], and the sum [NaN]). *)
Fixpoint sum_from (dataArray : list Z) (j count : nat) (sum : option Z)
  : option Z :=
  match count with
  | O => sum
  | S count' =>
      sum_from dataArray (S j) count'
        match sum, dataArray !! j with
        | Some s, Some x => Some (s + x)
        | _, _ => None
        end
  end.

(** [Math.min(1, x)] *)
Definition min1 (x : Qc) : Qc := if decide (1 ≤ x)%Qc then 1%Qc else x.

(** One round of the outer loop: the level pushed for bar [i].  With
    [step = 0] the inner loop is empty and [avg] is [0 / 0]. *)
Definition level (dataArray : list Z) (step i : nat) : number :=
  let start := (i * step)%nat in
  match sum_from dataArray start step (Some 0) with
  | Some sum =>
      if (step =? 0)%nat then None
      else
        let avg := (Qc_of_Z sum / Qc_of_Z (Z.of_nat step))%Qc in
        Some (min1 (avg / Qc_of_Z 180)%Qc)
  | None => None
  end.

Definition computeLevels (dataArray : list Z) : list number :=
  let step := (length dataArray / NUM_BARS)%nat in
  level dataArray step <$> seq 0 NUM_BARS.

(** *** Media objects *)

(** A stream with the ids of its tracks. *)
Record MediaStream := {
  audioTracks : list nat;
  videoTracks : list nat;
}.

Definition getTracks (s : MediaStream) : list nat :=
  audioTracks s ++ videoTracks s.

Definition getVideoTracks (s : MediaStream) : list nat := videoTracks s.

(** The two [getUserMedia] requests of the recorder. *)
Inductive MediaRequest :=
| TabCapture (chromeMediaSourceId : string)
| Microphone (exact : string).

(** What the browser answers to the recorder's requests. *)
Record Platform := {
  getMediaStreamId : double → promise string;
  getUserMedia : MediaRequest → promise MediaStream;
  getByteFrequencyData : list Byte.byte;
}.

(** The nodes of the audio graph, by the names the code gives them;
    [speakers] is [audioContext.destination]. *)
Inductive AudioNode :=
| tabSource | micSource | source | merger | destination | analyser | speakers.

#[global] Instance AudioNode_eq_dec : EqDecision AudioNode.
Proof. solve_decision. Defined.

Record AudioContext := {
  connections : list (AudioNode * AudioNode);
  streamSources : list (AudioNode * MediaStream);
}.

Definition newAudioContext : AudioContext :=
  {| connections := []; streamSources := [] |}.

(** [audioContext.createMediaStreamSource(s)], bound to [n] *)
Definition createMediaStreamSource (n : AudioNode) (s : MediaStream)
    (ctx : AudioContext) : AudioContext :=
  {| connections := connections ctx;
     streamSources := streamSources ctx ++ [(n, s)] |}.

(** [a.connect(b)] *)
Definition connect (a b : AudioNode) (ctx : AudioContext) : AudioContext :=
  {| connections := connections ctx ++ [(a, b)];
     streamSources := streamSources ctx |}.

(** Audio of [a] reaches [b] along the connections. *)
Inductive connected (ctx : AudioContext) : AudioNode → AudioNode → Prop :=
| connected_edge a b :
    (a, b) ∈ connections ctx → connected ctx a b
| connected_step a b c :
    (a, b) ∈ connections ctx → connected ctx b c → connected ctx a c.

(** The encoder's input: a captured stream, or [destination.stream]. *)
Inductive EncoderStream :=
| OfStream (s : MediaStream)
| OfDestination.

Inductive RecordingState := Inactive | Recording | Paused.

Record MediaRecorder := {
  stream : EncoderStream;
  state : RecordingState;
  timeslice : Z;
}.

(** *** The state of the window *)

(** React state. *)
Record Ui := {
  status : Status;
  duration : Z;
  error : option string;
  audioLevels : list number;
}.

(** The refs; [micStream] is the extra property set on [streamRef]. *)
Record Refs := {
  mediaRecorderRef : option MediaRecorder;
  chunksRef : list Blob;
  streamRef : option MediaStream;
  micStream : option MediaStream;
  audioContextRef : option AudioContext;
  analyserRef : option AudioNode;
  animationRef : option nat;
  startTimeRef : Z;
}.

(** What the window has done to the browser: tracks stopped, requests
    made, contexts closed, encoder stops, animation frames and timeouts
    outstanding (a timeout with the [duration] its callback closed over),
    blobs assembled, [saveRecording] calls, and the database. *)
Record Browser := {
  stoppedTracks : gset nat;
  mediaRequests : list MediaRequest;
  closedContexts : nat;
  encoderStops : nat;
  nextFrame : nat;
  pendingFrames : list nat;
  timeouts : list Z;
  artifacts : list Blob;
  saveCalls : list (Blob * Z);
  database : Storage.IDBDatabase;
}.

Record World := {
  ui : Ui;
  refs : Refs;
  browser : Browser;
}.

Definition on_ui (f : Ui → Ui) (w : World) : World :=
  {| ui := f (ui w); refs := refs w; browser := browser w |}.
Definition on_refs (f : Refs → Refs) (w : World) : World :=
  {| ui := ui w; refs := f (refs w); browser := browser w |}.
Definition on_browser (f : Browser → Browser) (w : World) : World :=
  {| ui := ui w; refs := refs w; browser := f (browser w) |}.

Definition setStatus (s : Status) : World → World :=
  on_ui (λ u, {| status := s; duration := duration u; error := error u;
                 audioLevels := audioLevels u |}).
Definition setDuration (d : Z) : World → World :=
  on_ui (λ u, {| status := status u; duration := d; error := error u;
                 audioLevels := audioLevels u |}).
Definition setError (e : string) : World → World :=
  on_ui (λ u, {| status := status u; duration := duration u; error := Some e;
                 audioLevels := audioLevels u |}).
Definition setAudioLevels (l : list number) : World → World :=
  on_ui (λ u, {| status := status u; duration := duration u; error := error u;
                 audioLevels := l |}).

Definition set_mediaRecorderRef (m : option MediaRecorder) : World → World :=
  on_refs (λ r, {| mediaRecorderRef := m; chunksRef := chunksRef r;
                   streamRef := streamRef r; micStream := micStream r;
                   audioContextRef := audioContextRef r;
                   analyserRef := analyserRef r;
                   animationRef := animationRef r;
                   startTimeRef := startTimeRef r |}).
Definition set_chunksRef (c : list Blob) : World → World :=
  on_refs (λ r, {| mediaRecorderRef := mediaRecorderRef r; chunksRef := c;
                   streamRef := streamRef r; micStream := micStream r;
                   audioContextRef := audioContextRef r;
                   analyserRef := analyserRef r;
                   animationRef := animationRef r;
                   startTimeRef := startTimeRef r |}).
Definition set_streamRef (s : option MediaStream) : World → World :=
  on_refs (λ r, {| mediaRecorderRef := mediaRecorderRef r;
                   chunksRef := chunksRef r;
                   streamRef := s; micStream := micStream r;
                   audioContextRef := audioContextRef r;
                   analyserRef := analyserRef r;
                   animationRef := animationRef r;
                   startTimeRef := startTimeRef r |}).
Definition set_micStream (s : option MediaStream) : World → World :=
  on_refs (λ r, {| mediaRecorderRef := mediaRecorderRef r;
                   chunksRef := chunksRef r;
                   streamRef := streamRef r; micStream := s;
                   audioContextRef := audioContextRef r;
                   analyserRef := analyserRef r;
                   animationRef := animationRef r;
                   startTimeRef := startTimeRef r |}).
Definition set_audioContextRef (c : option AudioContext) : World → World :=
  on_refs (λ r, {| mediaRecorderRef := mediaRecorderRef r;
                   chunksRef := chunksRef r;
                   streamRef := streamRef r; micStream := micStream r;
                   audioContextRef := c;
                   analyserRef := analyserRef r;
                   animationRef := animationRef r;
                   startTimeRef := startTimeRef r |}).
Definition set_analyserRef (a : option AudioNode) : World → World :=
  on_refs (λ r, {| mediaRecorderRef := mediaRecorderRef r;
                   chunksRef := chunksRef r;
                   streamRef := streamRef r; micStream := micStream r;
                   audioContextRef := audioContextRef r;
                   analyserRef := a;
                   animationRef := animationRef r;
                   startTimeRef := startTimeRef r |}).
Definition set_animationRef (a : option nat) : World → World :=
  on_refs (λ r, {| mediaRecorderRef := mediaRecorderRef r;
                   chunksRef := chunksRef r;
                   streamRef := streamRef r; micStream := micStream r;
                   audioContextRef := audioContextRef r;
                   analyserRef := analyserRef r;
                   animationRef := a;
                   startTimeRef := startTimeRef r |}).
Definition set_startTimeRef (t : Z) : World → World :=
  on_refs (λ r, {| mediaRecorderRef := mediaRecorderRef r;
                   chunksRef := chunksRef r;
                   streamRef := streamRef r; micStream := micStream r;
                   audioContextRef := audioContextRef r;
                   analyserRef := analyserRef r;
                   animationRef := animationRef r;
                   startTimeRef := t |}).

(** *** Browser operations *)

(** [track.stop()] *)
Definition stopTrack (t : nat) : World → World :=
  on_browser (λ b,
    {| stoppedTracks := stoppedTracks b ∪ {[t]};
       mediaRequests := mediaRequests b; closedContexts := closedContexts b;
       encoderStops := encoderStops b; nextFrame := nextFrame b;
       pendingFrames := pendingFrames b; timeouts := timeouts b;
       artifacts := artifacts b; saveCalls := saveCalls b;
       database := database b |}).

(** [tracks.forEach(t => t.stop())] *)
Definition stopTracks (tracks : list nat) (w : World) : World :=
  foldl (λ w t, stopTrack t w) w tracks.

(** The effect of [stopTracks] in one step: a set of tracks is stopped. *)
Definition stopAll (tracks : gset nat) : World → World :=
  on_browser (λ b,
    {| stoppedTracks := stoppedTracks b ∪ tracks;
       mediaRequests := mediaRequests b; closedContexts := closedContexts b;
       encoderStops := encoderStops b; nextFrame := nextFrame b;
       pendingFrames := pendingFrames b; timeouts := timeouts b;
       artifacts := artifacts b; saveCalls := saveCalls b;
       database := database b |}).

Definition logRequest (r : MediaRequest) : World → World :=
  on_browser (λ b,
    {| stoppedTracks := stoppedTracks b;
       mediaRequests := mediaRequests b ++ [r];
       closedContexts := closedContexts b;
       encoderStops := encoderStops b; nextFrame := nextFrame b;
       pendingFrames := pendingFrames b; timeouts := timeouts b;
       artifacts := artifacts b; saveCalls := saveCalls b;
       database := database b |}).

(** [audioContext.close()] *)
Definition closeContext : World → World :=
  on_browser (λ b,
    {| stoppedTracks := stoppedTracks b; mediaRequests := mediaRequests b;
       closedContexts := S (closedContexts b);
       encoderStops := encoderStops b; nextFrame := nextFrame b;
       pendingFrames := pendingFrames b; timeouts := timeouts b;
       artifacts := artifacts b; saveCalls := saveCalls b;
       database := database b |}).

(** The browser's side of [mediaRecorder.stop()]. *)
Definition logEncoderStop : World → World :=
  on_browser (λ b,
    {| stoppedTracks := stoppedTracks b; mediaRequests := mediaRequests b;
       closedContexts := closedContexts b;
       encoderStops := S (encoderStops b); nextFrame := nextFrame b;
       pendingFrames := pendingFrames b; timeouts := timeouts b;
       artifacts := artifacts b; saveCalls := saveCalls b;
       database := database b |}).

Definition set_frames (next : nat) (pending : list nat) : World → World :=
  on_browser (λ b,
    {| stoppedTracks := stoppedTracks b; mediaRequests := mediaRequests b;
       closedContexts := closedContexts b;
       encoderStops := encoderStops b; nextFrame := next;
       pendingFrames := pending; timeouts := timeouts b;
       artifacts := artifacts b; saveCalls := saveCalls b;
       database := database b |}).

Definition set_timeouts (l : list Z) : World → World :=
  on_browser (λ b,
    {| stoppedTracks := stoppedTracks b; mediaRequests := mediaRequests b;
       closedContexts := closedContexts b;
       encoderStops := encoderStops b; nextFrame := nextFrame b;
       pendingFrames := pendingFrames b; timeouts := l;
       artifacts := artifacts b; saveCalls := saveCalls b;
       database := database b |}).

Definition logArtifact (blob : Blob) : World → World :=
  on_browser (λ b,
    {| stoppedTracks := stoppedTracks b; mediaRequests := mediaRequests b;
       closedContexts := closedContexts b;
       encoderStops := encoderStops b; nextFrame := nextFrame b;
       pendingFrames := pendingFrames b; timeouts := timeouts b;
       artifacts := artifacts b ++ [blob]; saveCalls := saveCalls b;
       database := database b |}).

Definition logSaveCall (blob : Blob) (d : Z) : World → World :=
  on_browser (λ b,
    {| stoppedTracks := stoppedTracks b; mediaRequests := mediaRequests b;
       closedContexts := closedContexts b;
       encoderStops := encoderStops b; nextFrame := nextFrame b;
       pendingFrames := pendingFrames b; timeouts := timeouts b;
       artifacts := artifacts b; saveCalls := saveCalls b ++ [(blob, d)];
       database := database b |}).

Definition set_database (d : Storage.IDBDatabase) : World → World :=
  on_browser (λ b,
    {| stoppedTracks := stoppedTracks b; mediaRequests := mediaRequests b;
       closedContexts := closedContexts b;
       encoderStops := encoderStops b; nextFrame := nextFrame b;
       pendingFrames := pendingFrames b; timeouts := timeouts b;
       artifacts := artifacts b; saveCalls := saveCalls b;
       database := d |}).

(** [requestAnimationFrame(cb)]: a fresh non-zero handle. *)
Definition requestAnimationFrame (w : World) : nat * World :=
  let handle := S (nextFrame (browser w)) in
  (handle, set_frames handle (pendingFrames (browser w) ++ [handle]) w).

(** [cancelAnimationFrame(handle)] *)
Definition cancelAnimationFrame (handle : nat) (w : World) : World :=
  set_frames (nextFrame (browser w))
    (filter (λ h, h ≠ handle) (pendingFrames (browser w))) w.

(** [setTimeout(cb, 100)], the callback having closed over [duration]. *)
Definition setTimeout (w : World) : World :=
  set_timeouts (timeouts (browser w) ++ [duration (ui w)]) w.

(** *** Code that awaits and throws: state and exceptions *)

Definition M (A : Type) : Type := World → promise A * World.

#[global] Instance M_ret : MRet M := λ A a w, (Resolved a, w).

#[global] Instance M_bind : MBind M := λ A B k m w,
  match m w with
  | (Resolved a, w') => k a w'
  | (Rejected e, w') => (Rejected e, w')
  end.

(** [await p] *)
Definition await {A} (p : promise A) : M A := λ w, (p, w).

(** A statement that only changes the state. *)
Definition exec (f : World → World) : M unit := λ w, (Resolved (), f w).

(** [await navigator.mediaDevices.getUserMedia(r)] *)
Definition request (P : Platform) (r : MediaRequest) : M MediaStream :=
  λ w, (getUserMedia P r, logRequest r w).

(** *** The level loop *)

Definition updateAudioLevels (data : list Byte.byte) (w : World) : World :=
  match analyserRef (refs w) with
  | None => w
  | Some _ =>
      let dataArray := readFrequencyData data in
      let levels := computeLevels dataArray in
      let w := setAudioLevels levels w in
      let '(handle, w) := requestAnimationFrame w in
      set_animationRef (Some handle) w
  end.

Definition setupAnalyser (P : Platform) (src : AudioNode)
    (audioContext : AudioContext) : M AudioContext :=
  let audioContext := connect src analyser audioContext in
  exec (set_analyserRef (Some analyser));;
  exec (updateAudioLevels (getByteFrequencyData P));;
  mret audioContext.

(** *** [startRecording] *)

(** The [try] block up to [finalStream]. *)
Definition acquire (c : Component) (P : Platform) (params : RecorderParams)
  : M EncoderStream :=
  if String.eqb (mode params) "tab" || String.eqb (mode params) "both" then
    streamId ← await (getMediaStreamId P (tabId params));
    tabStream ← request P (TabCapture streamId);
    exec (stopTracks (getVideoTracks tabStream));;
    if String.eqb (mode params) "both" && truthy_str (Some (deviceId params))
    then
      micStream ← request P (Microphone (deviceId params));
      let audioContext := newAudioContext in
      audioContext ←
        match c with
        | Plain =>
            let audioContext := createMediaStreamSource tabSource tabStream audioContext in
            let audioContext := createMediaStreamSource micSource micStream audioContext in
            let audioContext := connect tabSource destination audioContext in
            let audioContext := connect tabSource speakers audioContext in
            let audioContext := connect micSource destination audioContext in
            mret audioContext
        | WithLevels =>
            let audioContext := createMediaStreamSource tabSource tabStream audioContext in
            let audioContext := createMediaStreamSource micSource micStream audioContext in
            let audioContext := connect tabSource merger audioContext in
            let audioContext := connect micSource merger audioContext in
            let audioContext := connect merger destination audioContext in
            let audioContext := connect tabSource speakers audioContext in
            setupAnalyser P merger audioContext
        end;
      exec (set_audioContextRef (Some audioContext));;
      exec (set_streamRef (Some tabStream));;
      exec (set_micStream (Some micStream));;
      mret OfDestination
    else
      let audioContext := newAudioContext in
      let audioContext := createMediaStreamSource source tabStream audioContext in
      let audioContext := connect source speakers audioContext in
      audioContext ←
        match c with
        | Plain => mret audioContext
        | WithLevels => setupAnalyser P source audioContext
        end;
      exec (set_audioContextRef (Some audioContext));;
      exec (set_streamRef (Some tabStream));;
      mret (OfStream tabStream)
  else
    finalStream ← request P (Microphone (deviceId params));
    match c with
    | Plain => mret ()
    | WithLevels =>
        let audioContext := newAudioContext in
        let audioContext := createMediaStreamSource source finalStream audioContext in
        audioContext ← setupAnalyser P source audioContext;
        exec (set_audioContextRef (Some audioContext))
    end;;
    exec (set_streamRef (Some finalStream));;
    mret (OfStream finalStream).

Definition startRecording_try (c : Component) (P : Platform) (now : Z)
    (params : RecorderParams) : M unit :=
  finalStream ← acquire c P params;
  exec (set_chunksRef []);;
  exec (set_mediaRecorderRef
          (Some {| stream := finalStream; state := Recording;
                   timeslice := 1000 |}));;
  exec (set_startTimeRef now);;
  exec (setStatus recording).

Definition startRecording (c : Component) (P : Platform) (now : Z)
    (params : RecorderParams) (w : World) : World :=
  match startRecording_try c P now params w with
  | (Resolved _, w) => w
  | (Rejected message, w) => setStatus stopped (setError message w)
  end.

(** The mount effect. *)
Definition mount (c : Component) (P : Platform) (now : Z)
    (search : URLSearchParams) (w : World) : World :=
  match getParams search with
  | None => setError "Invalid parameters" w
  | Some params => startRecording c P now params w
  end.

(** *** [stopRecording] and its deferred save *)

(** [if (animationRef.current)]: a handle that is set and not 0. *)
Definition truthy_handle (h : option nat) : option nat :=
  match h with
  | Some (S n) => Some (S n)
  | _ => None
  end.

(** The statements only the component with the level bars has. *)
Definition stopAnimation (w : World) : World :=
  let w :=
    match truthy_handle (animationRef (refs w)) with
    | Some handle => set_animationRef None (cancelAnimationFrame handle w)
    | None => w
    end in
  let w := set_analyserRef None w in
  setAudioLevels (replicate NUM_BARS (Some 0%Qc)) w.

(** [if (mediaRecorder && mediaRecorder.state !== 'inactive')
      mediaRecorder.stop()] *)
Definition stopEncoder (w : World) : World :=
  match mediaRecorderRef (refs w) with
  | Some mediaRecorder =>
      match state mediaRecorder with
      | Inactive => w
      | _ =>
          logEncoderStop
            (set_mediaRecorderRef
               (Some {| stream := stream mediaRecorder; state := Inactive;
                        timeslice := timeslice mediaRecorder |}) w)
      end
  | None => w
  end.

(** [if (streamRef.current) { ... }]: the tracks of the stream, and of
    the microphone stream kept beside it. *)
Definition stopStreams (w : World) : World :=
  match streamRef (refs w) with
  | Some s =>
      let w := stopTracks (getTracks s) w in
      match micStream (refs w) with
      | Some m => stopTracks (getTracks m) w
      | None => w
      end
  | None => w
  end.

(** The tracks [stopStreams] stops, by the two streams held. *)
Definition held_tracks (s m : option MediaStream) : gset nat :=
  match s with
  | Some s =>
      list_to_set (getTracks s)
        ∪ match m with
          | Some m => list_to_set (getTracks m)
          | None => ∅
          end
  | None => ∅
  end.

(** [if (audioContextRef.current) { ... }] *)
Definition releaseContext (w : World) : World :=
  match audioContextRef (refs w) with
  | Some _ => set_audioContextRef None (closeContext w)
  | None => w
  end.

(** The synchronous part of [stopRecording]; it ends by scheduling the
    save. *)
Definition stopRecording (c : Component) (w : World) : World :=
  let w := match c with Plain => w | WithLevels => stopAnimation w end in
  let w := stopEncoder w in
  let w := stopStreams w in
  let w := releaseContext w in
  setTimeout w.

(** The callback given to [setTimeout], with the [duration] it closed
    over and what [saveRecording] reads when it runs. *)
Definition saveCallback (env : Storage.SaveEnv) (d : Z) (w : World) : World :=
  let blob := newBlob (chunksRef (refs w)) in
  let w := logArtifact blob w in
  if 0 <? JS.size blob then
    let w := logSaveCall blob d w in
    match Storage.saveRecording env blob d None (database (browser w)) with
    | Resolved (_, database') => setStatus stopped (set_database database' w)
    | Rejected _ => setStatus stopped (setError "Failed to save recording" w)
    end
  else setStatus stopped w.

(** [mediaRecorder.ondataavailable] *)
Definition ondataavailable (data : Blob) (w : World) : World :=
  if 0 <? JS.size data then set_chunksRef (chunksRef (refs w) ++ [data]) w
  else w.

(** *** The callbacks the browser runs on a mounted window *)

Inductive Event :=
| ClickStop
| TimeoutFires (env : Storage.SaveEnv)
| DataAvailable (data : Blob)
| IntervalTick (now : Z)
| AnimationFrame (data : list Byte.byte).

(** The stop button is rendered, and the interval runs, only while
    [status] is [recording]; a timeout or an animation frame fires only if
    one is outstanding; the encoder reports data only once it exists. *)
Definition step (c : Component) (e : Event) (w : World) : World :=
  match e with
  | ClickStop =>
      match status (ui w) with
      | recording => stopRecording c w
      | _ => w
      end
  | TimeoutFires env =>
      match timeouts (browser w) with
      | d :: rest => saveCallback env d (set_timeouts rest w)
      | [] => w
      end
  | DataAvailable data =>
      match mediaRecorderRef (refs w) with
      | Some _ => ondataavailable data w
      | None => w
      end
  | IntervalTick now =>
      match status (ui w) with
      | recording => setDuration (elapsed now (startTimeRef (refs w))) w
      | _ => w
      end
  | AnimationFrame data =>
      match pendingFrames (browser w) with
      | h :: rest =>
          updateAudioLevels data (set_frames (nextFrame (browser w)) rest w)
      | [] => w
      end
  end.

Definition run (c : Component) (events : list Event) (w : World) : World :=
  foldl (λ w e, step c e w) w events.

(** A window that has just been opened. *)
Definition initial (database : Storage.IDBDatabase) : World :=
  {| ui := {| status := starting; duration := 0; error := None;
              audioLevels := replicate NUM_BARS (Some 0%Qc) |};
     refs := {| mediaRecorderRef := None; chunksRef := []; streamRef := None;
                micStream := None; audioContextRef := None;
                analyserRef := None; animationRef := None;
                startTimeRef := 0 |};
     browser := {| stoppedTracks := ∅; mediaRequests := [];
                   closedContexts := 0; encoderStops := 0; nextFrame := 0;
                   pendingFrames := []; timeouts := []; artifacts := [];
                   saveCalls := []; database := database |} |}.

(** The whole life of a window: mounted on a query string, then the
    callbacks in the order the browser runs them. *)
Definition session (c : Component) (P : Platform) (now : Z)
    (search : URLSearchParams) (database : Storage.IDBDatabase)
    (events : list Event) : World :=
  run c events (mount c P now search (initial database)).

(** *** Vocabulary of the specification *)

Definition mode_includes_tab (m : string) : Prop := m = "tab" ∨ m = "both".
Definition mode_includes_mic (m : string) : Prop := m = "mic" ∨ m = "both".

(** The fields a mode requires are in the query string. *)
Definition required_fields_present (search : URLSearchParams) : Prop :=
  ∃ m, get search "mode" = Some m ∧ m ≠ "" ∧
    (mode_includes_tab m →
       ∃ t, parseInt (or_str (get search "tabId") "0") = Some t ∧ t ≠ Finite 0) ∧
    (mode_includes_mic m →
       ∃ d, get search "deviceId" = Some d ∧ d ≠ "").

(** A session in the recording state: the encoder runs and no stop has
    been requested yet. *)
Definition is_recording (w : World) : Prop :=
  status (ui w) = recording ∧
  (∃ m, mediaRecorderRef (refs w) = Some m ∧ state m = Recording) ∧
  timeouts (browser w) = [].

(** The encoder object once [stop()] has been called on it. *)
Definition stopped_encoder (m : MediaRecorder) : MediaRecorder :=
  {| stream := stream m; state := Inactive; timeslice := timeslice m |}.

(** Calls of [mediaRecorder.stop()] and of [audioContext.close()] that a
    stop makes, by the encoder and the context it finds in the refs. *)
Definition encoder_stops (m : option MediaRecorder) : nat :=
  match m with
  | Some m => match state m with Inactive => 0 | _ => 1 end
  | None => 0
  end.

Definition context_closes (a : option AudioContext) : nat :=
  match a with
  | Some _ => 1
  | None => 0
  end.

(** What a phase of [stopRecording] leaves alone: the display but for the
    levels, the chunks and streams held, and the record of saves. *)
Definition keeps (f : World → World) : Prop :=
  ∀ w,
    status (ui (f w)) = status (ui w) ∧
    duration (ui (f w)) = duration (ui w) ∧
    error (ui (f w)) = error (ui w) ∧
    chunksRef (refs (f w)) = chunksRef (refs w) ∧
    streamRef (refs (f w)) = streamRef (refs w) ∧
    micStream (refs (f w)) = micStream (refs w) ∧
    artifacts (browser (f w)) = artifacts (browser w) ∧
    saveCalls (browser (f w)) = saveCalls (browser w) ∧
    database (browser (f w)) = database (browser w).

(** All tracks of a stream have been stopped. *)
Definition all_stopped (s : MediaStream) (w : World) : Prop :=
  ∀ t, t ∈ getTracks s → t ∈ stoppedTracks (browser w).

Definition is_microphone (r : MediaRequest) : bool :=
  match r with
  | Microphone _ => true
  | TabCapture _ => false
  end.

(** The microphone requests made so far. *)
Definition microphone_requests (w : World) : list MediaRequest :=
  filter (λ r, is_microphone r = true) (mediaRequests (browser w)).

(** A byte of a [Uint8Array]. *)
Definition is_byte (x : Z) : Prop := 0 ≤ x ≤ 255.

(** A level that is a number between 0 and 1. *)
Definition in_unit_range (l : number) : Prop :=
  ∃ q, l = Some q ∧ (0 ≤ q ≤ 1)%Qc.

(** Nodes other than the tab's source and the speakers. *)
Definition off_monitor (n : AudioNode) : Prop :=
  n ≠ tabSource ∧ n ≠ source ∧ n ≠ speakers.

(** The invariant of the data model: an error is shown only with the
    session stopped. *)
Definition error_means_stopped (w : World) : Prop :=
  error (ui w) ≠ None → status (ui w) = stopped.

(** What a start in tab mode leaves behind, by the browser's answers. *)
Inductive tab_start (c : Component) (P : Platform) (t : double) (w w' : World)
  : Prop :=
| tab_start_no_id e :
    getMediaStreamId P t = Rejected e →
    w' = setStatus stopped (setError e w) →
    tab_start c P t w w'
| tab_start_no_stream sid e :
    getMediaStreamId P t = Resolved sid →
    getUserMedia P (TabCapture sid) = Rejected e →
    w' = setStatus stopped (setError e (logRequest (TabCapture sid) w)) →
    tab_start c P t w w'
| tab_start_recording sid tabStream ctx :
    getMediaStreamId P t = Resolved sid →
    getUserMedia P (TabCapture sid) = Resolved tabStream →
    status (ui w') = recording →
    error (ui w') = error (ui w) →
    mediaRequests (browser w') = (mediaRequests (browser w) ++ [TabCapture sid])%list →
    mediaRecorderRef (refs w')
      = Some {| stream := OfStream tabStream; state := Recording; timeslice := 1000 |} →
    streamRef (refs w') = Some tabStream →
    micStream (refs w') = micStream (refs w) →
    audioContextRef (refs w') = Some ctx →
    streamSources ctx = [(source, tabStream)] →
    connections ctx
      = match c with
        | Plain => [(source, speakers)]
        | WithLevels => [(source, speakers); (source, analyser)]
        end →
    tab_start c P t w w'.

End Recorder.

(** ** Values the functions are run on *)

Module Samples.
Import JS Recorder.

Definition sample_recording : Storage.Recording :=
  {| Storage.id := "rec-1-abc"; Storage.name := "Recording 2025-12-04T18-09-06";
     Storage.blob := [Byte.x1a; Byte.x45]; Storage.duration := 65;
     Storage.createdAt := 1; Storage.size := 2;
     Storage.transcription := Some "# Notes";
     Storage.transcriptionStatus := Some Storage.completed |}.

Definition sample_database : Storage.IDBDatabase :=
  {| Storage.recordings := {[ "rec-1-abc" := sample_recording ]};
     Storage.failing := None |}.

Definition sample_state : Recordings.State :=
  {| Recordings.recordings := [sample_recording];
     Recordings.apiAvailable := Some true;
     Recordings.processingId := None;
     Recordings.selectedRecording := None;
     Recordings.database := sample_database;
     Recordings.alerts := [] |}.

Definition empty_database : Storage.IDBDatabase :=
  {| Storage.recordings := ∅; Storage.failing := None |}.

Definition tab_stream : MediaStream :=
  {| audioTracks := [1%nat]; videoTracks := [2%nat] |}.

Definition mic_stream : MediaStream :=
  {| audioTracks := [3%nat]; videoTracks := [] |}.

(** A browser that grants every request. *)
Definition granting : Platform :=
  {| getMediaStreamId := λ _, Resolved "stream-id";
     getUserMedia := λ r,
       match r with
       | TabCapture _ => Resolved tab_stream
       | Microphone _ => Resolved mic_stream
       end;
     getByteFrequencyData := [] |}.

(** A browser whose microphone request rejects. *)
Definition without_microphone : Platform :=
  {| getMediaStreamId := λ _, Resolved "stream-id";
     getUserMedia := λ r,
       match r with
       | TabCapture _ => Resolved tab_stream
       | Microphone _ => Rejected "Requested device not found"
       end;
     getByteFrequencyData := [] |}.

Definition both_query : URLSearchParams :=
  [("mode", "both"); ("deviceId", "mic-1"); ("tabId", "7")].

Definition both_params : RecorderParams :=
  {| mode := "both"; deviceId := "mic-1"; tabId := Finite 7 |}.

Definition first_save : Storage.SaveEnv :=
  {| Storage.now := 1000; Storage.random := "k3j9x2a";
     Storage.isoString := "2025-12-04T18:09:06.216Z";
     Storage.nowCreated := 1000 |}.

Definition second_save : Storage.SaveEnv :=
  {| Storage.now := 1001; Storage.random := "p0q8w7e";
     Storage.isoString := "2025-12-04T18:09:06.217Z";
     Storage.nowCreated := 1001 |}.

End Samples.

(** ** [src/utils/storage.ts]: [getRecordings] *)

Module Listing.
Import JS Storage.

(** The order of string keys in IndexedDB, a proper prefix first.  (Keys
    are compared by code unit; on the encoded strings this is the order of
    the bytes, for keys with no character beyond U+FFFF.  The ids
    [saveRecording] makes are ASCII.) *)
Fixpoint key_le (a b : string) : bool :=
  match a, b with
  | EmptyString, _ => true
  | String _ _, EmptyString => false
  | String x a', String y b' =>
      if (nat_of_ascii x <? nat_of_ascii y)%nat then true
      else if (nat_of_ascii y <? nat_of_ascii x)%nat then false
      else key_le a' b'
  end.

(** The order in which a cursor over the [createdAt] index, opened in
    direction ['prev'], visits two records: the larger [createdAt] first,
    and for equal ones the larger primary key first. *)
Definition visited_before (r1 r2 : Recording) : Prop :=
  createdAt r2 < createdAt r1 ∨
  (createdAt r1 = createdAt r2 ∧ key_le (id r2) (id r1) = true).

#[global] Instance visited_before_dec : RelDecision visited_before.
Proof. intros r1 r2. unfold visited_before. apply _. Defined.

(** [index.openCursor(null, 'prev')], run to its end. *)
Definition openCursor_prev (database : IDBDatabase) : list Recording :=
  merge_sort visited_before ((map_to_list (recordings database)).*2).

Definition getRecordings (database : IDBDatabase) : promise (list Recording) :=
  match failing database with
  | Some e => Rejected e
  | None => Resolved (openCursor_prev database)
  end.

End Listing.

(** ** [src/recordings/Recordings.tsx]: the rest of the page *)

Module Page.
Import JS Storage Recordings.

Definition SUPPORTED_AUDIO_TYPES : list string :=
  ["audio/webm"; "audio/mp3"; "audio/mpeg"; "audio/wav"; "audio/ogg";
   "audio/flac"; "audio/m4a"; "audio/x-m4a"; "audio/mp4"].

(** The extensions of [/\.(webm|mp3|wav|ogg|flac|m4a|mp4)$/i]. *)
Definition AUDIO_EXTENSIONS : list string :=
  ["webm"; "mp3"; "wav"; "ogg"; "flac"; "m4a"; "mp4"].

(** A [File]: its name, its MIME type and its bytes. *)
Record File := {
  name : string;
  type : string;
  bytes : Blob;
}.

(** Case folding of the [i] flag on ASCII letters. *)
Definition lower (c : ascii) : ascii :=
  let n := nat_of_ascii c in
  if ((65 <=? n) && (n <=? 90))%nat then ascii_of_nat (n + 32) else c.

Fixpoint lowercase (s : string) : string :=
  match s with
  | String c s' => String (lower c) (lowercase s')
  | EmptyString => EmptyString
  end.

Definition ends_with (s suffix : string) : bool :=
  let n := String.length s in
  let m := String.length suffix in
  (m <=? n)%nat && String.eqb (String.substring (n - m) m s) suffix.

(** [file.name.match(/\.(webm|mp3|wav|ogg|flac|m4a|mp4)$/i)] *)
Definition has_audio_extension (file_name : string) : bool :=
  existsb (λ ext, ends_with (lowercase file_name) ("." +:+ ext)) AUDIO_EXTENSIONS.

(** [SUPPORTED_AUDIO_TYPES.includes(file.type)] *)
Definition includes (l : list string) (s : string) : bool :=
  existsb (String.eqb s) l.

(** The files the loop of [handleFileSelect] does not skip. *)
Definition supported (f : File) : bool :=
  includes SUPPORTED_AUDIO_TYPES (type f) || has_audio_extension (name f).

(** The last ['.'] of a string: what is before it and what is after. *)
Fixpoint last_dot (s : string) : option (string * string) :=
  match s with
  | EmptyString => None
  | String c s' =>
      match last_dot s' with
      | Some (base, ext) => Some (String c base, ext)
      | None => if Ascii.eqb c "." then Some (EmptyString, s') else None
      end
  end.

(** [c] occurs in [s]. *)
Fixpoint occurs (c : ascii) (s : string) : bool :=
  match s with
  | String x s' => Ascii.eqb x c || occurs c s'
  | EmptyString => false
  end.

(** [name.replace(/\.[^/.]+$/, '')]: the match can only start at the last
    ['.'], and needs one character or more, none a ['/'], after it. *)
Definition strip_extension (file_name : string) : string :=
  match last_dot file_name with
  | Some (base, ext) =>
      if String.eqb ext "" || occurs "/" ext then file_name else base
  | None => file_name
  end.



Definition setApiAvailable (a : option bool) (s : State) : State :=
  {| recordings := recordings s; apiAvailable := a;
     processingId := processingId s; selectedRecording := selectedRecording s;
     database := database s; alerts := alerts s |}.


(** The answer of [GET /health]: no answer (or no JSON object), or what
    the page reads of the body: its [status], when it is a string, and
    whether its [model_loaded] is truthy ([None]: the field is missing).
    The page tests what it stores for truthiness only. *)
Inductive HealthResult :=
| HealthFailure
| HealthJson (status : option string) (model_loaded : option bool).

(** [data.status === 'ok' && data.model_loaded] *)
Definition checkApiHealth (health : HealthResult) (s : State) : State :=
  match health with
  | HealthFailure => setApiAvailable (Some false) s
  | HealthJson status model_loaded =>
      match status with
      | Some st => if String.eqb st "ok" then setApiAvailable model_loaded s
                   else setApiAvailable (Some false) s
      | None => setApiAvailable (Some false) s
      end
  end.


(** The update [handleProcess] ends with, by the outcome of the request:
    the transcript of a success, or the status ['error']. *)
Definition outcome_update (fetch : FetchResult) : PartialRecording :=
  match fetch with
  | Response true _ (Resolved markdown) => transcript_update markdown completed
  | _ => status_update error
  end.

(** The list shows what is stored: every listed record is the stored record
    of its id. *)
Definition in_sync (s : State) : Prop :=
  ∀ r, r ∈ recordings s →
       Storage.recordings (database s) !! id r = Some r.

End Page.

(** ** The popup: opening the recorder window *)

Module Popup.
Import JS.

(** [startRecording] up to the query string of the recorder window;
    [tab_id] is the [id] of the tab the query returns, an integer, or
    [None] when it is undefined. *)
Definition startRecording (captureMode selectedDevice : string)
    (tab_id : option Z) : promise URLSearchParams :=
  if negb (truthy_num (Finite <$> tab_id)) then Rejected "No active tab found"
  else
    Resolved [("mode", captureMode); ("deviceId", selectedDevice);
              ("tabId", toString (default 0 tab_id))].

(** The values of [CaptureMode]. *)
Definition CaptureMode (m : string) : Prop := m = "tab" ∨ m = "mic" ∨ m = "both".

End Popup.

(** ** The life of a session *)

Module Lifecycle.
Import JS Recorder.

(** The order of the statuses. *)
Definition rank (s : Status) : nat :=
  match s with
  | starting => 0
  | recording => 1
  | stopped => 2
  end.

Definition is_click (e : Event) : bool :=
  match e with
  | ClickStop => true
  | _ => false
  end.

(** The events that are neither a click on stop nor a timeout: data from
    the encoder, a tick of the interval, an animation frame. *)
Definition passive (e : Event) : bool :=
  match e with
  | ClickStop | TimeoutFires _ => false
  | _ => true
  end.

(** How often the stop button is clicked in a run. *)
Definition clicks (events : list Event) : nat :=
  length (filter (λ e, is_click e = true) events).

(** The chunks the encoder reports in a run. *)
Definition reported (events : list Event) : list Blob :=
  omap (λ e, match e with DataAvailable data => Some data | _ => None end) events.

(** The level loop runs: an analyser is attached and exactly one animation
    frame is requested, the one [animationRef] holds. *)
Definition loop_running (w : World) : Prop :=
  ∃ h, analyserRef (refs w) = Some analyser ∧
       animationRef (refs w) = Some (S h) ∧
       pendingFrames (browser w) = [S h].

(** The level loop is off: no analyser, no frame requested, bars at 0. *)
Definition loop_off (w : World) : Prop :=
  analyserRef (refs w) = None ∧
  pendingFrames (browser w) = [] ∧
  audioLevels (ui w) = replicate NUM_BARS (Some 0%Qc).

(** The streams the browser handed out for the requests made. *)
Definition handed_out (P : Platform) (w : World) (s : MediaStream) : Prop :=
  ∃ r, r ∈ mediaRequests (browser w) ∧ getUserMedia P r = Resolved s.

(** The chunk an event adds to [chunksRef]. *)
Definition kept_chunk (e : Event) : list Blob :=
  match e with
  | DataAvailable data => if 0 <? JS.size data then [data] else []
  | _ => []
  end.

(** What the events other than a click on stop leave alone while the
    session records. *)
Definition same_session (w w' : World) : Prop :=
  error (ui w') = error (ui w) ∧
  streamRef (refs w') = streamRef (refs w) ∧
  micStream (refs w') = micStream (refs w) ∧
  audioContextRef (refs w') = audioContextRef (refs w) ∧
  startTimeRef (refs w') = startTimeRef (refs w) ∧
  stoppedTracks (browser w') = stoppedTracks (browser w) ∧
  mediaRequests (browser w') = mediaRequests (browser w) ∧
  closedContexts (browser w') = closedContexts (browser w) ∧
  encoderStops (browser w') = encoderStops (browser w) ∧
  artifacts (browser w') = artifacts (browser w) ∧
  saveCalls (browser w') = saveCalls (browser w) ∧
  database (browser w') = database (browser w).

(** What a phase of [stopRecording] other than [stopAnimation] leaves
    alone: the level loop, the requests made and the start time. *)
Definition leaves_loop (f : World → World) : Prop :=
  ∀ w,
    analyserRef (refs (f w)) = analyserRef (refs w) ∧
    animationRef (refs (f w)) = animationRef (refs w) ∧
    pendingFrames (browser (f w)) = pendingFrames (browser w) ∧
    audioLevels (ui (f w)) = audioLevels (ui w) ∧
    mediaRequests (browser (f w)) = mediaRequests (browser w) ∧
    startTimeRef (refs (f w)) = startTimeRef (refs w).

(** The bookkeeping of a window after [n] clicks on stop: each blob
    assembled and each timeout outstanding comes from a click of its own,
    a save from a blob, and what the encoder and the context have left to
    stop or close is what was not stopped or closed yet. *)
Definition counted (n : nat) (w : World) : Prop :=
  (length (artifacts (browser w)) + length (timeouts (browser w)) ≤ n)%nat ∧
  (length (saveCalls (browser w)) ≤ length (artifacts (browser w)))%nat ∧
  (encoderStops (browser w) + encoder_stops (mediaRecorderRef (refs w)) ≤ 1)%nat ∧
  (closedContexts (browser w) + context_closes (audioContextRef (refs w)) ≤ 1)%nat.


End Lifecycle.

(** * Properties *)

Set Warnings "-clear-no-such-hyp".

(** ** The object store *)

Section StorageFacts.
Import JS Storage.

Lemma getRecording_healthy key database :
  failing database = None →
  getRecording key database =
    Resolved match recordings database !! key with
             | Some r => Obj r
             | None => Null
             end.
Proof.
  intros Hok. unfold getRecording, store_get. rewrite Hok.
  by destruct (recordings database !! key).
Qed.

Lemma updateRecording_present key updates database r :
  failing database = None →
  recordings database !! key = Some r →
  updateRecording key updates database =
    Resolved (with_recordings
                (<[id (spread r updates) := spread r updates]> (recordings database))
                database).
Proof.
  intros Hok Hr. unfold updateRecording.
  rewrite getRecording_healthy, Hr by done.
  unfold store_put. by rewrite Hok.
Qed.

Lemma updateRecording_absent key updates database :
  failing database = None →
  recordings database !! key = None →
  updateRecording key updates database = Rejected "Recording not found".
Proof.
  intros Hok Hr. unfold updateRecording.
  by rewrite getRecording_healthy, Hr.
Qed.

Lemma spread_status_id r st : id (spread r (status_update st)) = id r.
Proof. reflexivity. Qed.

Lemma spread_status_twice r st1 st2 :
  spread (spread r (status_update st1)) (status_update st2)
  = spread r (status_update st2).
Proof. reflexivity. Qed.

End StorageFacts.

(** C10. For an id that is not in the store [getRecording] resolves to
    [null], it does not reject, while [updateRecording] on that id rejects
    with "Recording not found"; for an id that is in the store
    [getRecording] resolves to the stored record itself. *)
Theorem getRecording_null_when_absent :
  ∀ (database : Storage.IDBDatabase) (key : string),
    Storage.failing database = None →
    (Storage.recordings database !! key = None →
       Storage.getRecording key database = JS.Resolved Storage.Null ∧
       ∀ updates,
         Storage.updateRecording key updates database
         = JS.Rejected "Recording not found") ∧
    (∀ r, Storage.recordings database !! key = Some r →
       Storage.getRecording key database = JS.Resolved (Storage.Obj r)).
Proof.
  intros database key Hok. split.
  - intros Hnone. split.
    + by rewrite getRecording_healthy, Hnone.
    + intros updates. by apply updateRecording_absent.
  - intros r Hr. by rewrite getRecording_healthy, Hr.
Qed.

Lemma getRecording_null_when_absent_witness :
  (Storage.getRecording "rec-2-xyz" Samples.sample_database = JS.Resolved Storage.Null ∧
   Storage.updateRecording "rec-2-xyz" Storage.no_updates Samples.sample_database
   = JS.Rejected "Recording not found") ∧
  Storage.getRecording "rec-1-abc" Samples.sample_database
  = JS.Resolved (Storage.Obj Samples.sample_recording).
Proof.
  destruct (getRecording_null_when_absent Samples.sample_database "rec-2-xyz" eq_refl)
    as [Habsent _].
  destruct (getRecording_null_when_absent Samples.sample_database "rec-1-abc" eq_refl)
    as [_ Hpresent].
  split.
  - destruct (Habsent eq_refl) as [Hget Hupd]. split; [exact Hget | apply Hupd].
  - apply Hpresent. reflexivity.
Defined.

(** ** Transcription failures *)

Lemma handleProcess_try_failed fetch recording s :
  Recordings.failed_attempt fetch →
  ∃ e, Recordings.handleProcess_try fetch recording s = (JS.Rejected e, s).
Proof.
  destruct fetch as [e | ok statusText text]; cbn; intros Hfail.
  - by exists e.
  - subst ok. by eexists.
Qed.

(** C9. When a transcription attempt fails (no response, or a response
    that is not a success), [handleProcess] leaves the stored record with
    [transcriptionStatus] set to ['error'] and every other field, the
    transcription text included, as it was; no other record changes. *)
Theorem handleProcess_failure_only_sets_error :
  ∀ (fetch : Recordings.FetchResult) (recording stored : Storage.Recording)
    (s : Recordings.State),
    Recordings.apiAvailable s = Some true →
    Storage.failing (Recordings.database s) = None →
    Storage.recordings (Recordings.database s) !! Storage.id recording = Some stored →
    Storage.id stored = Storage.id recording →
    Recordings.failed_attempt fetch →
    ∃ s',
      Recordings.handleProcess fetch recording s = (JS.Resolved (), s') ∧
      Storage.recordings (Recordings.database s') !! Storage.id recording
      = Some {| Storage.id := Storage.id stored;
                Storage.name := Storage.name stored;
                Storage.blob := Storage.blob stored;
                Storage.duration := Storage.duration stored;
                Storage.createdAt := Storage.createdAt stored;
                Storage.size := Storage.size stored;
                Storage.transcription := Storage.transcription stored;
                Storage.transcriptionStatus := Some Storage.error |} ∧
      (∀ k, k ≠ Storage.id recording →
         Storage.recordings (Recordings.database s') !! k
         = Storage.recordings (Recordings.database s) !! k).
Proof.
  intros fetch recording stored s Hapi Hok Hstored Hid Hfail.
  unfold Recordings.handleProcess. rewrite Hapi. cbn [default negb].
  cbn [Recordings.setProcessingId Recordings.database].
  rewrite (updateRecording_present _ _ _ stored) by done.
  rewrite spread_status_id.
  match goal with
  | |- context [Recordings.handleProcess_try fetch recording ?st] =>
      destruct (handleProcess_try_failed fetch recording st Hfail) as [e ->]
  end.
  unfold Recordings.handleProcess_catch.
  cbn [Recordings.setDatabase Recordings.database].
  rewrite (updateRecording_present _ _ _
             (Storage.spread stored (Storage.status_update Storage.processing)));
    [| exact Hok
     | cbn [Storage.with_recordings Storage.recordings];
       rewrite Hid; apply lookup_insert_eq ].
  rewrite spread_status_twice, spread_status_id.
  eexists. split; [reflexivity |].
  cbn [Recordings.setProcessingId Recordings.setRecordings
         Recordings.setDatabase Recordings.database
         Storage.with_recordings Storage.recordings].
  rewrite Hid. split.
  - rewrite lookup_insert_eq. unfold Storage.spread. cbn. by rewrite Hid.
  - intros k Hk. by rewrite !lookup_insert_ne.
Qed.

Lemma handleProcess_failure_only_sets_error_witness :
  ∃ s',
    Recordings.handleProcess
      (Recordings.Response false "Internal Server Error" (JS.Resolved ""))
      Samples.sample_recording Samples.sample_state = (JS.Resolved (), s') ∧
    Storage.recordings (Recordings.database s') !! "rec-1-abc"
    = Some {| Storage.id := "rec-1-abc";
              Storage.name := "Recording 2025-12-04T18-09-06";
              Storage.blob := [Byte.x1a; Byte.x45]; Storage.duration := 65;
              Storage.createdAt := 1; Storage.size := 2;
              Storage.transcription := Some "# Notes";
              Storage.transcriptionStatus := Some Storage.error |}.
Proof.
  destruct (handleProcess_failure_only_sets_error
              (Recordings.Response false "Internal Server Error" (JS.Resolved ""))
              Samples.sample_recording Samples.sample_recording Samples.sample_state
              eq_refl eq_refl eq_refl eq_refl eq_refl)
    as (s' & Hrun & Hrec & _).
  exists s'. split; [exact Hrun | exact Hrec].
Defined.

(** ** The duration display *)

Lemma elapsed_within_tick (now startTime : Z) :
  0 ≤ (now - startTime) - 1000 * Recorder.elapsed now startTime < 1000.
Proof.
  unfold Recorder.elapsed.
  pose proof (Z.mod_pos_bound (now - startTime) 1000 ltac:(lia)).
  pose proof (Z.div_mod (now - startTime) 1000 ltac:(lia)). lia.
Qed.

Lemma elapsed_65 (now startTime : Z) :
  65000 ≤ now - startTime < 66000 → Recorder.elapsed now startTime = 65.
Proof.
  intros H. unfold Recorder.elapsed.
  symmetry. apply Z.div_unique with (r := now - startTime - 65000); lia.
Qed.

Example formatDuration_examples :
  Recorder.formatDuration 0 = "00:00" ∧
  Recorder.formatDuration 59 = "00:59" ∧
  Recorder.formatDuration 600 = "10:00" ∧
  Recorder.formatDuration 3725 = "1:02:05".
Proof. repeat split; reflexivity. Qed.

(** C5, as the code has it. While the session records, the interval
    callback sets the displayed duration to the whole seconds elapsed since
    the encoder started, less than one second (one tick) behind the clock;
    run 65 seconds after the start, the display reads "01:05" (the minutes
    are padded to two digits). *)
Theorem duration_display_after_65_seconds :
  ∀ (c : Recorder.Component) (w : Recorder.World) (now : Z),
    Recorder.status (Recorder.ui w) = Recorder.recording →
    65000 ≤ now - Recorder.startTimeRef (Recorder.refs w) < 66000 →
    let w' := Recorder.step c (Recorder.IntervalTick now) w in
    Recorder.formatDuration (Recorder.duration (Recorder.ui w')) = "01:05" ∧
    0 ≤ (now - Recorder.startTimeRef (Recorder.refs w))
        - 1000 * Recorder.duration (Recorder.ui w') < 1000.
Proof.
  intros c w now Hrec Hnow. cbn [Recorder.step]. rewrite Hrec.
  cbn [Recorder.setDuration Recorder.on_ui Recorder.ui Recorder.duration].
  split.
  - by rewrite elapsed_65.
  - apply elapsed_within_tick.
Qed.

Lemma duration_display_after_65_seconds_witness :
  Recorder.formatDuration
    (Recorder.duration
       (Recorder.ui
          (Recorder.step Recorder.Plain (Recorder.IntervalTick 65400)
             (Recorder.session Recorder.Plain Samples.granting 0
                Samples.both_query Samples.empty_database []))))
  = "01:05".
Proof.
  apply (duration_display_after_65_seconds Recorder.Plain
           (Recorder.session Recorder.Plain Samples.granting 0
              Samples.both_query Samples.empty_database [])
           65400 eq_refl).
  change (65000 ≤ 65400 - 0 < 66000). lia.
Defined.

(** C5, as stated: 65 seconds are not rendered as "1:05". *)
Lemma duration_display_65_is_not_1_05 :
  Recorder.formatDuration 65 ≠ "1:05" ∧
  Recorder.formatDuration (Recorder.elapsed 65000 0) ≠ "1:05".
Proof. split; vm_compute; discriminate. Qed.

(** ** Reading the parameters *)

Section ParseInt.
Import JS.

Lemma digit_val_pretty (d : N) :
  (d < 10)%N → digit_val (pretty_N_char d) = Some (Z.of_N d).
Proof.
  intros Hd.
  assert (d = 0 ∨ d = 1 ∨ d = 2 ∨ d = 3 ∨ d = 4 ∨ d = 5 ∨ d = 6 ∨ d = 7
          ∨ d = 8 ∨ d = 9)%N as Hcases by lia.
  repeat destruct Hcases as [-> | Hcases]; try subst d; reflexivity.
Qed.

Lemma is_ws_pretty (d : N) : is_ws (pretty_N_char d) = false.
Proof. unfold pretty_N_char. by repeat case_match. Qed.

(** Reading back the digits [pretty_N_go] puts in front of [s]. *)
Lemma digits_pretty_N_go (x : N) :
  ∀ s, (0 < x)%N →
    digits None (pretty_N_go x s) = digits (Some (Z.of_N x)) s.
Proof.
  induction (N.lt_wf_0 x) as [x _ IH]. intros s Hx.
  rewrite pretty_N_go_step by done.
  assert (x `mod` 10 < 10)%N as Hmod by (apply N.mod_lt; lia).
  pose proof (N.div_mod x 10 ltac:(lia)) as Hdiv.
  assert (x `div` 10 < x)%N as Hlt by (apply N.div_lt; lia).
  remember (x `mod` 10)%N as r eqn:Hr. remember (x `div` 10)%N as q eqn:Hq.
  cbn [digits].
  destruct (decide (q = 0)%N) as [H0 | Hpos].
  - rewrite H0, pretty_N_go_0. cbn [digits].
    rewrite digit_val_pretty by done. cbn [default]. do 2 f_equal. lia.
  - rewrite IH; [| done | lia].
    cbn [digits]. rewrite digit_val_pretty by done. cbn [default].
    do 2 f_equal. unfold id. lia.
Qed.

(** The first character [pretty_N_go] produces is a digit. *)
Lemma pretty_N_go_head (x : N) :
  ∀ s, (0 < x)%N → ∃ d rest, pretty_N_go x s = String (pretty_N_char d) rest.
Proof.
  induction (N.lt_wf_0 x) as [x _ IH]. intros s Hx.
  rewrite pretty_N_go_step by done.
  destruct (decide (x `div` 10 = 0)%N) as [H0 | Hpos].
  - rewrite H0, pretty_N_go_0. eauto.
  - apply IH; [apply N.div_lt; lia | by apply N.neq_0_lt_0].
Qed.

(** A digit at the head of a string is no white space, alone or with the
    bytes that follow it. *)
Lemma skip_ws_pretty (d : N) rest :
  skip_ws (String (pretty_N_char d) rest) = String (pretty_N_char d) rest.
Proof.
  cbn [skip_ws]. rewrite is_ws_pretty.
  assert (∀ c2, is_ws2 (pretty_N_char d) c2 = false) as Hws2.
  { intros c2. unfold pretty_N_char. by repeat case_match. }
  assert (∀ c2 c3, is_ws3 (pretty_N_char d) c2 c3 = false) as Hws3.
  { intros c2 c3. unfold pretty_N_char. by repeat case_match. }
  destruct rest as [| c2 [| c3 rest]]; [done | by rewrite Hws2 |].
  by rewrite Hws2, Hws3.
Qed.

Lemma mathInt_digits (s : string) d rest :
  s = String (pretty_N_char d) rest → mathInt s = digits None s.
Proof.
  intros ->. unfold mathInt. rewrite skip_ws_pretty.
  unfold pretty_N_char. by repeat case_match.
Qed.

Lemma mathInt_pretty_positive (p : positive) :
  mathInt (pretty (Npos p)) = Some (Zpos p).
Proof.
  unfold pretty, pretty_N. rewrite decide_False by done.
  destruct (pretty_N_go_head (Npos p) "") as (d & rest & Hhead); [lia |].
  rewrite (mathInt_digits _ d rest Hhead).
  rewrite digits_pretty_N_go by lia. reflexivity.
Qed.

(** What [n.toString()] writes is read back as [n]. *)
Lemma mathInt_toString (n : Z) : mathInt (toString n) = Some n.
Proof.
  unfold toString, pretty, pretty_Z. destruct n as [| p | p].
  - reflexivity.
  - apply mathInt_pretty_positive.
  - unfold pretty, pretty_positive, pretty, pretty_N.
    rewrite decide_False by done.
    destruct (pretty_N_go_head (N.pos p) "") as (d & rest & Hhead); [lia |].
    unfold mathInt.
    change ("-" +:+ pretty_N_go (N.pos p) "")
      with (String "-" (pretty_N_go (N.pos p) "")).
    rewrite Hhead.
    assert (skip_ws (String "-" (String (pretty_N_char d) rest))
            = String "-" (String (pretty_N_char d) rest)) as ->.
    { unfold pretty_N_char. repeat case_match; by destruct rest as [| c3 rest]. }
    rewrite <- Hhead, digits_pretty_N_go by lia. reflexivity.
Qed.

(** An integer a double holds exactly is its own Number value. *)
Lemma to_double_exact (n : Z) : Z.abs n < 2 ^ 53 → to_double n = Finite n.
Proof.
  intros Hn. unfold to_double.
  by destruct (Z.ltb_spec (Z.abs n) (2 ^ 53)); [| lia].
Qed.

(** Rounding never takes an integer other than 0 to 0. *)
Lemma to_double_zero (n : Z) : to_double n = Finite 0 ↔ n = 0.
Proof.
  split; [| by intros ->].
  unfold to_double. destruct (Z.ltb_spec (Z.abs n) (2 ^ 53)) as [| Hbig].
  { by intros [= ->]. }
  set (e := Z.log2 (Z.abs n) - 52).
  set (q := Z.shiftr (Z.abs n) e).
  set (q' := if _ || _ then q + 1 else q).
  assert (2 ^ 53 ≤ 2 ^ Z.log2 (Z.abs n) * 2) as Hlog.
  { pose proof (Z.log2_spec (Z.abs n) ltac:(lia)) as [_ Hup].
    rewrite Z.pow_succ_r in Hup by apply Z.log2_nonneg. lia. }
  assert (52 ≤ Z.log2 (Z.abs n)) as He.
  { apply Z.log2_le_pow2; lia. }
  assert (0 < q) as Hq.
  { subst q. rewrite Z.shiftr_div_pow2 by lia.
    apply Z.div_str_pos. split; [apply Z.pow_pos_nonneg; lia |].
    pose proof (Z.log2_spec (Z.abs n) ltac:(lia)) as [Hlow _].
    etrans; [| exact Hlow]. apply Z.pow_le_mono_r; lia. }
  assert (0 < q') as Hq'.
  { subst q'. destruct (_ || _); lia. }
  assert (0 < Z.shiftl q' e) as Hm.
  { rewrite Z.shiftl_mul_pow2 by lia.
    apply Z.mul_pos_pos; [done | apply Z.pow_pos_nonneg; lia]. }
  destruct (2 ^ 1024 <=? Z.shiftl q' e); [by destruct (n <? 0) |].
  intros [= Hzero]. apply Z.mul_eq_0 in Hzero as [Hs | Hz]; [| lia].
  apply Z.sgn_null_iff in Hs. lia.
Qed.

(** What [n.toString()] writes, [parseInt] reads back. *)
Lemma parseInt_toString (n : Z) : parseInt (toString n) = Some (to_double n).
Proof. unfold parseInt. by rewrite mathInt_toString. Qed.

(** [parseInt] gives a number other than 0 exactly on the strings that
    read as an integer other than 0. *)
Lemma parseInt_nonzero (s : string) (t : double) :
  parseInt s = Some t ∧ t ≠ Finite 0 ↔
  ∃ n, mathInt s = Some n ∧ n ≠ 0 ∧ t = to_double n.
Proof.
  unfold parseInt. destruct (mathInt s) as [n |]; cbn.
  - split.
    + intros [[= <-] Hne]. exists n. split; [done |]. split; [| done].
      intros ->. by apply Hne.
    + intros (n' & [= <-] & Hne & ->). split; [done |].
      by rewrite to_double_zero.
  - split; [by intros [? _] | by intros (n & ? & _)].
Qed.

(** U+00A0 and U+FEFF in front of the digits are skipped, as the white
    space of one byte is. *)
Lemma parseInt_skips_white_space :
  parseInt (String (ascii_of_nat 194) (String (ascii_of_nat 160) "7"))
  = Some (Finite 7) ∧
  parseInt
    (String (ascii_of_nat 239)
       (String (ascii_of_nat 187) (String (ascii_of_nat 191) " -12px")))
  = Some (Finite (-12)) ∧
  parseInt (String (ascii_of_nat 160) "7") = None.
Proof. split; [| split]; reflexivity. Qed.

(** Beyond [2^53] the digits are rounded to the nearest double. *)
Lemma parseInt_rounds :
  parseInt "9007199254740993" = Some (Finite 9007199254740992) ∧
  parseInt "9007199254740995" = Some (Finite 9007199254740996) ∧
  parseInt "-18014398509481985" = Some (Finite (-18014398509481984)) ∧
  to_double (2 ^ 1024 - 2 ^ 970 - 1) = Finite (2 ^ 1024 - 2 ^ 971) ∧
  to_double (2 ^ 1024 - 2 ^ 970) = PlusInfinity.
Proof. repeat split; vm_compute; reflexivity. Qed.
End ParseInt.

Section PopupQuery.
Import JS Recorder.

Lemma toString_not_empty (n : Z) : toString n ≠ "".
Proof.
  intros Hempty. pose proof (parseInt_toString n) as Hparse.
  rewrite Hempty in Hparse. discriminate Hparse.
Qed.

End PopupQuery.

Section GetParams.
Import JS Recorder.

Lemma truthy_str_Some (o : option string) :
  truthy_str o = true ↔ ∃ m, o = Some m ∧ m ≠ "".
Proof.
  destruct o as [m |]; cbn.
  - rewrite negb_true_iff, String.eqb_neq. split.
    + intros Hne. by exists m.
    + by intros (m' & [= <-] & Hne).
  - split; [done | by intros (m & Hm & _)].
Qed.

Lemma truthy_num_Some (o : option double) :
  truthy_num o = true ↔ ∃ t, o = Some t ∧ t ≠ Finite 0.
Proof.
  destruct o as [[z | |] |]; cbn.
  - rewrite negb_true_iff, Z.eqb_neq. split.
    + intros Hne. exists (Finite z). split; [done | congruence].
    + intros (t' & [= <-] & Hne). congruence.
  - split; [by exists PlusInfinity | done].
  - split; [by exists MinusInfinity | done].
  - split; [done | by intros (t & Ht & _)].
Qed.

Lemma getParams_Some search p :
  getParams search = Some p ↔
    (get search "mode" = Some (mode p) ∧ mode p ≠ "") ∧
    deviceId p = or_str (get search "deviceId") "" ∧
    (parseInt (or_str (get search "tabId") "0") = Some (tabId p) ∧
     tabId p ≠ Finite 0).
Proof.
  unfold getParams.
  destruct (truthy_str (get search "mode")) eqn:Hm;
    destruct (truthy_num (parseInt (or_str (get search "tabId") "0"))) eqn:Ht;
    cbn [negb orb].
  - apply truthy_str_Some in Hm as (m & -> & Hm).
    apply truthy_num_Some in Ht as (t & -> & Ht). cbn [default].
    destruct p as [pm pd pt]; cbn. split.
    + intros [= <- <- <-]. done.
    + intros [[[= ->] _] [-> [[= ->] _]]]. done.
  - split; [done |]. intros (_ & _ & Hp & Hne).
    assert (truthy_num (parseInt (or_str (get search "tabId") "0")) = true)
      by (apply truthy_num_Some; eauto).
    congruence.
  - split; [done |]. intros ((Hp & Hne) & _).
    assert (truthy_str (get search "mode") = true)
      by (apply truthy_str_Some; eauto).
    congruence.
  - split; [done |]. intros ((Hp & Hne) & _).
    assert (truthy_str (get search "mode") = true)
      by (apply truthy_str_Some; eauto).
    congruence.
Qed.

(** The query string the popup builds, with [tab.id.toString()] as
    [tabId], is read back as the parameters it was built from. *)
Lemma getParams_of_popup_query (m d : string) (t : Z) :
  m ≠ "" → t ≠ 0 →
  getParams [("mode", m); ("deviceId", d); ("tabId", toString t)]
  = Some {| mode := m; deviceId := d; tabId := to_double t |}.
Proof.
  intros Hm Ht. apply getParams_Some.
  cbn [mode deviceId tabId get String.eqb Ascii.eqb Bool.eqb].
  assert (or_str (Some (toString t)) "0" = toString t) as ->.
  { cbn. destruct (String.eqb_spec (toString t) ""); [| done].
    by destruct (toString_not_empty t). }
  rewrite parseInt_toString. repeat split; try done.
  - cbn. by destruct (String.eqb_spec d "").
  - by rewrite to_double_zero.
Qed.

End GetParams.

(** C4, as the code has it. A session is created if and only if the query
    string has a non-empty [mode] and a [tabId] that reads as an integer
    other than 0, whatever the mode; [deviceId] is never required, a missing
    one is the empty string.  The parameters of the session are the mode,
    the device id or the empty string, and the number [parseInt] returns for
    the tab id.  Rejected parameters only set the error message: nothing is
    requested from the browser. *)
Theorem getParams_requires_mode_and_tabId :
  ∀ (search : JS.URLSearchParams),
    (is_Some (Recorder.getParams search) ↔
       (∃ m, JS.get search "mode" = Some m ∧ m ≠ "") ∧
       (∃ n, JS.mathInt (JS.or_str (JS.get search "tabId") "0") = Some n ∧ n ≠ 0)) ∧
    (∀ p, Recorder.getParams search = Some p →
       JS.get search "mode" = Some (Recorder.mode p) ∧
       Recorder.deviceId p = JS.or_str (JS.get search "deviceId") "" ∧
       JS.parseInt (JS.or_str (JS.get search "tabId") "0") = Some (Recorder.tabId p) ∧
       ∃ n, JS.mathInt (JS.or_str (JS.get search "tabId") "0") = Some n ∧
            Recorder.tabId p = JS.to_double n) ∧
    (Recorder.getParams search = None →
     ∀ c P now w,
       Recorder.mount c P now search w = Recorder.setError "Invalid parameters" w ∧
       Recorder.browser (Recorder.mount c P now search w) = Recorder.browser w ∧
       Recorder.refs (Recorder.mount c P now search w) = Recorder.refs w).
Proof.
  intros search. split; [| split].
  - split.
    + intros [p Hp]. apply getParams_Some in Hp as ((Hm & Hne) & _ & Ht).
      apply parseInt_nonzero in Ht as (n & Hn & Hne' & _).
      split; eauto.
    + intros [(m & Hm & Hne) (n & Hn & Hne')].
      exists {| Recorder.mode := m;
                Recorder.deviceId := JS.or_str (JS.get search "deviceId") "";
                Recorder.tabId := JS.to_double n |}.
      apply getParams_Some. split; [done |]. split; [done |].
      apply parseInt_nonzero. eauto.
  - intros p Hp. apply getParams_Some in Hp as ((Hm & _) & Hd & Ht).
    split; [done |]. split; [done |]. split; [apply Ht |].
    apply parseInt_nonzero in Ht as (n & Hn & _ & Hp). eauto.
  - intros Hnone c P now w. unfold Recorder.mount. rewrite Hnone. done.
Qed.

Lemma getParams_requires_mode_and_tabId_witness :
  Recorder.mount Recorder.Plain
    {| Recorder.getMediaStreamId := λ _, JS.Rejected "unused";
       Recorder.getUserMedia := λ _, JS.Rejected "unused";
       Recorder.getByteFrequencyData := [] |}
    0 [("mode", "mic"); ("deviceId", "default")]
    (Recorder.initial Samples.sample_database)
  = Recorder.setError "Invalid parameters" (Recorder.initial Samples.sample_database).
Proof.
  destruct (getParams_requires_mode_and_tabId
              [("mode", "mic"); ("deviceId", "default")]) as (_ & _ & Hreject).
  apply (Hreject eq_refl).
Defined.

(** C4, as stated: mode=both without a [deviceId] lacks a field its mode
    requires, and yet the session is created. *)
Lemma getParams_accepts_both_without_deviceId :
  ¬ (is_Some (Recorder.getParams [("mode", "both"); ("tabId", "7")]) ↔
     Recorder.required_fields_present [("mode", "both"); ("tabId", "7")]).
Proof.
  intros [Hcreated _].
  destruct Hcreated as (m & Hm & _ & _ & Hmic); [by eexists |].
  injection Hm as <-.
  destruct Hmic as (d & Hd & _); [by right | discriminate].
Qed.

(** ** The level bars *)

Section Levels.
Import JS Recorder.

Lemma readFrequencyData_length data :
  length (readFrequencyData data) = frequencyBinCount.
Proof.
  unfold readFrequencyData.
  rewrite length_app, length_fmap, length_take, length_replicate. lia.
Qed.

Lemma readFrequencyData_bytes data : Forall is_byte (readFrequencyData data).
Proof.
  unfold readFrequencyData. apply Forall_app. split.
  - apply Forall_fmap, Forall_forall. intros b _. unfold is_byte. cbn.
    pose proof (Byte.to_N_bounded b). lia.
  - apply Forall_replicate. unfold is_byte. lia.
Qed.

Lemma readFrequencyData_replicate n b :
  readFrequencyData (replicate n b)
  = (replicate (n `min` frequencyBinCount) (Z.of_N (Byte.to_N b))
       ++ replicate (frequencyBinCount - n) 0)%list.
Proof.
  unfold readFrequencyData.
  rewrite take_replicate, fmap_replicate, length_replicate.
  by rewrite Nat.min_comm.
Qed.

Lemma sum_from_bounds dataArray :
  Forall is_byte dataArray →
  ∀ count j acc,
    (j + count ≤ length dataArray)%nat →
    ∃ s, sum_from dataArray j count (Some acc) = Some s ∧
         acc ≤ s ≤ acc + 255 * Z.of_nat count.
Proof.
  intros Hbytes. induction count as [| count IH]; intros j acc Hlen.
  - exists acc. split; [done | lia].
  - destruct (lookup_lt_is_Some_2 dataArray j) as [x Hx]; [lia |].
    pose proof (Forall_lookup_1 _ _ _ _ Hbytes Hx) as Hbyte.
    cbn [sum_from]. rewrite Hx.
    destruct (IH (S j) (acc + x)) as (s & Hs & Hbound); [lia |].
    exists s. split; [done |]. unfold is_byte in Hbyte. lia.
Qed.

Lemma sum_from_replicate n v :
  ∀ count j acc,
    (j + count ≤ n)%nat →
    sum_from (replicate n v) j count (Some acc)
    = Some (acc + v * Z.of_nat count).
Proof.
  induction count as [| count IH]; intros j acc Hlen.
  - cbn. f_equal. lia.
  - cbn [sum_from]. rewrite lookup_replicate_2 by lia.
    rewrite IH by lia. f_equal. lia.
Qed.

Lemma min1_le_1 x : (min1 x ≤ 1)%Qc.
Proof.
  unfold min1. case_decide as H; [done |].
  by apply Qclt_le_weak, Qcnot_le_lt.
Qed.

Lemma min1_nonneg x : (0 ≤ x)%Qc → (0 ≤ min1 x)%Qc.
Proof. unfold min1. by case_decide. Qed.

Lemma min1_0 : min1 0%Qc = 0%Qc.
Proof. unfold min1. case_decide as H; [| done]. vm_compute in H. by destruct H. Qed.

Lemma min1_saturates x : (1 ≤ x)%Qc → min1 x = 1%Qc.
Proof. unfold min1. by case_decide. Qed.

Lemma Qc_of_Z_pos z : 0 < z → (0 < Qc_of_Z z)%Qc.
Proof. intros H. rewrite <- Z2Qc_inj_0. exact (proj1 (Z2Qc_inj_lt 0 z) H). Qed.

Lemma Qc_of_Z_nonneg z : 0 ≤ z → (0 ≤ Qc_of_Z z)%Qc.
Proof. intros H. rewrite <- Z2Qc_inj_0. exact (proj1 (Z2Qc_inj_le 0 z) H). Qed.

Lemma Qcdiv_nonneg x y : (0 ≤ x)%Qc → (0 < y)%Qc → (0 ≤ x / y)%Qc.
Proof.
  intros Hx Hy. unfold Qcdiv.
  apply Qcmult_nonneg_nonneg; [done |]. by apply Qclt_le_weak, Qcinv_pos.
Qed.

Lemma level_in_unit_range dataArray step i :
  Forall is_byte dataArray →
  (0 < step)%nat →
  (i * step + step ≤ length dataArray)%nat →
  in_unit_range (level dataArray step i).
Proof.
  intros Hbytes Hstep Hlen. unfold level.
  destruct (sum_from_bounds dataArray Hbytes step (i * step)%nat 0 Hlen)
    as (s & -> & Hs).
  destruct (Nat.eqb_spec step 0) as [-> | _]; [lia |].
  eexists. split; [reflexivity |]. split; [| apply min1_le_1].
  apply min1_nonneg, Qcdiv_nonneg; [| by apply Qc_of_Z_pos].
  apply Qcdiv_nonneg; [apply Qc_of_Z_nonneg | apply Qc_of_Z_pos]; lia.
Qed.

Lemma bars_fit (n i : nat) :
  (i < NUM_BARS)%nat → (i * (n / NUM_BARS) + n / NUM_BARS ≤ n)%nat.
Proof.
  intros Hi. pose proof (Nat.Div0.mul_div_le n NUM_BARS) as Hle.
  unfold NUM_BARS in *. nia.
Qed.

Lemma computeLevels_length dataArray : length (computeLevels dataArray) = NUM_BARS.
Proof. unfold computeLevels. by rewrite length_fmap, length_seq. Qed.

Lemma computeLevels_in_unit_range dataArray :
  Forall is_byte dataArray →
  (NUM_BARS ≤ length dataArray)%nat →
  Forall in_unit_range (computeLevels dataArray).
Proof.
  intros Hbytes Hlen. unfold computeLevels.
  apply Forall_fmap, Forall_seq. intros i Hi. unfold compose.
  apply level_in_unit_range; [done | | apply bars_fit; lia].
  apply Nat.div_str_pos. unfold NUM_BARS in *. lia.
Qed.

(** Fewer bins than bars: the step is 0 and every level is [NaN]. *)
Example computeLevels_short_array :
  computeLevels [0; 0; 0; 0] = replicate NUM_BARS None.
Proof. reflexivity. Qed.

Lemma fmap_seq_const {A} (f : nat → A) (c : A) n :
  ∀ j, (∀ i, (j ≤ i < j + n)%nat → f i = c) → f <$> seq j n = replicate n c.
Proof.
  induction n as [| n IH]; intros j Hf; [done |].
  cbn. rewrite Hf by lia. f_equal. apply IH. intros i Hi. apply Hf. lia.
Qed.

Lemma level_replicate n v step i :
  (0 < step)%nat →
  (i * step + step ≤ n)%nat →
  level (replicate n v) step i
  = Some (min1 (Qc_of_Z v / Qc_of_Z 180)%Qc).
Proof.
  intros Hstep Hlen. unfold level.
  rewrite sum_from_replicate by done.
  destruct (Nat.eqb_spec step 0) as [-> | _]; [lia |].
  rewrite Z.add_0_l, Z2Qc_inj_mul, Qcdiv_mult_l; [done |].
  intros H0. rewrite <- Z2Qc_inj_0 in H0. apply Z2Qc_inj in H0. lia.
Qed.

Lemma computeLevels_replicate n v :
  (NUM_BARS ≤ n)%nat →
  computeLevels (replicate n v)
  = replicate NUM_BARS (Some (min1 (Qc_of_Z v / Qc_of_Z 180)%Qc)).
Proof.
  intros Hn. unfold computeLevels. rewrite length_replicate.
  apply fmap_seq_const. intros i Hi.
  apply level_replicate; [| apply bars_fit; lia].
  apply Nat.div_str_pos. unfold NUM_BARS in *. lia.
Qed.

Lemma level_of_silence : min1 (Qc_of_Z 0 / Qc_of_Z 180)%Qc = 0%Qc.
Proof.
  rewrite Z2Qc_inj_0. unfold Qcdiv. rewrite Qcmult_0_l. apply min1_0.
Qed.

Lemma level_of_maximum : min1 (Qc_of_Z 255 / Qc_of_Z 180)%Qc = 1%Qc.
Proof. apply min1_saturates. vm_compute. discriminate. Qed.

End Levels.

(** C6. Whatever bytes the analyser holds, the level vector computed from
    them has exactly [NUM_BARS] = 5 entries, each a number between 0 and 1;
    silence (all bytes 0) gives five zeros and a full snapshot of bytes 255
    gives five ones; and this vector is what [updateAudioLevels] publishes. *)
Theorem audio_levels_fixed_length_unit_range :
  ∀ (data : list Byte.byte),
    let levels := Recorder.computeLevels (Recorder.readFrequencyData data) in
    length levels = 5%nat ∧
    Forall Recorder.in_unit_range levels ∧
    (Forall (λ b, b = Byte.x00) data →
       levels = replicate 5 (Some 0%Qc)) ∧
    ((Recorder.frequencyBinCount ≤ length data)%nat →
     Forall (λ b, b = Byte.xff) data →
       levels = replicate 5 (Some 1%Qc)) ∧
    (∀ w a,
       Recorder.analyserRef (Recorder.refs w) = Some a →
       Recorder.audioLevels (Recorder.ui (Recorder.updateAudioLevels data w))
       = levels).
Proof.
  intros data levels. subst levels.
  split; [| split; [| split; [| split]]].
  - apply computeLevels_length.
  - apply computeLevels_in_unit_range; [apply readFrequencyData_bytes |].
    rewrite readFrequencyData_length. vm_compute. lia.
  - intros Hzero.
    assert (data = replicate (length data) Byte.x00) as ->.
    { symmetry. apply replicate_as_Forall. split; [done |].
      eapply Forall_impl; [exact Hzero | by intros b ->]. }
    rewrite readFrequencyData_replicate.
    change (Z.of_N (Byte.to_N Byte.x00)) with 0.
    rewrite <- replicate_add.
    rewrite computeLevels_replicate, level_of_silence; [done |].
    unfold Recorder.NUM_BARS, Recorder.frequencyBinCount, Recorder.fftSize.
    cbn. lia.
  - intros Hlen Hmax.
    assert (data = replicate (length data) Byte.xff) as ->.
    { symmetry. apply replicate_as_Forall. split; [done |].
      eapply Forall_impl; [exact Hmax | by intros b ->]. }
    rewrite readFrequencyData_replicate.
    change (Z.of_N (Byte.to_N Byte.xff)) with 255.
    rewrite Nat.min_r by done.
    replace (Recorder.frequencyBinCount - length data)%nat with 0%nat by lia.
    rewrite app_nil_r.
    rewrite computeLevels_replicate, level_of_maximum; [done |]. vm_compute. lia.
  - intros w a Ha. unfold Recorder.updateAudioLevels. rewrite Ha. reflexivity.
Qed.

Lemma audio_levels_fixed_length_unit_range_witness :
  Recorder.computeLevels
    (Recorder.readFrequencyData (replicate 128 Byte.xff))
  = replicate 5 (Some 1%Qc) ∧
  Recorder.computeLevels (Recorder.readFrequencyData [Byte.x00; Byte.x00])
  = replicate 5 (Some 0%Qc).
Proof.
  split.
  - apply (audio_levels_fixed_length_unit_range (replicate 128 Byte.xff)).
    + vm_compute. lia.
    + by apply Forall_replicate.
  - apply (audio_levels_fixed_length_unit_range [Byte.x00; Byte.x00]).
    by repeat constructor.
Defined.

(** ** Starting a session *)

(** Unfolds a start down to the browser's answers. *)
Ltac start_unfold :=
  unfold Recorder.startRecording, Recorder.startRecording_try, Recorder.acquire,
    Recorder.setupAnalyser, mbind, Recorder.M_bind, mret, Recorder.M_ret,
    Recorder.exec, Recorder.await, Recorder.request.

(** Checks a property of the form "closed under the connections" on a
    graph whose connections are listed. *)
Ltac edges :=
  let x := fresh "x" in let y := fresh "y" in
  let Hin := fresh "Hin" in let Hoff := fresh "Hoff" in
  intros x y Hin Hoff;
  repeat (apply elem_of_cons in Hin as [[= -> ->] | Hin]);
  [.. | by apply elem_of_nil in Hin];
  first [ done | by destruct Hoff as (? & ? & ?) ].

Section RecorderFacts.
Import JS Recorder.

Lemma stopAll_empty w : stopAll ∅ w = w.
Proof.
  destruct w as [u r b]. destruct b. unfold stopAll, on_browser. cbn.
  by rewrite (right_id_L ∅ (∪)).
Qed.

Lemma stopAll_stopTrack t S w : stopAll S (stopTrack t w) = stopAll ({[t]} ∪ S) w.
Proof.
  destruct w as [u r b]. destruct b. unfold stopAll, stopTrack, on_browser. cbn.
  by rewrite (assoc_L (∪)).
Qed.

Lemma stopTracks_stopAll tracks w :
  stopTracks tracks w = stopAll (list_to_set tracks) w.
Proof.
  unfold stopTracks. revert w.
  induction tracks as [| t tracks IH]; intros w; cbn.
  - by rewrite stopAll_empty.
  - by rewrite IH, stopAll_stopTrack.
Qed.

Lemma truthy_deviceId d : d ≠ "" → truthy_str (Some d) = true.
Proof. intros H. cbn. by apply negb_true_iff, String.eqb_neq. Qed.

Lemma startRecording_mic_rejected c P now params w sid tabStream e :
  mode params = "both" →
  deviceId params ≠ "" →
  getMediaStreamId P (tabId params) = Resolved sid →
  getUserMedia P (TabCapture sid) = Resolved tabStream →
  getUserMedia P (Microphone (deviceId params)) = Rejected e →
  startRecording c P now params w
  = setStatus stopped
      (setError e
         (logRequest (Microphone (deviceId params))
            (stopTracks (getVideoTracks tabStream)
               (logRequest (TabCapture sid) w)))).
Proof.
  intros Hmode Hdev Hsid Htab Hmic. start_unfold.
  rewrite Hmode, Hsid, Htab, (truthy_deviceId _ Hdev). cbn [String.eqb Ascii.eqb Bool.eqb orb andb].
  rewrite Hmic. reflexivity.
Qed.

Lemma stopAll_stopped S w :
  stoppedTracks (browser (stopAll S w)) = stoppedTracks (browser w) ∪ S.
Proof. reflexivity. Qed.

(** Starting in tab mode and starting in both mode without a device id
    run the same statements. *)
Lemma startRecording_both_without_device c P now t w :
  startRecording c P now {| mode := "both"; deviceId := ""; tabId := t |} w
  = startRecording c P now {| mode := "tab"; deviceId := ""; tabId := t |} w.
Proof. reflexivity. Qed.

Lemma filter_microphone_app l r :
  filter (λ r, is_microphone r = true) (l ++ [r])%list
  = (filter (λ r, is_microphone r = true) l
      ++ if is_microphone r then [r] else [])%list.
Proof.
  rewrite filter_app. f_equal. cbn. unfold filter, list_filter.
  destruct r; cbn; by case_decide.
Qed.

Lemma startRecording_tab c P now t w :
  tab_start c P t w
    (startRecording c P now {| mode := "tab"; deviceId := ""; tabId := t |} w).
Proof.
  start_unfold. cbn [mode deviceId tabId String.eqb Ascii.eqb Bool.eqb orb andb truthy_str negb].
  destruct (getMediaStreamId P t) as [sid | e] eqn:Hsid.
  - destruct (getUserMedia P (TabCapture sid)) as [tabStream | e] eqn:Htab.
    + rewrite stopTracks_stopAll.
      destruct c; cbn; eapply tab_start_recording; done.
    + by eapply tab_start_no_stream.
  - by eapply tab_start_no_id.
Qed.

Lemma connected_closed ctx (S : AudioNode → Prop) a b :
  connected ctx a b →
  (∀ x y, (x, y) ∈ connections ctx → S x → S y) →
  S a → S b.
Proof.
  intros Hpath Hclosed. induction Hpath as [a b Hab | a b c Hab _ IH]; intros Ha.
  - by eapply Hclosed.
  - apply IH. by eapply Hclosed.
Qed.

Lemma no_path_to_speakers ctx n :
  (∀ x y, (x, y) ∈ connections ctx → off_monitor x → off_monitor y) →
  off_monitor n →
  ¬ connected ctx n speakers.
Proof.
  intros Hclosed Hn Hpath.
  destruct (connected_closed ctx off_monitor n speakers Hpath Hclosed Hn)
    as (_ & _ & Hne).
  by apply Hne.
Qed.




End RecorderFacts.



(** C7. A query string with mode both and an empty or missing [deviceId]
    (and a [tabId] that reads as a number other than 0) is accepted, and
    mounting on it requests no microphone.  What becomes of the start is
    decided by the tab capture alone, as in tab mode.  When the browser
    gives the stream id and the tab stream, the session records: the tab
    stream is the encoder's input, it is held in [streamRef] and it is the
    only stream source of the audio graph, connected to the speakers (in
    the component with the level bars also to the analyser), and the tab
    capture is the only request made.  The start fails only when the stream
    id or the tab stream is refused, with that rejection as the error.  The
    mount is, in every case, the start in tab mode. *)
Theorem both_without_deviceId_is_tab_only :
  ∀ (c : Recorder.Component) (P : Recorder.Platform) (now : Z)
    (search : JS.URLSearchParams) (w : Recorder.World) (t : JS.double),
    JS.get search "mode" = Some "both" →
    (JS.get search "deviceId" = None ∨ JS.get search "deviceId" = Some "") →
    JS.parseInt (JS.or_str (JS.get search "tabId") "0") = Some t →
    t ≠ JS.Finite 0 →
    let w' := Recorder.mount c P now search w in
    Recorder.getParams search
    = Some {| Recorder.mode := "both"; Recorder.deviceId := "";
              Recorder.tabId := t |} ∧
    Recorder.microphone_requests w' = Recorder.microphone_requests w ∧
    (∀ sid tabStream,
       Recorder.getMediaStreamId P t = JS.Resolved sid →
       Recorder.getUserMedia P (Recorder.TabCapture sid) = JS.Resolved tabStream →
       Recorder.status (Recorder.ui w') = Recorder.recording ∧
       Recorder.error (Recorder.ui w') = Recorder.error (Recorder.ui w) ∧
       Recorder.mediaRequests (Recorder.browser w')
       = (Recorder.mediaRequests (Recorder.browser w)
            ++ [Recorder.TabCapture sid])%list ∧
       Recorder.mediaRecorderRef (Recorder.refs w')
       = Some {| Recorder.stream := Recorder.OfStream tabStream;
                 Recorder.state := Recorder.Recording;
                 Recorder.timeslice := 1000 |} ∧
       Recorder.streamRef (Recorder.refs w') = Some tabStream ∧
       Recorder.micStream (Recorder.refs w') = Recorder.micStream (Recorder.refs w) ∧
       ∃ ctx,
         Recorder.audioContextRef (Recorder.refs w') = Some ctx ∧
         Recorder.streamSources ctx = [(Recorder.source, tabStream)] ∧
         Recorder.connections ctx
         = match c with
           | Recorder.Plain => [(Recorder.source, Recorder.speakers)]
           | Recorder.WithLevels =>
               [(Recorder.source, Recorder.speakers);
                (Recorder.source, Recorder.analyser)]
           end ∧
         Recorder.connected ctx Recorder.source Recorder.speakers ∧
         ¬ Recorder.connected ctx Recorder.micSource Recorder.speakers) ∧
    (∀ e,
       Recorder.getMediaStreamId P t = JS.Rejected e →
       w' = Recorder.setStatus Recorder.stopped (Recorder.setError e w)) ∧
    (∀ sid e,
       Recorder.getMediaStreamId P t = JS.Resolved sid →
       Recorder.getUserMedia P (Recorder.TabCapture sid) = JS.Rejected e →
       w' = Recorder.setStatus Recorder.stopped
              (Recorder.setError e
                 (Recorder.logRequest (Recorder.TabCapture sid) w))) ∧
    w' = Recorder.startRecording c P now
           {| Recorder.mode := "tab"; Recorder.deviceId := "";
              Recorder.tabId := t |} w.
Proof.
  intros c P now search w t Hmode Hdev Ht Hne w'.
  assert (Recorder.getParams search
          = Some {| Recorder.mode := "both"; Recorder.deviceId := "";
                    Recorder.tabId := t |}) as Hparams.
  { apply getParams_Some. cbn. rewrite Hmode, Ht.
    destruct Hdev as [Hd | Hd]; by rewrite Hd. }
  assert (w' = Recorder.startRecording c P now
                 {| Recorder.mode := "tab"; Recorder.deviceId := "";
                    Recorder.tabId := t |} w) as Hsame.
  { subst w'. unfold Recorder.mount. rewrite Hparams.
    apply startRecording_both_without_device. }
  split; [done |]. clearbody w'. subst w'.
  destruct (startRecording_tab c P now t w)
    as [e Hid -> | sid e Hid Htab ->
        | sid tabStream ctx Hid Htab Hrec Herr Hreq Hmr Hstream Hmic Hctx Hsrc Hconn].
  - split; [done |]. split; [intros sid tabStream; congruence |].
    split; [intros e' He'; congruence |]. split; [| done].
    intros sid e'. congruence.
  - split.
    { unfold Recorder.microphone_requests. cbn.
      by rewrite filter_microphone_app, app_nil_r. }
    split; [intros sid' tabStream; congruence |].
    split; [intros e'; congruence |]. split; [| done].
    intros sid' e' Hid' Htab'. congruence.
  - split.
    { unfold Recorder.microphone_requests.
      by rewrite Hreq, filter_microphone_app, app_nil_r. }
    split; [| split; [intros e'; congruence |]; split; [| done];
              intros sid' e' Hid' Htab'; congruence].
    intros sid' tabStream' Hid' Htab'.
    assert (sid' = sid) as -> by congruence.
    assert (tabStream' = tabStream) as -> by congruence.
    repeat (split; [done |]). exists ctx.
    repeat (split; [done |]). split.
    + apply Recorder.connected_edge. rewrite Hconn. destruct c; set_solver.
    + apply no_path_to_speakers; [| by unfold Recorder.off_monitor].
      rewrite Hconn. unfold Recorder.off_monitor. destruct c; edges.
Qed.

Lemma both_without_deviceId_is_tab_only_witness :
  let w' := Recorder.mount Recorder.WithLevels Samples.granting 0
              [("mode", "both"); ("deviceId", ""); ("tabId", "7")]
              (Recorder.initial Samples.empty_database) in
  Recorder.status (Recorder.ui w') = Recorder.recording ∧
  Recorder.mediaRecorderRef (Recorder.refs w')
  = Some {| Recorder.stream := Recorder.OfStream Samples.tab_stream;
            Recorder.state := Recorder.Recording;
            Recorder.timeslice := 1000 |} ∧
  Recorder.streamRef (Recorder.refs w') = Some Samples.tab_stream ∧
  Recorder.mediaRequests (Recorder.browser w') = [Recorder.TabCapture "stream-id"] ∧
  Recorder.microphone_requests w' = [].
Proof.
  destruct (both_without_deviceId_is_tab_only Recorder.WithLevels Samples.granting 0
              [("mode", "both"); ("deviceId", ""); ("tabId", "7")]
              (Recorder.initial Samples.empty_database) (JS.Finite 7)
              eq_refl (or_intror eq_refl) eq_refl ltac:(discriminate))
    as (_ & Hmic & Hgranted & _).
  destruct (Hgranted "stream-id" Samples.tab_stream eq_refl eq_refl)
    as (Hstatus & _ & Hreq & Hmr & Hstream & _).
  split; [exact Hstatus |]. split; [exact Hmr |]. split; [exact Hstream |].
  split; [exact Hreq | exact Hmic].
Defined.

(** C3, on the starts where it fails. When the microphone request of a
    mode both start rejects after the tab stream was opened, the session
    ends stopped with the rejection as its error; the tracks stopped in the
    attempt are the tab stream's video tracks, stopped right after the
    capture; the failure handler stops nothing, so an audio track of the tab
    stream that was live stays live, and the refs hold no stream a later
    stop could reach: the opened tab stream is left running. *)
Theorem microphone_failure_stops_only_video_tracks :
  ∀ (c : Recorder.Component) (P : Recorder.Platform) (now : Z)
    (params : Recorder.RecorderParams) (w : Recorder.World)
    (sid : string) (tabStream : Recorder.MediaStream) (e : string),
    Recorder.mode params = "both" →
    Recorder.deviceId params ≠ "" →
    Recorder.getMediaStreamId P (Recorder.tabId params) = JS.Resolved sid →
    Recorder.getUserMedia P (Recorder.TabCapture sid) = JS.Resolved tabStream →
    Recorder.getUserMedia P (Recorder.Microphone (Recorder.deviceId params))
    = JS.Rejected e →
    let w' := Recorder.startRecording c P now params w in
    Recorder.status (Recorder.ui w') = Recorder.stopped ∧
    Recorder.error (Recorder.ui w') = Some e ∧
    Recorder.stoppedTracks (Recorder.browser w')
    = Recorder.stoppedTracks (Recorder.browser w)
        ∪ list_to_set (Recorder.videoTracks tabStream) ∧
    Recorder.refs w' = Recorder.refs w ∧
    (∀ t, t ∈ Recorder.audioTracks tabStream →
          t ∉ Recorder.videoTracks tabStream →
          t ∉ Recorder.stoppedTracks (Recorder.browser w) →
          t ∉ Recorder.stoppedTracks (Recorder.browser w')).
Proof.
  intros c P now params w sid tabStream e Hmode Hdev Hsid Htab Hmic w'.
  subst w'.
  rewrite (startRecording_mic_rejected c P now params w sid tabStream e) by done.
  rewrite stopTracks_stopAll. cbn.
  repeat (split; [done |]).
  intros t _ Hvideo Hlive. set_solver.
Qed.

Lemma microphone_failure_stops_only_video_tracks_witness :
  let w' := Recorder.startRecording Recorder.Plain Samples.without_microphone 0
              Samples.both_params (Recorder.initial Samples.empty_database) in
  Recorder.status (Recorder.ui w') = Recorder.stopped ∧
  Recorder.error (Recorder.ui w') = Some "Requested device not found" ∧
  1%nat ∉ Recorder.stoppedTracks (Recorder.browser w').
Proof.
  destruct (microphone_failure_stops_only_video_tracks Recorder.Plain
              Samples.without_microphone 0 Samples.both_params
              (Recorder.initial Samples.empty_database)
              "stream-id" Samples.tab_stream "Requested device not found"
              eq_refl ltac:(discriminate) eq_refl eq_refl eq_refl)
    as (Hstatus & Herror & _ & _ & Hlive).
  split; [exact Hstatus |]. split; [exact Herror |].
  apply Hlive; cbn; set_solver.
Defined.

(** C3, at one such start: the microphone is refused after the tab was
    captured, the session is stopped with an error, and the tab stream's
    audio track has not been stopped. *)
Lemma microphone_failure_leaves_tab_audio_running :
  let w' := Recorder.session Recorder.Plain Samples.without_microphone 0
              Samples.both_query Samples.empty_database [] in
  Recorder.status (Recorder.ui w') = Recorder.stopped ∧
  Recorder.error (Recorder.ui w') = Some "Requested device not found" ∧
  ¬ Recorder.all_stopped Samples.tab_stream w'.
Proof.
  split; [reflexivity |]. split; [reflexivity |].
  intros Hall. specialize (Hall 1%nat). cbn in Hall. set_solver.
Qed.

(** ** Stopping a session *)

Section StopFacts.
Import JS Recorder.

Lemma keeps_compose f g : keeps f → keeps g → keeps (λ w, g (f w)).
Proof.
  intros Hf Hg w.
  destruct (Hf w) as (? & ? & ? & ? & ? & ? & ? & ? & ?).
  destruct (Hg (f w)) as (? & ? & ? & ? & ? & ? & ? & ? & ?).
  repeat split; congruence.
Qed.

Lemma keeps_stopAnimation : keeps stopAnimation.
Proof.
  intros [u r b]. unfold stopAnimation.
  destruct (truthy_handle (animationRef (refs _))); done.
Qed.

Lemma keeps_stopEncoder : keeps stopEncoder.
Proof.
  intros [u r b]. unfold stopEncoder.
  destruct (mediaRecorderRef (refs _)) as [[s [] ts] |]; done.
Qed.

Lemma stopStreams_stopAll w :
  stopStreams w = stopAll (held_tracks (streamRef (refs w)) (micStream (refs w))) w.
Proof.
  unfold stopStreams, held_tracks.
  destruct (streamRef (refs w)) as [s |] eqn:Hs; [| by rewrite stopAll_empty].
  rewrite !stopTracks_stopAll. cbn.
  destruct (micStream (refs w)) as [m |] eqn:Hm.
  - rewrite stopTracks_stopAll. destruct w as [u r [? ? ? ? ? ? ? ? ? ?]].
    unfold stopAll, on_browser. cbn. by rewrite (assoc_L (∪)).
  - by rewrite (right_id_L ∅ (∪)).
Qed.

Lemma keeps_stopStreams : keeps stopStreams.
Proof. intros w. by rewrite stopStreams_stopAll. Qed.

Lemma keeps_releaseContext : keeps releaseContext.
Proof.
  intros [u r b]. unfold releaseContext.
  destruct (audioContextRef (refs _)); done.
Qed.

Lemma keeps_setTimeout : keeps setTimeout.
Proof. by intros [u r b]. Qed.

Lemma keeps_stopRecording c : keeps (stopRecording c).
Proof.
  unfold stopRecording.
  apply (keeps_compose (λ w, releaseContext (stopStreams (stopEncoder
           match c with Plain => w | WithLevels => stopAnimation w end)))
           setTimeout); [| apply keeps_setTimeout].
  apply (keeps_compose (λ w, stopStreams (stopEncoder
           match c with Plain => w | WithLevels => stopAnimation w end))
           releaseContext); [| apply keeps_releaseContext].
  apply (keeps_compose (λ w, stopEncoder
           match c with Plain => w | WithLevels => stopAnimation w end)
           stopStreams); [| apply keeps_stopStreams].
  apply (keeps_compose (λ w,
           match c with Plain => w | WithLevels => stopAnimation w end)
           stopEncoder); [| apply keeps_stopEncoder].
  destruct c; [done | apply keeps_stopAnimation].
Qed.



(** The teardown fields: encoder, context, tracks and timeouts. *)
Lemma stopAnimation_teardown w :
  mediaRecorderRef (refs (stopAnimation w)) = mediaRecorderRef (refs w) ∧
  encoderStops (browser (stopAnimation w)) = encoderStops (browser w) ∧
  audioContextRef (refs (stopAnimation w)) = audioContextRef (refs w) ∧
  closedContexts (browser (stopAnimation w)) = closedContexts (browser w) ∧
  stoppedTracks (browser (stopAnimation w)) = stoppedTracks (browser w) ∧
  timeouts (browser (stopAnimation w)) = timeouts (browser w).
Proof.
  destruct w as [u r b]. unfold stopAnimation.
  destruct (truthy_handle (animationRef (refs _))); done.
Qed.

Lemma stopEncoder_teardown w :
  mediaRecorderRef (refs (stopEncoder w))
  = stopped_encoder <$> mediaRecorderRef (refs w) ∧
  encoderStops (browser (stopEncoder w))
  = (encoderStops (browser w) + encoder_stops (mediaRecorderRef (refs w)))%nat ∧
  audioContextRef (refs (stopEncoder w)) = audioContextRef (refs w) ∧
  closedContexts (browser (stopEncoder w)) = closedContexts (browser w) ∧
  stoppedTracks (browser (stopEncoder w)) = stoppedTracks (browser w) ∧
  timeouts (browser (stopEncoder w)) = timeouts (browser w).
Proof.
  destruct w as [u r b]. unfold stopEncoder, encoder_stops.
  destruct r as [[[s [] ts] |] ? ? ? ? ? ? ?]; cbn;
    rewrite ?Nat.add_0_r, ?Nat.add_1_r; done.
Qed.

Lemma stopStreams_teardown w :
  mediaRecorderRef (refs (stopStreams w)) = mediaRecorderRef (refs w) ∧
  encoderStops (browser (stopStreams w)) = encoderStops (browser w) ∧
  audioContextRef (refs (stopStreams w)) = audioContextRef (refs w) ∧
  closedContexts (browser (stopStreams w)) = closedContexts (browser w) ∧
  stoppedTracks (browser (stopStreams w))
  = stoppedTracks (browser w)
      ∪ held_tracks (streamRef (refs w)) (micStream (refs w)) ∧
  timeouts (browser (stopStreams w)) = timeouts (browser w).
Proof. by rewrite stopStreams_stopAll. Qed.

Lemma releaseContext_teardown w :
  mediaRecorderRef (refs (releaseContext w)) = mediaRecorderRef (refs w) ∧
  encoderStops (browser (releaseContext w)) = encoderStops (browser w) ∧
  audioContextRef (refs (releaseContext w)) = None ∧
  closedContexts (browser (releaseContext w))
  = (closedContexts (browser w) + context_closes (audioContextRef (refs w)))%nat ∧
  stoppedTracks (browser (releaseContext w)) = stoppedTracks (browser w) ∧
  timeouts (browser (releaseContext w)) = timeouts (browser w).
Proof.
  destruct w as [u r b]. unfold releaseContext, context_closes.
  destruct r as [? ? ? ? [ctx |] ? ? ?]; cbn;
    rewrite ?Nat.add_0_r, ?Nat.add_1_r; done.
Qed.

Lemma setTimeout_teardown w :
  mediaRecorderRef (refs (setTimeout w)) = mediaRecorderRef (refs w) ∧
  encoderStops (browser (setTimeout w)) = encoderStops (browser w) ∧
  audioContextRef (refs (setTimeout w)) = audioContextRef (refs w) ∧
  closedContexts (browser (setTimeout w)) = closedContexts (browser w) ∧
  stoppedTracks (browser (setTimeout w)) = stoppedTracks (browser w) ∧
  timeouts (browser (setTimeout w))
  = (timeouts (browser w) ++ [duration (ui w)])%list.
Proof. by destruct w as [u r b]. Qed.

(** One stop, as a whole. *)
Lemma stopRecording_teardown c w :
  mediaRecorderRef (refs (stopRecording c w))
  = stopped_encoder <$> mediaRecorderRef (refs w) ∧
  encoderStops (browser (stopRecording c w))
  = (encoderStops (browser w) + encoder_stops (mediaRecorderRef (refs w)))%nat ∧
  audioContextRef (refs (stopRecording c w)) = None ∧
  closedContexts (browser (stopRecording c w))
  = (closedContexts (browser w) + context_closes (audioContextRef (refs w)))%nat ∧
  stoppedTracks (browser (stopRecording c w))
  = stoppedTracks (browser w)
      ∪ held_tracks (streamRef (refs w)) (micStream (refs w)) ∧
  timeouts (browser (stopRecording c w))
  = (timeouts (browser w) ++ [duration (ui w)])%list.
Proof.
  unfold stopRecording.
  set (wa := match c with Plain => w | WithLevels => stopAnimation w end).
  assert (mediaRecorderRef (refs wa) = mediaRecorderRef (refs w) ∧
          encoderStops (browser wa) = encoderStops (browser w) ∧
          audioContextRef (refs wa) = audioContextRef (refs w) ∧
          closedContexts (browser wa) = closedContexts (browser w) ∧
          stoppedTracks (browser wa) = stoppedTracks (browser w) ∧
          timeouts (browser wa) = timeouts (browser w))
    as (Ha1 & Ha2 & Ha3 & Ha4 & Ha5 & Ha6).
  { subst wa. destruct c; [done | apply stopAnimation_teardown]. }
  assert (duration (ui wa) = duration (ui w) ∧
          streamRef (refs wa) = streamRef (refs w) ∧
          micStream (refs wa) = micStream (refs w)) as (Ha7 & Ha8 & Ha9).
  { subst wa. destruct c; [done |].
    destruct (keeps_stopAnimation w) as (_ & ? & _ & _ & ? & ? & _). done. }
  clearbody wa.
  destruct (stopEncoder_teardown wa) as (He1 & He2 & He3 & He4 & He5 & He6).
  destruct (keeps_stopEncoder wa) as (_ & He7 & _ & _ & He8 & He9 & _).
  set (we := stopEncoder wa) in *. clearbody we.
  destruct (stopStreams_teardown we) as (Hs1 & Hs2 & Hs3 & Hs4 & Hs5 & Hs6).
  destruct (keeps_stopStreams we) as (_ & Hs7 & _ & _ & Hs8 & Hs9 & _).
  set (ws := stopStreams we) in *. clearbody ws.
  destruct (releaseContext_teardown ws) as (Hr1 & Hr2 & Hr3 & Hr4 & Hr5 & Hr6).
  destruct (keeps_releaseContext ws) as (_ & Hr7 & _ & _ & Hr8 & Hr9 & _).
  set (wr := releaseContext ws) in *. clearbody wr.
  destruct (setTimeout_teardown wr) as (Ht1 & Ht2 & Ht3 & Ht4 & Ht5 & Ht6).
  rewrite Ht1, Ht2, Ht3, Ht4, Ht5, Ht6.
  rewrite Hr1, Hr2, Hr3, Hr4, Hr5, Hr6, Hr7.
  rewrite Hs1, Hs2, Hs3, Hs4, Hs5, Hs6, Hs7.
  rewrite He1, He2, He3, He4, He5, He6, He7, He8, He9.
  rewrite Ha1, Ha2, Ha3, Ha4, Ha5, Ha6, Ha7, Ha8, Ha9.
  done.
Qed.

(** The deferred save: one blob assembled, one [saveRecording] call if the
    blob is not empty, and [status] set to [stopped] either way. *)
Lemma saveCallback_effect env d w :
  let blob := newBlob (chunksRef (refs w)) in
  status (ui (saveCallback env d w)) = stopped ∧
  chunksRef (refs (saveCallback env d w)) = chunksRef (refs w) ∧
  timeouts (browser (saveCallback env d w)) = timeouts (browser w) ∧
  artifacts (browser (saveCallback env d w))
  = (artifacts (browser w) ++ [blob])%list ∧
  saveCalls (browser (saveCallback env d w))
  = (saveCalls (browser w) ++ if 0 <? JS.size blob then [(blob, d)] else [])%list ∧
  (JS.size blob = 0 → error (ui (saveCallback env d w)) = error (ui w)).
Proof.
  intros blob. unfold saveCallback. fold blob.
  destruct (0 <? JS.size blob) eqn:Hsize.
  - destruct (Storage.saveRecording _ _ _ _ _) as [[r database'] | e]; cbn;
      (repeat (split; [done |])); intros H0; apply Z.ltb_lt in Hsize; lia.
  - cbn. rewrite app_nil_r. done.
Qed.
End StopFacts.

Section Schedules.
Import JS Recorder Lifecycle.

Lemma run_app c l1 l2 w : run c (l1 ++ l2) w = run c l2 (run c l1 w).
Proof. apply foldl_app. Qed.

Lemma same_session_refl w : same_session w w.
Proof. by unfold same_session. Qed.

Lemma same_session_trans w1 w2 w3 :
  same_session w1 w2 → same_session w2 w3 → same_session w1 w3.
Proof.
  unfold same_session.
  intros (?&?&?&?&?&?&?&?&?&?&?&?) (?&?&?&?&?&?&?&?&?&?&?&?).
  repeat split; congruence.
Qed.

(** Data, ticks and frames on a window that has its encoder: the chunk is
    kept, the status, the encoder and the timeouts stay. *)
Lemma step_passive c e w m :
  passive e = true → mediaRecorderRef (refs w) = Some m →
  status (ui (step c e w)) = status (ui w) ∧
  mediaRecorderRef (refs (step c e w)) = Some m ∧
  timeouts (browser (step c e w)) = timeouts (browser w) ∧
  chunksRef (refs (step c e w)) = (chunksRef (refs w) ++ kept_chunk e)%list ∧
  same_session w (step c e w).
Proof.
  intros Hpassive Hm.
  destruct e as [| env | data | now | data]; [done | done | | |];
    cbn [step kept_chunk].
  - rewrite Hm. unfold ondataavailable. destruct (0 <? JS.size data).
    + unfold same_session. cbn. eauto 20.
    + rewrite app_nil_r. eauto 10 using same_session_refl.
  - rewrite app_nil_r. destruct (status (ui w)) eqn:Hst;
      rewrite ?Hst; unfold same_session; cbn; eauto 20.
  - rewrite app_nil_r. destruct (pendingFrames (browser w)) as [| h rest].
    + eauto 10 using same_session_refl.
    + unfold updateAudioLevels. cbn. destruct (analyserRef (refs w));
        unfold same_session; cbn; eauto 20.
Qed.

Lemma reported_cons e events :
  filter (λ d, 0 < JS.size d) (reported (e :: events))
  = (kept_chunk e ++ filter (λ d, 0 < JS.size d) (reported events))%list.
Proof.
  unfold reported. destruct e as [| env | data | now | data]; try done.
  cbn -[filter]. rewrite filter_cons.
  destruct (Z.ltb_spec 0 (JS.size data)), (decide (0 < JS.size data)); try done; lia.
Qed.

Lemma reported_app l1 l2 :
  filter (λ d, 0 < JS.size d) (reported (l1 ++ l2))
  = (filter (λ d, 0 < JS.size d) (reported l1)
       ++ filter (λ d, 0 < JS.size d) (reported l2))%list.
Proof. unfold reported. by rewrite omap_app, filter_app. Qed.

Lemma run_passive c events w m :
  forallb passive events = true → mediaRecorderRef (refs w) = Some m →
  status (ui (run c events w)) = status (ui w) ∧
  mediaRecorderRef (refs (run c events w)) = Some m ∧
  timeouts (browser (run c events w)) = timeouts (browser w) ∧
  chunksRef (refs (run c events w))
  = (chunksRef (refs w) ++ filter (λ d, 0 < JS.size d) (reported events))%list ∧
  same_session w (run c events w).
Proof.
  unfold run. revert w.
  induction events as [| e events IH]; intros w Hpassive Hm.
  - cbn. rewrite app_nil_r. eauto 10 using same_session_refl.
  - cbn [forallb] in Hpassive. apply andb_true_iff in Hpassive as [He Hrest].
    destruct (step_passive c e w m He Hm) as (Hst & Hm' & Hto & Hchunks & Hsame).
    destruct (IH (step c e w) Hrest Hm') as (Hst' & Hm'' & Hto' & Hchunks' & Hsame').
    cbn [foldl]. split; [congruence |]. split; [done |]. split; [congruence |].
    split.
    + by rewrite Hchunks', Hchunks, reported_cons, app_assoc.
    + by eapply same_session_trans.
Qed.

(** The save leaves the refs, the tracks and the level loop alone. *)
Lemma saveCallback_refs env d w :
  refs (saveCallback env d w) = refs w ∧
  stoppedTracks (browser (saveCallback env d w)) = stoppedTracks (browser w) ∧
  mediaRequests (browser (saveCallback env d w)) = mediaRequests (browser w) ∧
  closedContexts (browser (saveCallback env d w)) = closedContexts (browser w) ∧
  encoderStops (browser (saveCallback env d w)) = encoderStops (browser w) ∧
  pendingFrames (browser (saveCallback env d w)) = pendingFrames (browser w) ∧
  audioLevels (ui (saveCallback env d w)) = audioLevels (ui w) ∧
  duration (ui (saveCallback env d w)) = duration (ui w).
Proof.
  unfold saveCallback. destruct (0 <? _); [| done].
  by destruct (Storage.saveRecording _ _ _ _ _) as [[r database'] | e].
Qed.

(** A click on stop while the status is [recording]. *)
Lemma click_effect c w :
  status (ui w) = recording →
  status (ui (step c ClickStop w)) = recording ∧
  chunksRef (refs (step c ClickStop w)) = chunksRef (refs w) ∧
  streamRef (refs (step c ClickStop w)) = streamRef (refs w) ∧
  micStream (refs (step c ClickStop w)) = micStream (refs w) ∧
  artifacts (browser (step c ClickStop w)) = artifacts (browser w) ∧
  saveCalls (browser (step c ClickStop w)) = saveCalls (browser w) ∧
  mediaRecorderRef (refs (step c ClickStop w))
  = stopped_encoder <$> mediaRecorderRef (refs w) ∧
  encoderStops (browser (step c ClickStop w))
  = (encoderStops (browser w) + encoder_stops (mediaRecorderRef (refs w)))%nat ∧
  audioContextRef (refs (step c ClickStop w)) = None ∧
  closedContexts (browser (step c ClickStop w))
  = (closedContexts (browser w) + context_closes (audioContextRef (refs w)))%nat ∧
  stoppedTracks (browser (step c ClickStop w))
  = stoppedTracks (browser w)
      ∪ held_tracks (streamRef (refs w)) (micStream (refs w)) ∧
  timeouts (browser (step c ClickStop w))
  = (timeouts (browser w) ++ [duration (ui w)])%list.
Proof.
  intros Hst. cbn [step]. rewrite Hst.
  destruct (keeps_stopRecording c w) as (-> & _ & _ & -> & -> & -> & -> & -> & _).
  destruct (stopRecording_teardown c w) as (-> & -> & -> & -> & -> & ->).
  done.
Qed.

(** A timeout that fires. *)
Lemma timeout_effect c env w d rest :
  timeouts (browser w) = d :: rest →
  status (ui (step c (TimeoutFires env) w)) = stopped ∧
  refs (step c (TimeoutFires env) w) = refs w ∧
  timeouts (browser (step c (TimeoutFires env) w)) = rest ∧
  artifacts (browser (step c (TimeoutFires env) w))
  = (artifacts (browser w) ++ [newBlob (chunksRef (refs w))])%list ∧
  saveCalls (browser (step c (TimeoutFires env) w))
  = (saveCalls (browser w)
       ++ if 0 <? JS.size (newBlob (chunksRef (refs w)))
          then [(newBlob (chunksRef (refs w)), d)] else [])%list ∧
  stoppedTracks (browser (step c (TimeoutFires env) w)) = stoppedTracks (browser w) ∧
  closedContexts (browser (step c (TimeoutFires env) w)) = closedContexts (browser w) ∧
  encoderStops (browser (step c (TimeoutFires env) w)) = encoderStops (browser w).
Proof.
  intros Hto. cbn [step]. rewrite Hto.
  destruct (saveCallback_effect env d (set_timeouts rest w))
    as (-> & _ & -> & -> & -> & _).
  destruct (saveCallback_refs env d (set_timeouts rest w))
    as (-> & -> & _ & -> & -> & _).
  done.
Qed.

End Schedules.

(** C1, on the sessions where it fails. On a recording session the stop
    button is clicked twice before the save of the first click has run
    (the button stays until then); the encoder may report data, the
    interval may tick and frames may be drawn at any point in between.  The
    teardown is done once: the encoder is stopped once, the context closed
    at most once, and the tracks stopped are those of one stop.  But each
    click has set its own timeout, and each timeout assembles the chunks
    then held into a blob and, when it is not empty, calls [saveRecording]
    with it and the duration displayed at its click: two blobs, two
    calls. *)
Theorem stop_twice_saves_twice :
  ∀ (c : Recorder.Component) (w : Recorder.World)
    (env1 env2 : Storage.SaveEnv) (ev1 ev2 ev3 : list Recorder.Event),
    Recorder.is_recording w →
    forallb Lifecycle.passive ev1 = true →
    forallb Lifecycle.passive ev2 = true →
    forallb Lifecycle.passive ev3 = true →
    let at_second_click := Recorder.run c (Recorder.ClickStop :: ev1) w in
    let w' :=
      Recorder.run c
        (Recorder.ClickStop :: ev1 ++ Recorder.ClickStop :: ev2
           ++ Recorder.TimeoutFires env1 :: ev3 ++ [Recorder.TimeoutFires env2]) w in
    let chunks1 :=
      (Recorder.chunksRef (Recorder.refs w)
         ++ filter (λ d, 0 < JS.size d) (Lifecycle.reported (ev1 ++ ev2)))%list in
    let chunks2 :=
      (chunks1 ++ filter (λ d, 0 < JS.size d) (Lifecycle.reported ev3))%list in
    let d1 := Recorder.duration (Recorder.ui w) in
    let d2 := Recorder.duration (Recorder.ui at_second_click) in
    Recorder.status (Recorder.ui at_second_click) = Recorder.recording ∧
    Recorder.encoderStops (Recorder.browser w')
    = S (Recorder.encoderStops (Recorder.browser w)) ∧
    Recorder.closedContexts (Recorder.browser w')
    = (Recorder.closedContexts (Recorder.browser w)
         + Recorder.context_closes (Recorder.audioContextRef (Recorder.refs w)))%nat ∧
    Recorder.stoppedTracks (Recorder.browser w')
    = Recorder.stoppedTracks (Recorder.browser w)
        ∪ Recorder.held_tracks (Recorder.streamRef (Recorder.refs w))
            (Recorder.micStream (Recorder.refs w)) ∧
    Recorder.status (Recorder.ui w') = Recorder.stopped ∧
    Recorder.timeouts (Recorder.browser w') = [] ∧
    Recorder.artifacts (Recorder.browser w')
    = (Recorder.artifacts (Recorder.browser w)
         ++ [JS.newBlob chunks1; JS.newBlob chunks2])%list ∧
    Recorder.saveCalls (Recorder.browser w')
    = (Recorder.saveCalls (Recorder.browser w)
         ++ (if 0 <? JS.size (JS.newBlob chunks1)
             then [(JS.newBlob chunks1, d1)] else [])
         ++ (if 0 <? JS.size (JS.newBlob chunks2)
             then [(JS.newBlob chunks2, d2)] else []))%list.
Proof.
  intros c w env1 env2 ev1 ev2 ev3 (Hst & (m & Hm & Hstate) & Hto) Hev1 Hev2 Hev3
    at_second_click w' chunks1 chunks2 d1 d2.
  (* the first click *)
  destruct (click_effect c w Hst)
    as (Hst_a & Hch_a & Hs_a & Hmic_a & Hart_a & Hsv_a & Hm_a & Hes_a & Hctx_a
        & Hcc_a & Htr_a & Hto_a).
  rewrite Hm in Hm_a, Hes_a. cbn [fmap option_fmap option_map] in Hm_a.
  cbn [Recorder.encoder_stops] in Hes_a. rewrite Hstate in Hes_a.
  rewrite Hto in Hto_a. cbn [app] in Hto_a.
  set (a0 := Recorder.step c Recorder.ClickStop w) in *.
  (* up to the second click *)
  destruct (run_passive c ev1 a0 _ Hev1 Hm_a)
    as (Hst_a1 & Hm_a1 & Hto_a1 & Hch_a1 & Hsame_a1).
  destruct Hsame_a1 as (_ & Hs_a1 & Hmic_a1 & Hctx_a1 & _ & Htr_a1 & _ & Hcc_a1
                        & Hes_a1 & Hart_a1 & Hsv_a1 & _).
  assert (at_second_click = Recorder.run c ev1 a0) as Hat by done.
  set (a1 := Recorder.run c ev1 a0) in *.
  rewrite Hst_a in Hst_a1.
  (* the second click *)
  destruct (click_effect c a1 Hst_a1)
    as (Hst_b & Hch_b & Hs_b & Hmic_b & Hart_b & Hsv_b & Hm_b & Hes_b & Hctx_b
        & Hcc_b & Htr_b & Hto_b).
  rewrite Hm_a1 in Hm_b, Hes_b.
  cbn [fmap option_fmap option_map] in Hm_b.
  cbn [Recorder.encoder_stops Recorder.stopped_encoder Recorder.state] in Hes_b.
  rewrite Hctx_a1, Hctx_a in Hcc_b. cbn [Recorder.context_closes] in Hcc_b.
  set (b0 := Recorder.step c Recorder.ClickStop a1) in *.
  (* up to the first timeout *)
  destruct (run_passive c ev2 b0 _ Hev2 Hm_b)
    as (Hst_b1 & Hm_b1 & Hto_b1 & Hch_b1 & Hsame_b1).
  destruct Hsame_b1 as (_ & _ & _ & _ & _ & Htr_b1 & _ & Hcc_b1
                        & Hes_b1 & Hart_b1 & Hsv_b1 & _).
  set (b1 := Recorder.run c ev2 b0) in *.
  assert (Recorder.timeouts (Recorder.browser b1) = [d1; d2]) as Hto_b1'.
  { rewrite Hto_b1, Hto_b, Hto_a1, Hto_a. subst d2. by rewrite Hat. }
  destruct (timeout_effect c env1 b1 d1 [d2] Hto_b1')
    as (Hst_t & Hrefs_t & Hto_t & Hart_t & Hsv_t & Htr_t & Hcc_t & Hes_t).
  set (t1 := Recorder.step c (Recorder.TimeoutFires env1) b1) in *.
  (* up to the second timeout *)
  assert (Recorder.mediaRecorderRef (Recorder.refs t1)
          = Some (Recorder.stopped_encoder (Recorder.stopped_encoder m))) as Hm_t.
  { by rewrite Hrefs_t. }
  destruct (run_passive c ev3 t1 _ Hev3 Hm_t)
    as (Hst_t1 & _ & Hto_t1 & Hch_t1 & Hsame_t1).
  destruct Hsame_t1 as (_ & _ & _ & _ & _ & Htr_t1 & _ & Hcc_t1
                        & Hes_t1 & Hart_t1 & Hsv_t1 & _).
  set (t1' := Recorder.run c ev3 t1) in *.
  rewrite Hto_t in Hto_t1.
  destruct (timeout_effect c env2 t1' d2 [] Hto_t1)
    as (Hst_u & _ & Hto_u & Hart_u & Hsv_u & Htr_u & Hcc_u & Hes_u).
  assert (w' = Recorder.step c (Recorder.TimeoutFires env2) t1') as ->.
  { subst w' t1' t1 b1 b0 a1 a0.
    change (Recorder.ClickStop :: ev1 ++ Recorder.ClickStop :: ev2
              ++ Recorder.TimeoutFires env1 :: ev3 ++ [Recorder.TimeoutFires env2])%list
      with ([Recorder.ClickStop] ++ ev1 ++ [Recorder.ClickStop] ++ ev2
              ++ [Recorder.TimeoutFires env1] ++ ev3
              ++ [Recorder.TimeoutFires env2])%list.
    by rewrite !run_app. }
  (* the chunks at the two timeouts *)
  assert (Recorder.chunksRef (Recorder.refs b1) = chunks1) as Hchunks1.
  { subst chunks1. rewrite Hch_b1, Hch_b, Hch_a1, Hch_a, reported_app.
    by rewrite app_assoc. }
  assert (Recorder.chunksRef (Recorder.refs t1') = chunks2) as Hchunks2.
  { subst chunks2. by rewrite Hch_t1, Hrefs_t, Hchunks1. }
  rewrite Hchunks1 in Hart_t, Hsv_t. rewrite Hchunks2 in Hart_u, Hsv_u.
  split; [by rewrite Hat |].
  split; [rewrite Hes_u, Hes_t1, Hes_t, Hes_b1, Hes_b, Hes_a1, Hes_a; lia |].
  split; [rewrite Hcc_u, Hcc_t1, Hcc_t, Hcc_b1, Hcc_b, Hcc_a1, Hcc_a; lia |].
  split.
  { rewrite Htr_u, Htr_t1, Htr_t, Htr_b1, Htr_b, Htr_a1, Htr_a.
    rewrite Hs_a1, Hmic_a1, Hs_a, Hmic_a. set_solver. }
  split; [done |]. split; [done |]. split.
  - rewrite Hart_u, Hart_t1, Hart_t, Hart_b1, Hart_b, Hart_a1, Hart_a.
    by rewrite <- app_assoc.
  - rewrite Hsv_u, Hsv_t1, Hsv_t, Hsv_b1, Hsv_b, Hsv_a1, Hsv_a.
    by rewrite <- app_assoc.
Qed.

Lemma sample_session_is_recording :
  Recorder.is_recording
    (Recorder.session Recorder.Plain Samples.granting 0 Samples.both_query
       Samples.empty_database [Recorder.DataAvailable [Byte.x01]]).
Proof. split; [reflexivity |]. split; [| reflexivity]. by eexists. Qed.

Lemma stop_twice_saves_twice_witness :
  let w := Recorder.session Recorder.Plain Samples.granting 0 Samples.both_query
             Samples.empty_database [Recorder.DataAvailable [Byte.x01]] in
  let w' := Recorder.run Recorder.Plain
              [Recorder.ClickStop; Recorder.DataAvailable [Byte.x02];
               Recorder.ClickStop;
               Recorder.TimeoutFires Samples.first_save;
               Recorder.DataAvailable [Byte.x03];
               Recorder.TimeoutFires Samples.second_save] w in
  Recorder.saveCalls (Recorder.browser w')
  = [([Byte.x01; Byte.x02], 0); ([Byte.x01; Byte.x02; Byte.x03], 0)].
Proof.
  intros w w'.
  destruct (stop_twice_saves_twice Recorder.Plain w Samples.first_save
              Samples.second_save [Recorder.DataAvailable [Byte.x02]] []
              [Recorder.DataAvailable [Byte.x03]]
              sample_session_is_recording eq_refl eq_refl eq_refl)
    as (_ & _ & _ & _ & _ & _ & _ & Hsaves).
  exact Hsaves.
Defined.

(** C1, at one such session: a recording session with one chunk, the stop
    button clicked twice before the deferred save runs.  Two artifacts are
    assembled, [saveRecording] is called twice, two records are stored, and
    the second stop is not a no-op. *)
Lemma stop_twice_is_not_idempotent :
  let w := Recorder.session Recorder.Plain Samples.granting 0 Samples.both_query
             Samples.empty_database [Recorder.DataAvailable [Byte.x01]] in
  let w' := Recorder.run Recorder.Plain
              [Recorder.ClickStop; Recorder.ClickStop;
               Recorder.TimeoutFires Samples.first_save;
               Recorder.TimeoutFires Samples.second_save] w in
  Recorder.is_recording w ∧
  length (Recorder.artifacts (Recorder.browser w')) = 2%nat ∧
  length (Recorder.saveCalls (Recorder.browser w')) = 2%nat ∧
  size (Storage.recordings (Recorder.database (Recorder.browser w'))) = 2%nat ∧
  Recorder.stopRecording Recorder.Plain (Recorder.stopRecording Recorder.Plain w)
  ≠ Recorder.stopRecording Recorder.Plain w.
Proof.
  split; [apply sample_session_is_recording |].
  split; [reflexivity |]. split; [reflexivity |]. split; [by vm_compute |].
  intros Heq.
  apply (f_equal (λ w, length (Recorder.timeouts (Recorder.browser w)))) in Heq.
  discriminate Heq.
Qed.

Section ErrorAndStatus.
Import JS Recorder.

(** A window whose parameters were rejected reacts to nothing. *)
Lemma rejected_window_is_inert c database e :
  step c e (setError "Invalid parameters" (initial database))
  = setError "Invalid parameters" (initial database).
Proof. by destruct e. Qed.

Lemma rejected_window_stays c database events :
  run c events (setError "Invalid parameters" (initial database))
  = setError "Invalid parameters" (initial database).
Proof.
  unfold run. induction events as [| e events IH]; [done |].
  cbn [foldl]. by rewrite rejected_window_is_inert.
Qed.

Lemma startRecording_try_error c P now params w :
  error (ui (startRecording_try c P now params w).2) = error (ui w).
Proof.
  start_unfold.
  destruct (_ || _).
  - destruct (getMediaStreamId P (tabId params)) as [sid | e]; [| done].
    cbn -[truthy_str].
    destruct (getUserMedia P (TabCapture sid)) as [tabStream | e]; [| done].
    rewrite stopTracks_stopAll.
    destruct (_ && _).
    + destruct (getUserMedia P (Microphone (deviceId params))) as [mic | e];
        [| done].
      by destruct c.
    + by destruct c.
  - cbn. destruct (getUserMedia P (Microphone (deviceId params))) as [mic | e];
      [| done].
    by destruct c.
Qed.

Lemma startRecording_error_means_stopped c P now params w :
  error (ui w) = None →
  error_means_stopped (startRecording c P now params w).
Proof.
  intros Hnone. unfold startRecording, error_means_stopped.
  pose proof (startRecording_try_error c P now params w) as Herr.
  destruct (startRecording_try c P now params w) as [[[] | e] w']; [| done].
  cbn in Herr. congruence.
Qed.

Lemma error_means_stopped_same w w' :
  status (ui w') = status (ui w) →
  error (ui w') = error (ui w) →
  error_means_stopped w → error_means_stopped w'.
Proof. unfold error_means_stopped. by intros -> ->. Qed.

Lemma step_error_means_stopped c e w :
  error_means_stopped w → error_means_stopped (step c e w).
Proof.
  intros Hinv. destruct e as [| env | data | now | data]; cbn [step].
  - apply (error_means_stopped_same w); [| | done].
    + destruct (status (ui w)) eqn:Hst; try done.
      destruct (keeps_stopRecording c w) as (-> & _). by rewrite Hst.
    + destruct (status (ui w)); try done.
      by destruct (keeps_stopRecording c w) as (_ & _ & -> & _).
  - destruct (timeouts (browser w)) as [| d rest]; [done |].
    intros _.
    by destruct (saveCallback_effect env d (set_timeouts rest w)) as (-> & _).
  - destruct (mediaRecorderRef (refs w)); [| done].
    unfold ondataavailable. by destruct (0 <? JS.size data).
  - apply (error_means_stopped_same w); [| | done];
      by destruct (status (ui w)) eqn:Hst; cbn; rewrite ?Hst.
  - destruct (pendingFrames (browser w)) as [| h rest]; [done |].
    apply (error_means_stopped_same w); [| | done];
      unfold updateAudioLevels; cbn; by destruct (analyserRef (refs w)).
Qed.

Lemma run_error_means_stopped c events w :
  error_means_stopped w → error_means_stopped (run c events w).
Proof.
  unfold run. revert w. induction events as [| e events IH]; intros w Hinv; [done |].
  cbn [foldl]. by apply IH, step_error_means_stopped.
Qed.

(** Once the parameters were accepted, an error is only ever shown with
    the session stopped. *)
Lemma started_sessions_error_means_stopped c P now search database events p :
  getParams search = Some p →
  error_means_stopped (session c P now search database events).
Proof.
  intros Hp. unfold session, mount. rewrite Hp.
  by apply run_error_means_stopped, startRecording_error_means_stopped.
Qed.
End ErrorAndStatus.

(** C2, on the input where it fails. A window opened without a [tabId]
    shows the error "Invalid parameters" while its status is, and stays,
    [starting]: the error is set and the session is not stopped. *)
Theorem invalid_parameters_error_while_starting :
  ∀ (c : Recorder.Component) (P : Recorder.Platform) (now : Z)
    (database : Storage.IDBDatabase) (events : list Recorder.Event),
    let w := Recorder.session c P now [("mode", "tab")] database events in
    Recorder.error (Recorder.ui w) = Some "Invalid parameters" ∧
    Recorder.status (Recorder.ui w) = Recorder.starting.
Proof.
  intros c P now database events w. subst w. unfold Recorder.session.
  change (Recorder.mount c P now [("mode", "tab")] (Recorder.initial database))
    with (Recorder.setError "Invalid parameters" (Recorder.initial database)).
  by rewrite rejected_window_stays.
Qed.

(** * Further properties *)

(** ** The object store: saving, updating, deleting *)

Section StoreOperations.
Import JS Storage.

Lemma saveRecording_id env b d customName database r database' :
  saveRecording env b d customName database = Resolved (r, database') →
  id r = "rec-" +:+ toString (now env) +:+ "-" +:+ random env.
Proof.
  unfold saveRecording, store_add. cbn.
  destruct (failing database); [done |].
  destruct (recordings database !! _); [done |]. by intros [= <- _].
Qed.

End StoreOperations.

(** X1. On a working database that has no record under the generated id,
    [saveRecording] resolves with a record holding the blob, the duration,
    the blob's size, the creation time and the status ['pending'], with no
    transcription; [getRecording] on its id then resolves to that very
    record, and every other id reads as before. *)
Theorem saveRecording_then_getRecording :
  ∀ (env : Storage.SaveEnv) (b : JS.Blob) (d : Z) (customName : option string)
    (database : Storage.IDBDatabase),
    Storage.failing database = None →
    Storage.recordings database
      !! ("rec-" +:+ JS.toString (Storage.now env) +:+ "-" +:+ Storage.random env)
    = None →
    ∃ r database',
      Storage.saveRecording env b d customName database = JS.Resolved (r, database') ∧
      Storage.getRecording (Storage.id r) database' = JS.Resolved (Storage.Obj r) ∧
      Storage.blob r = b ∧ Storage.duration r = d ∧
      Storage.size r = JS.size b ∧
      Storage.createdAt r = Storage.nowCreated env ∧
      Storage.transcription r = None ∧
      Storage.transcriptionStatus r = Some Storage.pending ∧
      (∀ k, k ≠ Storage.id r →
         Storage.getRecording k database' = Storage.getRecording k database).
Proof.
  intros env b d customName database Hok Hfresh.
  unfold Storage.saveRecording, Storage.store_add. cbn.
  rewrite Hok, Hfresh. eexists _, _. split; [reflexivity |].
  split.
  { rewrite getRecording_healthy by done. cbn. by rewrite lookup_insert_eq. }
  repeat (split; [reflexivity |]).
  intros k Hk. rewrite !getRecording_healthy by done. cbn in *.
  by rewrite lookup_insert_ne.
Qed.

Lemma saveRecording_then_getRecording_witness :
  ∃ r database',
    Storage.saveRecording Samples.first_save [Byte.x1a] 3 None
      Samples.sample_database = JS.Resolved (r, database') ∧
    Storage.getRecording (Storage.id r) database' = JS.Resolved (Storage.Obj r).
Proof.
  destruct (saveRecording_then_getRecording Samples.first_save [Byte.x1a] 3 None
              Samples.sample_database eq_refl eq_refl)
    as (r & database' & Hsave & Hget & _).
  exists r, database'. split; [exact Hsave | exact Hget].
Defined.

(** X2. [saveRecording] never replaces a record: when the generated id is
    taken it rejects, whatever the blob. *)
Theorem saveRecording_never_overwrites :
  ∀ (env : Storage.SaveEnv) (b : JS.Blob) (d : Z) (customName : option string)
    (database : Storage.IDBDatabase) (r : Storage.Recording),
    Storage.recordings database
      !! ("rec-" +:+ JS.toString (Storage.now env) +:+ "-" +:+ Storage.random env)
    = Some r →
    ∃ e, Storage.saveRecording env b d customName database = JS.Rejected e.
Proof.
  intros env b d customName database r Htaken.
  unfold Storage.saveRecording, Storage.store_add. cbn.
  destruct (Storage.failing database); [by eexists |].
  rewrite Htaken. by eexists.
Qed.

Lemma saveRecording_never_overwrites_witness :
  ∃ e, Storage.saveRecording
         {| Storage.now := 1; Storage.random := "abc";
            Storage.isoString := "2025-12-04T18:09:06.216Z";
            Storage.nowCreated := 1 |}
         [Byte.x1a] 3 None Samples.sample_database = JS.Rejected e.
Proof.
  apply (saveRecording_never_overwrites _ _ _ _ _ Samples.sample_recording).
  reflexivity.
Defined.

Section StoreFrames.
Import JS Storage.

Lemma spread_idempotent r updates :
  spread (spread r updates) updates = spread r updates.
Proof.
  destruct r, updates as [i n b d c s t ts]. unfold spread. cbn.
  by destruct i, n, b, d, c, s, t, ts.
Qed.

Lemma spread_keeps_id r updates : id' updates = None → id (spread r updates) = id r.
Proof. unfold spread. cbn. by intros ->. Qed.

Lemma well_keyed_insert database r :
  well_keyed database →
  well_keyed (with_recordings (<[id r := r]> (recordings database)) database).
Proof.
  intros Hwk k r'. cbn. destruct (decide (k = id r)) as [-> | Hne].
  - rewrite lookup_insert_eq. by intros [= <-].
  - rewrite lookup_insert_ne by done. apply Hwk.
Qed.

End StoreFrames.

(** X3. On a working database that holds [r] under [key], an update that
    does not carry an [id] resolves; [getRecording] then gives [r] with the
    updated fields and the others as they were, every other id reads as
    before, and applying the same update again changes nothing. *)
Theorem updateRecording_then_getRecording :
  ∀ (key : string) (updates : Storage.PartialRecording)
    (database : Storage.IDBDatabase) (r : Storage.Recording),
    Storage.failing database = None →
    Storage.recordings database !! key = Some r →
    Storage.id r = key →
    Storage.id' updates = None →
    ∃ database',
      Storage.updateRecording key updates database = JS.Resolved database' ∧
      Storage.getRecording key database'
      = JS.Resolved (Storage.Obj (Storage.spread r updates)) ∧
      (∀ k, k ≠ key →
         Storage.getRecording k database' = Storage.getRecording k database) ∧
      Storage.updateRecording key updates database' = JS.Resolved database'.
Proof.
  intros key updates database r Hok Hr Hid Hnoid.
  rewrite (updateRecording_present _ _ _ r) by done.
  rewrite spread_keeps_id, Hid by done.
  eexists. split; [reflexivity |]. split; [| split].
  - rewrite getRecording_healthy by done. cbn. by rewrite lookup_insert_eq.
  - intros k Hk. rewrite !getRecording_healthy by done. cbn.
    by rewrite lookup_insert_ne.
  - rewrite (updateRecording_present _ _ _ (Storage.spread r updates));
      [| done | cbn; apply lookup_insert_eq].
    rewrite spread_idempotent, spread_keeps_id, Hid by done.
    f_equal. unfold Storage.with_recordings. cbn. by rewrite insert_insert_eq.
Qed.

Lemma updateRecording_then_getRecording_witness :
  ∃ database',
    Storage.updateRecording "rec-1-abc"
      (Storage.transcript_update "# Minutes" Storage.completed)
      Samples.sample_database = JS.Resolved database' ∧
    Storage.getRecording "rec-1-abc" database'
    = JS.Resolved
        (Storage.Obj
           (Storage.spread Samples.sample_recording
              (Storage.transcript_update "# Minutes" Storage.completed))).
Proof.
  destruct (updateRecording_then_getRecording "rec-1-abc"
              (Storage.transcript_update "# Minutes" Storage.completed)
              Samples.sample_database Samples.sample_recording
              eq_refl eq_refl eq_refl eq_refl)
    as (database' & Hupd & Hget & _).
  exists database'. split; [exact Hupd | exact Hget].
Defined.

(** X4. [deleteRecording] on a working database always resolves, also for
    an id that is not stored (then the store is unchanged); afterwards
    [getRecording] on that id resolves to [null] and every other id reads
    as before. *)
Theorem deleteRecording_then_getRecording :
  ∀ (key : string) (database : Storage.IDBDatabase),
    Storage.failing database = None →
    ∃ database',
      Storage.deleteRecording key database = JS.Resolved database' ∧
      Storage.getRecording key database' = JS.Resolved Storage.Null ∧
      (∀ k, k ≠ key →
         Storage.getRecording k database' = Storage.getRecording k database) ∧
      (Storage.recordings database !! key = None →
         Storage.recordings database' = Storage.recordings database).
Proof.
  intros key database Hok.
  unfold Storage.deleteRecording, Storage.store_delete. rewrite Hok.
  eexists. split; [reflexivity |]. split; [| split].
  - rewrite getRecording_healthy by done. cbn. by rewrite lookup_delete_eq.
  - intros k Hk. rewrite !getRecording_healthy by done. cbn.
    by rewrite lookup_delete_ne.
  - intros Hnone. cbn. by apply delete_id.
Qed.

Lemma deleteRecording_then_getRecording_witness :
  ∃ database',
    Storage.deleteRecording "rec-1-abc" Samples.sample_database
    = JS.Resolved database' ∧
    Storage.getRecording "rec-1-abc" database' = JS.Resolved Storage.Null.
Proof.
  destruct (deleteRecording_then_getRecording "rec-1-abc"
              Samples.sample_database eq_refl)
    as (database' & Hdel & Hget & _).
  exists database'. split; [exact Hdel | exact Hget].
Defined.

(** X5. The store stays keyed by [id]: if every record is stored under its
    own id, it still is after any [saveRecording], [updateRecording] (also
    one whose updates carry another id) or [deleteRecording] that
    resolves. *)
Theorem store_stays_well_keyed :
  ∀ (database : Storage.IDBDatabase),
    Storage.well_keyed database →
    (∀ env b d customName r database',
       Storage.saveRecording env b d customName database = JS.Resolved (r, database') →
       Storage.well_keyed database') ∧
    (∀ key updates database',
       Storage.updateRecording key updates database = JS.Resolved database' →
       Storage.well_keyed database') ∧
    (∀ key database',
       Storage.deleteRecording key database = JS.Resolved database' →
       Storage.well_keyed database').
Proof.
  intros database Hwk. split; [| split].
  - intros env b d customName r database'.
    unfold Storage.saveRecording, Storage.store_add.
    destruct (Storage.failing database); [done |].
    destruct (_ !! _); [done |]. intros [= <- <-].
    by apply well_keyed_insert.
  - intros key updates database'.
    unfold Storage.updateRecording, Storage.getRecording, Storage.store_get,
      Storage.store_put.
    destruct (Storage.failing database); [done |].
    destruct (_ !! _) as [r |]; [| done]. cbn. intros [= <-].
    by apply well_keyed_insert.
  - intros key database'.
    unfold Storage.deleteRecording, Storage.store_delete.
    destruct (Storage.failing database); [done |]. intros [= <-].
    intros k r. cbn. intros Hk. apply lookup_delete_Some in Hk as [_ Hk].
    by apply Hwk.
Qed.

Lemma store_stays_well_keyed_witness :
  ∃ database',
    Storage.updateRecording "rec-1-abc"
      (Storage.status_update Storage.processing) Samples.sample_database
    = JS.Resolved database' ∧
    Storage.well_keyed database'.
Proof.
  assert (Storage.well_keyed Samples.sample_database) as Hwk.
  { intros k r Hk. cbn in Hk. apply lookup_singleton_Some in Hk as [<- <-].
    reflexivity. }
  destruct (store_stays_well_keyed Samples.sample_database Hwk)
    as (_ & Hupdate & _).
  eexists. split; [reflexivity |].
  exact (Hupdate "rec-1-abc" (Storage.status_update Storage.processing) _ eq_refl).
Defined.

(** ** Listing the recordings *)

Section ListingOrder.
Import JS Storage Listing.

Lemma key_le_total a b : key_le a b = true ∨ key_le b a = true.
Proof.
  revert b. induction a as [| x a IH]; intros [| y b]; cbn [key_le]; auto.
  destruct (Nat.ltb_spec (nat_of_ascii x) (nat_of_ascii y));
    destruct (Nat.ltb_spec (nat_of_ascii y) (nat_of_ascii x)); auto.
Qed.

Lemma key_le_trans a b c :
  key_le a b = true → key_le b c = true → key_le a c = true.
Proof.
  revert b c. induction a as [| x a IH]; intros [| y b] [| z c];
    cbn [key_le]; try done.
  destruct (Nat.ltb_spec (nat_of_ascii x) (nat_of_ascii y));
    destruct (Nat.ltb_spec (nat_of_ascii y) (nat_of_ascii x));
    destruct (Nat.ltb_spec (nat_of_ascii y) (nat_of_ascii z));
    destruct (Nat.ltb_spec (nat_of_ascii z) (nat_of_ascii y));
    destruct (Nat.ltb_spec (nat_of_ascii x) (nat_of_ascii z));
    destruct (Nat.ltb_spec (nat_of_ascii z) (nat_of_ascii x));
    try done; try lia.
  apply IH.
Qed.

Lemma visited_before_total : Total visited_before.
Proof.
  intros r1 r2. unfold visited_before.
  destruct (Z.lt_trichotomy (createdAt r1) (createdAt r2)) as [? | [Heq | ?]];
    [auto | | auto].
  destruct (key_le_total (id r1) (id r2)); [right | left]; right; split;
    congruence.
Qed.

Lemma visited_before_trans : Transitive visited_before.
Proof.
  intros r1 r2 r3 [H12 | [H12 K12]] [H23 | [H23 K23]]; unfold visited_before.
  - left. lia.
  - left. lia.
  - left. lia.
  - right. split; [congruence |]. by eapply key_le_trans.
Qed.

Lemma StronglySorted_lookup {A} (R : relation A) l i j x y :
  StronglySorted R l → (i < j)%nat → l !! i = Some x → l !! j = Some y → R x y.
Proof.
  intros Hsorted. revert i j.
  induction Hsorted as [| a l _ IH Hall]; intros i j Hij Hi Hj; [done |].
  destruct j as [| j]; [lia |]. destruct i as [| i].
  - injection Hi as <-. cbn in Hj.
    eapply Forall_forall; [exact Hall |]. by eapply list_elem_of_lookup_2.
  - eapply (IH i j); [lia | done | done].
Qed.

Lemma openCursor_prev_members database :
  openCursor_prev database ≡ₚ (map_to_list (Storage.recordings database)).*2.
Proof. apply merge_sort_Permutation. Qed.

Lemma openCursor_prev_stored database r :
  r ∈ openCursor_prev database ↔ ∃ k, Storage.recordings database !! k = Some r.
Proof.
  rewrite openCursor_prev_members, list_elem_of_fmap. split.
  - intros ([k r'] & -> & Hin). exists k. by apply elem_of_map_to_list.
  - intros (k & Hk). exists (k, r). split; [done |].
    by apply elem_of_map_to_list.
Qed.

Lemma openCursor_prev_length database :
  length (openCursor_prev database) = base.size (Storage.recordings database).
Proof. by rewrite openCursor_prev_members, length_fmap, length_map_to_list. Qed.

Lemma openCursor_prev_newest_first database i j r1 r2 :
  (i < j)%nat →
  openCursor_prev database !! i = Some r1 →
  openCursor_prev database !! j = Some r2 →
  Storage.createdAt r2 ≤ Storage.createdAt r1.
Proof.
  intros Hij Hi Hj.
  assert (visited_before r1 r2) as [Hlt | [Heq _]]; [| lia | lia].
  eapply (StronglySorted_lookup _ (openCursor_prev database) i j);
    [| done | done | done].
  pose proof visited_before_total. pose proof visited_before_trans.
  by apply StronglySorted_merge_sort.
Qed.

End ListingOrder.

(** X6. On a working database [getRecordings] resolves to a list that holds
    exactly the stored records, each stored entry once, newest first: of two
    records the one listed first has the later (or the same) [createdAt]. *)
Theorem getRecordings_newest_first :
  ∀ (database : Storage.IDBDatabase),
    Storage.failing database = None →
    ∃ l,
      Listing.getRecordings database = JS.Resolved l ∧
      l ≡ₚ (map_to_list (Storage.recordings database)).*2 ∧
      length l = size (Storage.recordings database) ∧
      (∀ r, r ∈ l ↔ ∃ k, Storage.recordings database !! k = Some r) ∧
      (∀ i j r1 r2, (i < j)%nat → l !! i = Some r1 → l !! j = Some r2 →
         Storage.createdAt r2 ≤ Storage.createdAt r1).
Proof.
  intros database Hok. unfold Listing.getRecordings. rewrite Hok.
  eexists. split; [reflexivity |].
  split; [apply openCursor_prev_members |].
  split; [apply openCursor_prev_length |].
  split; [apply openCursor_prev_stored |].
  apply openCursor_prev_newest_first.
Qed.

Lemma getRecordings_newest_first_witness :
  ∃ l, Listing.getRecordings Samples.sample_database = JS.Resolved l ∧
       length l = 1%nat.
Proof.
  destruct (getRecordings_newest_first Samples.sample_database eq_refl)
    as (l & Hget & _ & Hlen & _).
  exists l. split; [exact Hget |]. rewrite Hlen. reflexivity.
Defined.

(** ** The recordings page *)

Section PageFacts.
Import JS Storage Recordings Page.

Lemma spread_processing_then r updates :
  transcriptionStatus' updates ≠ None →
  spread (spread r (status_update processing)) updates = spread r updates.
Proof.
  destruct r, updates as [i n b d c s t [ts |]]; [| done]. intros _.
  unfold spread. cbn. by destruct i, n, b, d, c, s, t.
Qed.

(** What [handleProcess] does once the server is available and the record
    is stored: the update of the outcome reaches the store and the list. *)
Lemma handleProcess_stored fetch recording stored s :
  apiAvailable s = Some true →
  failing (database s) = None →
  Storage.recordings (database s) !! id recording = Some stored →
  id stored = id recording →
  ∃ selected,
    handleProcess fetch recording s
    = (Resolved (),
       {| recordings :=
            map (patch (id recording) (outcome_update fetch)) (recordings s);
          apiAvailable := apiAvailable s;
          processingId := None;
          selectedRecording := selected;
          database :=
            with_recordings
              (<[id recording := spread stored (outcome_update fetch)]>
                 (Storage.recordings (database s))) (database s);
          alerts := alerts s |}).
Proof.
  intros Hapi Hok Hstored Hid.
  unfold handleProcess.
  assert (negb (default false (apiAvailable s)) = false) as ->
    by (by rewrite Hapi).
  cbn [setProcessingId Recordings.database].
  rewrite (updateRecording_present _ _ _ stored) by done.
  rewrite spread_status_id, Hid.
  assert (∀ updates, transcriptionStatus' updates ≠ None → id' updates = None →
     updateRecording (id recording) updates
       (with_recordings
          (<[id recording := spread stored (status_update processing)]>
             (Storage.recordings (database s))) (database s))
     = Resolved
         (with_recordings
            (<[id recording := spread stored updates]>
               (Storage.recordings (database s))) (database s))) as Hupd.
  { intros updates Hst Hnoid.
    rewrite (updateRecording_present _ _ _
               (spread stored (status_update processing)));
      [| done | cbn; apply lookup_insert_eq].
    rewrite spread_processing_then by done.
    rewrite spread_keeps_id, Hid by done.
    unfold with_recordings. cbn. by rewrite insert_insert_eq. }
  destruct fetch as [e | [] statusText [markdown | e]];
    unfold handleProcess_try, handleProcess_catch, outcome_update;
    cbn [negb setDatabase Recordings.database];
    rewrite Hupd by done; try by eexists.
  cbn. destruct (selectedRecording s) as [sel |]; [| by eexists].
  destruct (String.eqb (id sel) (id recording)); by eexists.
Qed.

End PageFacts.

(** X7. When the server is available and the request succeeds with a
    transcript, [handleProcess] resolves with the stored record holding that
    transcript and the status ['completed'], every other field as it was;
    no other record changes and no record is left marked as being
    processed. *)
Theorem handleProcess_success_stores_transcript :
  ∀ (recording stored : Storage.Recording) (s : Recordings.State)
    (statusText markdown : string),
    Recordings.apiAvailable s = Some true →
    Storage.failing (Recordings.database s) = None →
    Storage.recordings (Recordings.database s) !! Storage.id recording = Some stored →
    Storage.id stored = Storage.id recording →
    ∃ s',
      Recordings.handleProcess
        (Recordings.Response true statusText (JS.Resolved markdown)) recording s
      = (JS.Resolved (), s') ∧
      Storage.recordings (Recordings.database s') !! Storage.id recording
      = Some {| Storage.id := Storage.id stored;
                Storage.name := Storage.name stored;
                Storage.blob := Storage.blob stored;
                Storage.duration := Storage.duration stored;
                Storage.createdAt := Storage.createdAt stored;
                Storage.size := Storage.size stored;
                Storage.transcription := Some markdown;
                Storage.transcriptionStatus := Some Storage.completed |} ∧
      (∀ k, k ≠ Storage.id recording →
         Storage.recordings (Recordings.database s') !! k
         = Storage.recordings (Recordings.database s) !! k) ∧
      Recordings.processingId s' = None.
Proof.
  intros recording stored s statusText markdown Hapi Hok Hstored Hid.
  destruct (handleProcess_stored
              (Recordings.Response true statusText (JS.Resolved markdown))
              recording stored s Hapi Hok Hstored Hid) as (selected & ->).
  eexists. split; [reflexivity |]. cbn. split; [| split; [| done]].
  - by rewrite lookup_insert_eq.
  - intros k Hk. by rewrite lookup_insert_ne.
Qed.

Lemma handleProcess_success_stores_transcript_witness :
  ∃ s',
    Recordings.handleProcess
      (Recordings.Response true "OK" (JS.Resolved "# Minutes"))
      Samples.sample_recording Samples.sample_state = (JS.Resolved (), s') ∧
    Recordings.processingId s' = None.
Proof.
  destruct (handleProcess_success_stores_transcript Samples.sample_recording
              Samples.sample_recording Samples.sample_state "OK" "# Minutes"
              eq_refl eq_refl eq_refl eq_refl) as (s' & Hrun & _ & _ & Hnone).
  exists s'. split; [exact Hrun | exact Hnone].
Defined.

(** X8. [handleProcess] keeps the list in step with the store: if every
    listed record is the stored record of its id and the record processed
    is a listed one, then, whatever the outcome of the request, the call
    resolves, every listed record is again the stored record of its id, the
    list has the same length, and no record is left marked as being
    processed. *)
Theorem handleProcess_keeps_list_in_sync :
  ∀ (fetch : Recordings.FetchResult) (recording : Storage.Recording)
    (s : Recordings.State),
    Recordings.apiAvailable s = Some true →
    Storage.failing (Recordings.database s) = None →
    Page.in_sync s →
    recording ∈ Recordings.recordings s →
    ∃ s',
      Recordings.handleProcess fetch recording s = (JS.Resolved (), s') ∧
      Page.in_sync s' ∧
      length (Recordings.recordings s') = length (Recordings.recordings s) ∧
      Recordings.processingId s' = None.
Proof.
  intros fetch recording s Hapi Hok Hsync Hin.
  pose proof (Hsync recording Hin) as Hstored.
  destruct (handleProcess_stored fetch recording recording s Hapi Hok Hstored
              eq_refl) as (selected & ->).
  eexists. split; [reflexivity |]. split; [| split; [| done]].
  - intros r' Hr'. cbn in Hr' |- *.
    apply list_elem_of_fmap in Hr' as (r & -> & Hr).
    pose proof (Hsync r Hr) as Hr_stored.
    unfold Recordings.patch.
    destruct (String.eqb_spec (Storage.id r) (Storage.id recording)) as [Heq | Hne].
    + assert (r = recording) as -> by congruence.
      assert (Storage.id (Storage.spread recording (Page.outcome_update fetch))
              = Storage.id recording) as ->.
      { apply spread_keeps_id. unfold Page.outcome_update.
        by destruct fetch as [| [] ? []]. }
      by rewrite lookup_insert_eq.
    + by rewrite lookup_insert_ne.
  - cbn. by rewrite length_map.
Qed.

Lemma handleProcess_keeps_list_in_sync_witness :
  ∃ s',
    Recordings.handleProcess (Recordings.TransportFailure "Failed to fetch")
      Samples.sample_recording Samples.sample_state = (JS.Resolved (), s') ∧
    Page.in_sync s'.
Proof.
  assert (Page.in_sync Samples.sample_state) as Hsync.
  { intros r Hr. apply list_elem_of_singleton in Hr as ->. reflexivity. }
  assert (Samples.sample_recording ∈ Recordings.recordings Samples.sample_state)
    as Hin by (apply list_elem_of_singleton; reflexivity).
  destruct (handleProcess_keeps_list_in_sync
              (Recordings.TransportFailure "Failed to fetch")
              Samples.sample_recording Samples.sample_state
              eq_refl eq_refl Hsync Hin) as (s' & Hrun & Hsync' & _).
  exists s'. split; [exact Hrun | exact Hsync'].
Defined.

(** X9. Transcription is attempted only after a health check whose answer
    has [status] ['ok'] and [model_loaded] true.  After any other answer,
    or none, [handleProcess] only shows the alert: the store, the list and
    the processing mark are as they were. *)
Theorem handleProcess_needs_healthy_server :
  ∀ (health : Page.HealthResult) (fetch : Recordings.FetchResult)
    (recording : Storage.Recording) (s : Recordings.State),
    (health = Page.HealthJson (Some "ok") (Some true) →
       Recordings.apiAvailable (Page.checkApiHealth health s) = Some true) ∧
    (health ≠ Page.HealthJson (Some "ok") (Some true) →
       ∃ s',
         Recordings.handleProcess fetch recording (Page.checkApiHealth health s)
         = (JS.Resolved (), s') ∧
         Recordings.database s' = Recordings.database s ∧
         Recordings.recordings s' = Recordings.recordings s ∧
         Recordings.processingId s' = Recordings.processingId s ∧
         Recordings.alerts s'
         = (Recordings.alerts s
              ++ ["Transcription server is not available. Please start Echoes Server."])%list).
Proof.
  intros health fetch recording s. split.
  - by intros ->.
  - intros Hne.
    assert (default false
              (Recordings.apiAvailable (Page.checkApiHealth health s)) = false)
      as Hoff.
    { destruct health as [| [st |] loaded]; cbn; [done | | done].
      destruct (String.eqb_spec st "ok") as [-> | _]; [| done].
      destruct loaded as [[] |]; done. }
    unfold Recordings.handleProcess. rewrite Hoff. cbn [negb].
    eexists. split; [reflexivity |].
    destruct health as [| [st |] loaded]; cbn; [done | | done].
    by destruct (String.eqb st "ok").
Qed.

Lemma handleProcess_needs_healthy_server_witness :
  ∃ s',
    Recordings.handleProcess (Recordings.TransportFailure "unused")
      Samples.sample_recording
      (Page.checkApiHealth (Page.HealthJson (Some "ok") (Some false))
         Samples.sample_state)
    = (JS.Resolved (), s') ∧
    Recordings.database s' = Samples.sample_database.
Proof.
  destruct (handleProcess_needs_healthy_server
              (Page.HealthJson (Some "ok") (Some false))
              (Recordings.TransportFailure "unused")
              Samples.sample_recording Samples.sample_state) as [_ Hoff].
  destruct Hoff as (s' & Hrun & Hdb & _); [discriminate |].
  exists s'. split; [exact Hrun | exact Hdb].
Defined.

(** X10. When the record is no longer stored (deleted since the list was
    shown), [handleProcess] rejects with "Recording not found" before the
    request is made: the store is unchanged, but the record stays marked as
    being processed, since the mark is cleared only after the request. *)
Theorem handleProcess_missing_record_stays_marked :
  ∀ (fetch : Recordings.FetchResult) (recording : Storage.Recording)
    (s : Recordings.State),
    Recordings.apiAvailable s = Some true →
    Storage.failing (Recordings.database s) = None →
    Storage.recordings (Recordings.database s) !! Storage.id recording = None →
    ∃ s',
      Recordings.handleProcess fetch recording s
      = (JS.Rejected "Recording not found", s') ∧
      Recordings.processingId s' = Some (Storage.id recording) ∧
      Recordings.database s' = Recordings.database s ∧
      Recordings.recordings s' = Recordings.recordings s.
Proof.
  intros fetch recording s Hapi Hok Hnone.
  unfold Recordings.handleProcess. rewrite Hapi. cbn [default negb].
  cbn [Recordings.setProcessingId Recordings.database].
  rewrite updateRecording_absent by done.
  eexists. split; [reflexivity |]. done.
Qed.

Lemma handleProcess_missing_record_stays_marked_witness :
  ∃ s',
    Recordings.handleProcess (Recordings.TransportFailure "unused")
      {| Storage.id := "rec-9-zzz"; Storage.name := "gone";
         Storage.blob := []; Storage.duration := 0; Storage.createdAt := 9;
         Storage.size := 0; Storage.transcription := None;
         Storage.transcriptionStatus := None |}
      Samples.sample_state
    = (JS.Rejected "Recording not found", s') ∧
    Recordings.processingId s' = Some "rec-9-zzz".
Proof.
  destruct (handleProcess_missing_record_stays_marked
              (Recordings.TransportFailure "unused")
              {| Storage.id := "rec-9-zzz"; Storage.name := "gone";
                 Storage.blob := []; Storage.duration := 0; Storage.createdAt := 9;
                 Storage.size := 0; Storage.transcription := None;
                 Storage.transcriptionStatus := None |}
              Samples.sample_state eq_refl eq_refl eq_refl)
    as (s' & Hrun & Hmark & _).
  exists s'. split; [exact Hrun | exact Hmark].
Defined.



Section FileNames.
Import JS Page.

Lemma last_dot_None s : occurs "." s = false → last_dot s = None.
Proof.
  induction s as [| c s IH]; [done |]. cbn.
  destruct (Ascii.eqb c "."); [done |]. cbn. intros Hs. by rewrite IH.
Qed.

Lemma last_dot_append base ext :
  occurs "." ext = false →
  last_dot (base +:+ "." +:+ ext) = Some (base, ext).
Proof.
  intros Hext. induction base as [| c base IH].
  - change ("" +:+ "." +:+ ext) with (String "." ext).
    cbn [last_dot]. by rewrite last_dot_None.
  - change (String c base +:+ "." +:+ ext)
      with (String c (base +:+ "." +:+ ext)).
    cbn [last_dot]. by rewrite IH.
Qed.

Lemma lower_idempotent c : lower (lower c) = lower c.
Proof.
  destruct c as [[] [] [] [] [] [] [] []]; reflexivity.
Qed.

Lemma lowercase_append a b : lowercase (a +:+ b) = lowercase a +:+ lowercase b.
Proof.
  induction a as [| c a IH]; [done |].
  change (String c a +:+ b) with (String c (a +:+ b)).
  cbn [lowercase]. rewrite IH. reflexivity.
Qed.

Lemma length_lowercase s : String.length (lowercase s) = String.length s.
Proof. induction s as [| c s IH]; [done |]. cbn. by rewrite IH. Qed.

Lemma length_append a b :
  String.length (a +:+ b) = (String.length a + String.length b)%nat.
Proof.
  induction a as [| c a IH]; [done |].
  change (String c a +:+ b) with (String c (a +:+ b)).
  cbn [String.length Nat.add]. by rewrite IH.
Qed.

Lemma substring_whole s : String.substring 0 (String.length s) s = s.
Proof. induction s as [| c s IH]; [done |]. cbn. by rewrite IH. Qed.

Lemma substring_skip a b m :
  String.substring (String.length a) m (a +:+ b) = String.substring 0 m b.
Proof.
  induction a as [| c a IH]; [done |].
  change (String c a +:+ b) with (String c (a +:+ b)).
  cbn [String.length String.substring]. apply IH.
Qed.

Lemma ends_with_append a b : ends_with (a +:+ b) b = true.
Proof.
  unfold ends_with. rewrite length_append.
  apply andb_true_iff. split; [apply Nat.leb_le; lia |].
  replace (String.length a + String.length b - String.length b)%nat
    with (String.length a) by lia.
  rewrite substring_skip, substring_whole. apply String.eqb_refl.
Qed.

Lemma strip_extension_append base ext :
  occurs "." ext = false → ext ≠ "" → occurs "/" ext = false →
  strip_extension (base +:+ "." +:+ ext) = base.
Proof.
  intros Hdot Hne Hslash. unfold strip_extension.
  rewrite last_dot_append by done. rewrite Hslash.
  by destruct (String.eqb_spec ext "").
Qed.

Lemma substring_split s :
  ∀ k, (k ≤ String.length s)%nat →
    s = String.substring 0 k s +:+ String.substring k (String.length s - k) s.
Proof.
  induction s as [| c s IH]; intros k Hk.
  - by destruct k.
  - destruct k as [| k].
    + cbn [String.substring String.length Nat.sub]. by rewrite substring_whole.
    + cbn [String.substring String.length Nat.sub].
      change (String c ?a +:+ ?b) with (String c (a +:+ b)).
      f_equal. apply IH. cbn in Hk. lia.
Qed.

Lemma ends_with_inv s suffix :
  ends_with s suffix = true → ∃ pre, s = pre +:+ suffix.
Proof.
  unfold ends_with. intros H. apply andb_true_iff in H as [Hle Heq].
  apply Nat.leb_le in Hle. apply String.eqb_eq in Heq.
  exists (String.substring 0 (String.length s - String.length suffix) s).
  rewrite <- Heq at 2.
  pose proof (substring_split s (String.length s - String.length suffix)
                ltac:(lia)) as Hsplit.
  replace (String.length s - (String.length s - String.length suffix))%nat
    with (String.length suffix) in Hsplit by lia.
  exact Hsplit.
Qed.

Lemma lowercase_split name :
  ∀ pre suf, lowercase name = pre +:+ suf →
    ∃ a b, name = a +:+ b ∧ lowercase a = pre ∧ lowercase b = suf.
Proof.
  induction name as [| c name IH]; intros pre suf Hlow.
  - destruct pre; [| done]. exists "", "". by destruct suf.
  - destruct pre as [| p pre].
    + exists "", (String c name). done.
    + change (String p pre +:+ suf) with (String p (pre +:+ suf)) in Hlow.
      cbn [lowercase] in Hlow. injection Hlow as Hp Hrest.
      destruct (IH pre suf Hrest) as (a & b & -> & <- & <-).
      exists (String c a), b. cbn [lowercase]. by rewrite Hp.
Qed.

Lemma lower_dot c : lower c = "."%char → c = "."%char.
Proof.
  destruct c as [[] [] [] [] [] [] [] []]; vm_compute; intros H;
    first [reflexivity | discriminate H].
Qed.

Lemma has_audio_extension_inv file_name :
  has_audio_extension file_name = true →
  ∃ base ext, file_name = base +:+ "." +:+ ext ∧
              In (lowercase ext) AUDIO_EXTENSIONS.
Proof.
  unfold has_audio_extension. intros H.
  apply existsb_exists in H as (e & He & Hends).
  apply ends_with_inv in Hends as (pre & Hpre).
  apply lowercase_split in Hpre as (a & b & -> & _ & Hb).
  destruct b as [| c ext]; [done |].
  change ("." +:+ e) with (String "." e) in Hb.
  cbn [lowercase] in Hb. injection Hb as Hc Hext.
  apply lower_dot in Hc as ->. exists a, ext. by rewrite Hext.
Qed.

End FileNames.

(** X12. [strip_extension] takes off the last extension and nothing else: a
    name [base.ext], with [ext] not empty and free of ['.'] and ['/'],
    becomes [base]; a name without a ['.'] and a name that ends in ['.']
    are left as they are. *)
Theorem strip_extension_removes_last_extension :
  ∀ (base ext : string),
    Page.occurs "." ext = false →
    (ext ≠ "" → Page.occurs "/" ext = false →
     Page.strip_extension (base +:+ "." +:+ ext) = base) ∧
    Page.strip_extension ext = ext ∧
    Page.strip_extension (base +:+ ".") = base +:+ ".".
Proof.
  intros base ext Hdot. split; [| split].
  - intros Hne Hslash. by apply strip_extension_append.
  - unfold Page.strip_extension. by rewrite last_dot_None.
  - unfold Page.strip_extension.
    change (base +:+ ".") with (base +:+ "." +:+ "").
    by rewrite last_dot_append.
Qed.

Lemma strip_extension_removes_last_extension_witness :
  Page.strip_extension "weekly.sync.webm" = "weekly.sync".
Proof.
  apply (strip_extension_removes_last_extension "weekly.sync" "webm" eq_refl);
    [discriminate | reflexivity].
Defined.

(** X13. The files [handleFileSelect] does not skip are exactly those
    whose MIME type is one of the supported types, whatever the name, and
    those whose name ends in a ['.'] and one of the extensions webm, mp3,
    wav, ogg, flac, m4a, mp4, in any letter case, whatever the type. *)
Theorem supported_by_extension_or_type :
  ∀ (f : Page.File),
    Page.supported f = true ↔
    In (Page.type f) Page.SUPPORTED_AUDIO_TYPES ∨
    ∃ base ext, Page.name f = base +:+ "." +:+ ext ∧
                In (Page.lowercase ext) Page.AUDIO_EXTENSIONS.
Proof.
  intros f. unfold Page.supported. rewrite orb_true_iff. split.
  - intros [Htype | Hname].
    + left. unfold Page.includes in Htype.
      apply existsb_exists in Htype as (ty & Hin & Heq).
      apply String.eqb_eq in Heq. by rewrite Heq.
    + right. by apply has_audio_extension_inv.
  - intros [Htype | (base & ext & Hname & Hext)].
    + left. unfold Page.includes.
      apply existsb_exists. exists (Page.type f). split; [done |].
      apply String.eqb_refl.
    + right. unfold Page.has_audio_extension.
      apply existsb_exists. exists (Page.lowercase ext). split; [done |].
      rewrite Hname, lowercase_append.
      exact (ends_with_append (Page.lowercase base) ("." +:+ Page.lowercase ext)).
Qed.

Lemma supported_by_extension_or_type_witness :
  Page.supported {| Page.name := "Standup.Mp3"; Page.type := ""; Page.bytes := [] |}
  = true.
Proof.
  apply (supported_by_extension_or_type
           {| Page.name := "Standup.Mp3"; Page.type := ""; Page.bytes := [] |}).
  right. exists "Standup", "Mp3". split; [reflexivity |]. cbn. tauto.
Defined.



(** ** From the popup to the recorder *)

(** X15. The popup opens no recorder window without a tab id.  With a tab
    id other than 0 (an integer a double holds exactly) and any capture
    mode of the popup, the query string it builds is read back by the
    recorder as the mode, the device and the tab id it was built from: such
    a window never shows "Invalid parameters", its mount is the start of a
    session with those parameters. *)
Theorem popup_query_is_accepted :
  ∀ (captureMode selectedDevice : string) (tab_id : option Z),
    ((tab_id = None ∨ tab_id = Some 0) →
       Popup.startRecording captureMode selectedDevice tab_id
       = JS.Rejected "No active tab found") ∧
    (∀ t, tab_id = Some t → t ≠ 0 → Z.abs t < 2 ^ 53 →
       Popup.CaptureMode captureMode →
       ∃ search,
         Popup.startRecording captureMode selectedDevice tab_id = JS.Resolved search ∧
         Recorder.getParams search
         = Some {| Recorder.mode := captureMode;
                   Recorder.deviceId := selectedDevice;
                   Recorder.tabId := JS.Finite t |} ∧
         ∀ c P now w,
           Recorder.mount c P now search w
           = Recorder.startRecording c P now
               {| Recorder.mode := captureMode;
                  Recorder.deviceId := selectedDevice;
                  Recorder.tabId := JS.Finite t |} w).
Proof.
  intros captureMode selectedDevice tab_id. split.
  - by intros [-> | ->].
  - intros t -> Ht Hsafe Hmode. unfold Popup.startRecording. cbn.
    destruct (Z.eqb_spec t 0) as [| _]; [done |]. cbn.
    eexists. split; [reflexivity |].
    assert (captureMode ≠ "") as Hne by (destruct Hmode as [-> | [-> | ->]]; done).
    pose proof (getParams_of_popup_query captureMode selectedDevice t Hne Ht)
      as Hparams.
    rewrite to_double_exact in Hparams by done.
    split; [exact Hparams |].
    intros c P now w. unfold Recorder.mount. by rewrite Hparams.
Qed.

Lemma popup_query_is_accepted_witness :
  ∃ search,
    Popup.startRecording "both" "mic-1" (Some 7) = JS.Resolved search ∧
    Recorder.getParams search = Some Samples.both_params.
Proof.
  destruct (popup_query_is_accepted "both" "mic-1" (Some 7)) as [_ Hopen].
  destruct (Hopen 7 eq_refl ltac:(lia) ltac:(cbn; lia)
              (or_intror (or_intror eq_refl)))
    as (search & Hquery & Hparams & _).
  exists search. split; [exact Hquery | exact Hparams].
Defined.

(** ** The recorder window over a whole session *)

Section Sessions.
Import JS Recorder Lifecycle.

(** What a start never touches. *)
Lemma startRecording_quiet c P now params w :
  duration (ui (startRecording c P now params w)) = duration (ui w) ∧
  encoderStops (browser (startRecording c P now params w)) = encoderStops (browser w) ∧
  closedContexts (browser (startRecording c P now params w))
  = closedContexts (browser w) ∧
  timeouts (browser (startRecording c P now params w)) = timeouts (browser w) ∧
  artifacts (browser (startRecording c P now params w)) = artifacts (browser w) ∧
  saveCalls (browser (startRecording c P now params w)) = saveCalls (browser w) ∧
  database (browser (startRecording c P now params w)) = database (browser w).
Proof.
  start_unfold.
  destruct (_ || _).
  - destruct (getMediaStreamId P (tabId params)) as [sid | e]; [| done].
    cbn -[truthy_str].
    destruct (getUserMedia P (TabCapture sid)) as [tabStream | e]; [| done].
    rewrite stopTracks_stopAll.
    destruct (_ && _).
    + destruct (getUserMedia P (Microphone (deviceId params))) as [mic | e];
        [| done].
      by destruct c.
    + by destruct c.
  - cbn. destruct (getUserMedia P (Microphone (deviceId params))) as [mic | e];
      [| done].
    by destruct c.
Qed.

(** A start ends recording, with a fresh encoder, or stopped, with an
    error and the encoder ref as it was. *)
Lemma startRecording_outcome c P now params w :
  (status (ui (startRecording c P now params w)) = recording ∧
   error (ui (startRecording c P now params w)) = error (ui w) ∧
   chunksRef (refs (startRecording c P now params w)) = [] ∧
   startTimeRef (refs (startRecording c P now params w)) = now ∧
   ∃ s, mediaRecorderRef (refs (startRecording c P now params w))
        = Some {| stream := s; state := Recording; timeslice := 1000 |}) ∨
  (status (ui (startRecording c P now params w)) = stopped ∧
   (∃ e, error (ui (startRecording c P now params w)) = Some e) ∧
   mediaRecorderRef (refs (startRecording c P now params w))
   = mediaRecorderRef (refs w) ∧
   streamRef (refs (startRecording c P now params w)) = streamRef (refs w) ∧
   analyserRef (refs (startRecording c P now params w)) = analyserRef (refs w) ∧
   pendingFrames (browser (startRecording c P now params w))
   = pendingFrames (browser w)).
Proof.
  start_unfold.
  destruct (_ || _).
  - destruct (getMediaStreamId P (tabId params)) as [sid | e];
      [| right; cbn; eauto 10].
    cbn -[truthy_str].
    destruct (getUserMedia P (TabCapture sid)) as [tabStream | e];
      [| right; cbn; eauto 10].
    rewrite stopTracks_stopAll.
    destruct (_ && _).
    + destruct (getUserMedia P (Microphone (deviceId params))) as [mic | e];
        [| right; cbn; eauto 10].
      left. destruct c; cbn; eauto 10.
    + left. destruct c; cbn; eauto 10.
  - cbn. destruct (getUserMedia P (Microphone (deviceId params))) as [mic | e];
      [| right; cbn; eauto 10].
    left. destruct c; cbn; eauto 10.
Qed.

(** An event leaves the status as it is or ends the session. *)
Lemma step_status c e w :
  status (ui (step c e w)) = status (ui w) ∨ status (ui (step c e w)) = stopped.
Proof.
  destruct e as [| env | data | now | data]; cbn [step].
  - destruct (status (ui w)) eqn:Hst; try by left.
    left. destruct (keeps_stopRecording c w) as (-> & _). by rewrite Hst.
  - destruct (timeouts (browser w)) as [| d rest]; [by left |].
    right. by destruct (saveCallback_effect env d (set_timeouts rest w)) as (-> & _).
  - left. destruct (mediaRecorderRef (refs w)); [| done].
    unfold ondataavailable. by destruct (0 <? JS.size data).
  - left. by destruct (status (ui w)) eqn:Hst; cbn; rewrite ?Hst.
  - left. destruct (pendingFrames (browser w)) as [| h rest]; [done |].
    unfold updateAudioLevels; cbn; by destruct (analyserRef (refs w)).
Qed.

Lemma step_without_click c e w :
  is_click e = false → is_recording w →
  is_recording (step c e w) ∧
  chunksRef (refs (step c e w)) = (chunksRef (refs w) ++ kept_chunk e)%list ∧
  same_session w (step c e w).
Proof.
  intros Hclick (Hst & (m & Hm & Hstate) & Hto).
  destruct e as [| env | data | now | data]; [done | | | |]; cbn [step kept_chunk].
  - rewrite Hto, app_nil_r. unfold is_recording. eauto 10 using same_session_refl.
  - rewrite Hm. unfold ondataavailable. destruct (0 <? JS.size data).
    + unfold is_recording, same_session. cbn. eauto 20.
    + rewrite app_nil_r. unfold is_recording. eauto 10 using same_session_refl.
  - rewrite Hst, app_nil_r. unfold is_recording, same_session. cbn. eauto 20.
  - rewrite app_nil_r. destruct (pendingFrames (browser w)) as [| h rest].
    + unfold is_recording. eauto 10 using same_session_refl.
    + unfold updateAudioLevels. cbn. destruct (analyserRef (refs w));
        unfold is_recording, same_session; cbn; eauto 20.
Qed.

Lemma clicks_cons e events :
  clicks (e :: events) = ((if is_click e then 1 else 0) + clicks events)%nat.
Proof.
  unfold clicks. rewrite filter_cons.
  by destruct (is_click e); destruct (decide _).
Qed.

Lemma run_without_click c events w :
  clicks events = 0%nat → is_recording w →
  is_recording (run c events w) ∧
  chunksRef (refs (run c events w))
  = (chunksRef (refs w) ++ filter (λ d, 0 < JS.size d) (reported events))%list ∧
  same_session w (run c events w).
Proof.
  unfold run. revert w.
  induction events as [| e events IH]; intros w Hclicks Hrec.
  - cbn. rewrite app_nil_r. eauto using same_session_refl.
  - rewrite clicks_cons in Hclicks.
    destruct (is_click e) eqn:Hclick; [done |].
    destruct (step_without_click c e w Hclick Hrec) as (Hrec' & Hchunks & Hsame).
    destruct (IH (step c e w) Hclicks Hrec') as (Hrec'' & Hchunks' & Hsame').
    cbn [foldl]. split; [done |]. split.
    + by rewrite Hchunks', Hchunks, reported_cons, app_assoc.
    + by eapply same_session_trans.
Qed.

Lemma leaves_loop_compose f g :
  leaves_loop f → leaves_loop g → leaves_loop (λ w, g (f w)).
Proof.
  intros Hf Hg w.
  destruct (Hf w) as (?&?&?&?&?&?), (Hg (f w)) as (?&?&?&?&?&?).
  repeat split; congruence.
Qed.

Lemma leaves_loop_stopEncoder : leaves_loop stopEncoder.
Proof.
  intros w. unfold stopEncoder.
  destruct (mediaRecorderRef (refs w)) as [m |]; [| done].
  by destruct (state m).
Qed.

Lemma leaves_loop_stopStreams : leaves_loop stopStreams.
Proof. intros w. by rewrite stopStreams_stopAll. Qed.

Lemma leaves_loop_releaseContext : leaves_loop releaseContext.
Proof.
  intros w. unfold releaseContext. by destruct (audioContextRef (refs w)).
Qed.

Lemma leaves_loop_setTimeout : leaves_loop setTimeout.
Proof. done. Qed.

Lemma leaves_loop_teardown :
  leaves_loop (λ w, setTimeout (releaseContext (stopStreams (stopEncoder w)))).
Proof.
  apply (leaves_loop_compose (λ w, releaseContext (stopStreams (stopEncoder w))));
    [| apply leaves_loop_setTimeout].
  apply (leaves_loop_compose (λ w, stopStreams (stopEncoder w)));
    [| apply leaves_loop_releaseContext].
  apply (leaves_loop_compose stopEncoder);
    [apply leaves_loop_stopEncoder | apply leaves_loop_stopStreams].
Qed.

Lemma stopRecording_requests c w :
  mediaRequests (browser (stopRecording c w)) = mediaRequests (browser w) ∧
  startTimeRef (refs (stopRecording c w)) = startTimeRef (refs w).
Proof.
  unfold stopRecording. destruct c.
  - by destruct (leaves_loop_teardown w) as (_ & _ & _ & _ & -> & ->).
  - destruct (leaves_loop_teardown (stopAnimation w)) as (_ & _ & _ & _ & -> & ->).
    unfold stopAnimation. by destruct (truthy_handle _).
Qed.

Lemma stopRecording_Plain_loop w :
  analyserRef (refs (stopRecording Plain w)) = analyserRef (refs w) ∧
  pendingFrames (browser (stopRecording Plain w)) = pendingFrames (browser w) ∧
  audioLevels (ui (stopRecording Plain w)) = audioLevels (ui w).
Proof.
  unfold stopRecording.
  by destruct (leaves_loop_teardown w) as (-> & _ & -> & -> & _).
Qed.

Lemma stopAnimation_loop_off w :
  loop_running w ∨ loop_off w → loop_off (stopAnimation w).
Proof.
  unfold stopAnimation, loop_off.
  intros [(h & Han & Hh & Hpending) | (Han & Hpending & Hlevels)].
  - rewrite Hh. cbn. rewrite Hpending. cbn.
    rewrite decide_False by (intros Hne; by apply Hne). done.
  - destruct (truthy_handle _); cbn; rewrite Hpending; done.
Qed.

Lemma stopRecording_loop_off w :
  loop_running w ∨ loop_off w → loop_off (stopRecording WithLevels w).
Proof.
  intros Hloop. apply stopAnimation_loop_off in Hloop as (Han & Hpending & Hlevels).
  unfold stopRecording, loop_off.
  by destruct (leaves_loop_teardown (stopAnimation w)) as (-> & _ & -> & -> & _).
Qed.




(** A window that is not recording and has no save pending stays so. *)
Lemma step_idle c e w :
  status (ui w) ≠ recording → timeouts (browser w) = [] →
  status (ui (step c e w)) = status (ui w) ∧
  timeouts (browser (step c e w)) = [] ∧
  error (ui (step c e w)) = error (ui w) ∧
  artifacts (browser (step c e w)) = artifacts (browser w) ∧
  saveCalls (browser (step c e w)) = saveCalls (browser w) ∧
  database (browser (step c e w)) = database (browser w).
Proof.
  intros Hst Hto. destruct e as [| env | data | now | data]; cbn [step].
  - by destruct (status (ui w)) eqn:Hw.
  - by rewrite Hto.
  - destruct (mediaRecorderRef (refs w)); [| done].
    unfold ondataavailable. by destruct (0 <? JS.size data).
  - by destruct (status (ui w)) eqn:Hw.
  - destruct (pendingFrames (browser w)) as [| h rest]; [done |].
    unfold updateAudioLevels. cbn. by destruct (analyserRef (refs w)).
Qed.

Lemma run_idle c events w :
  status (ui w) ≠ recording → timeouts (browser w) = [] →
  status (ui (run c events w)) = status (ui w) ∧
  error (ui (run c events w)) = error (ui w) ∧
  artifacts (browser (run c events w)) = artifacts (browser w) ∧
  saveCalls (browser (run c events w)) = saveCalls (browser w) ∧
  database (browser (run c events w)) = database (browser w).
Proof.
  unfold run. revert w.
  induction events as [| e events IH]; intros w Hst Hto; [done |].
  destruct (step_idle c e w Hst Hto) as (Hst' & Hto' & He & Ha & Hs & Hd).
  cbn [foldl]. rewrite <- Hst', <- He, <- Ha, <- Hs, <- Hd.
  apply IH; [by rewrite Hst' | done].
Qed.

Lemma mount_quiet c P now search w :
  timeouts (browser (mount c P now search w)) = timeouts (browser w) ∧
  artifacts (browser (mount c P now search w)) = artifacts (browser w) ∧
  saveCalls (browser (mount c P now search w)) = saveCalls (browser w) ∧
  database (browser (mount c P now search w)) = database (browser w) ∧
  encoderStops (browser (mount c P now search w)) = encoderStops (browser w) ∧
  closedContexts (browser (mount c P now search w)) = closedContexts (browser w).
Proof.
  unfold mount. destruct (getParams search) as [params |]; [| done].
  by destruct (startRecording_quiet c P now params w)
    as (_ & -> & -> & -> & -> & -> & ->).
Qed.

(** A start that succeeds holds every stream it was handed. *)
Lemma startRecording_holds_streams c P now params w :
  status (ui (startRecording c P now params w)) = recording →
  ∃ reqs,
    mediaRequests (browser (startRecording c P now params w))
    = (mediaRequests (browser w) ++ reqs)%list ∧
    ∀ r s, r ∈ reqs → getUserMedia P r = Resolved s →
      list_to_set (getTracks s)
      ⊆ held_tracks (streamRef (refs (startRecording c P now params w)))
          (micStream (refs (startRecording c P now params w))).
Proof.
  start_unfold.
  destruct (_ || _).
  - destruct (getMediaStreamId P (tabId params)) as [sid | e]; [| done].
    cbn -[truthy_str].
    destruct (getUserMedia P (TabCapture sid)) as [tabStream | e] eqn:Htab;
      [| done].
    rewrite stopTracks_stopAll.
    destruct (_ && _).
    + destruct (getUserMedia P (Microphone (deviceId params))) as [mic | e] eqn:Hmic;
        [| done].
      intros _. exists [TabCapture sid; Microphone (deviceId params)].
      destruct c; cbn.
      all: split; [by rewrite <- app_assoc |].
      all: intros r s Hr Hs.
      all: apply elem_of_cons in Hr as [-> | Hr];
        [assert (s = tabStream) as -> by congruence; set_solver |].
      all: apply list_elem_of_singleton in Hr as ->.
      all: assert (s = mic) as -> by congruence; set_solver.
    + intros _. exists [TabCapture sid].
      destruct c; cbn.
      all: split; [done |].
      all: intros r s Hr Hs; apply list_elem_of_singleton in Hr as ->.
      all: assert (s = tabStream) as -> by congruence; set_solver.
  - cbn. destruct (getUserMedia P (Microphone (deviceId params))) as [mic | e] eqn:Hmic;
      [| done].
    intros _. exists [Microphone (deviceId params)].
    destruct c; cbn.
    all: split; [done |].
    all: intros r s Hr Hs; apply list_elem_of_singleton in Hr as ->.
    all: assert (s = mic) as -> by congruence; set_solver.
Qed.

(** A mount that reaches the recording state is a recording session. *)
Lemma mount_is_recording c P now search database :
  status (ui (mount c P now search (initial database))) = recording →
  is_recording (mount c P now search (initial database)).
Proof.
  intros Hst. split; [done |].
  destruct (mount_quiet c P now search (initial database)) as (Hto & _).
  split; [| by rewrite Hto].
  unfold mount in *. destruct (getParams search) as [params |]; [| done].
  destruct (startRecording_outcome c P now params (initial database))
    as [(_ & _ & _ & _ & s & Hm) | (Hstopped & _)]; [| congruence].
  eexists. split; [exact Hm | done].
Qed.

(** A start of the component with the level bars that succeeds has the
    level loop running. *)
Lemma startRecording_loop_running P now params w :
  pendingFrames (browser w) = [] →
  status (ui (startRecording WithLevels P now params w)) = recording →
  loop_running (startRecording WithLevels P now params w).
Proof.
  intros Hpending. unfold loop_running. start_unfold.
  destruct (_ || _).
  - destruct (getMediaStreamId P (tabId params)) as [sid | e]; [| done].
    cbn -[truthy_str].
    destruct (getUserMedia P (TabCapture sid)) as [tabStream | e]; [| done].
    rewrite stopTracks_stopAll.
    destruct (_ && _).
    + destruct (getUserMedia P (Microphone (deviceId params))) as [mic | e];
        [| done].
      intros _. cbn. rewrite Hpending. by eexists.
    + intros _. cbn. rewrite Hpending. by eexists.
  - cbn. destruct (getUserMedia P (Microphone (deviceId params))) as [mic | e];
      [| done].
    intros _. cbn. rewrite Hpending. by eexists.
Qed.

(** While the session records, the loop keeps running: each frame that is
    drawn requests the next. *)
Lemma step_loop_running c e w :
  is_click e = false → is_recording w → loop_running w →
  loop_running (step c e w).
Proof.
  intros Hclick (Hst & _ & Hto) (h & Han & Hh & Hpending).
  destruct e as [| env | data | now | data]; [done | | | |]; cbn [step].
  - rewrite Hto. by exists h.
  - destruct (mediaRecorderRef (refs w)); [| by exists h].
    unfold ondataavailable. destruct (0 <? JS.size data); by exists h.
  - rewrite Hst. by exists h.
  - rewrite Hpending. unfold updateAudioLevels. cbn. rewrite Han. cbn.
    by eexists.
Qed.

Lemma run_loop_running c events w :
  clicks events = 0%nat → is_recording w → loop_running w →
  loop_running (run c events w).
Proof.
  unfold run. revert w.
  induction events as [| e events IH]; intros w Hclicks Hrec Hloop; [done |].
  rewrite clicks_cons in Hclicks.
  destruct (is_click e) eqn:Hclick; [done |].
  destruct (step_without_click c e w Hclick Hrec) as (Hrec' & _).
  cbn [foldl]. apply IH; [done | done |]. by apply step_loop_running.
Qed.

(** Once off, the loop stays off. *)
Lemma step_loop_off e w : loop_off w → loop_off (step WithLevels e w).
Proof.
  intros Hoff. pose proof Hoff as (Han & Hpending & Hlevels).
  destruct e as [| env | data | now | data]; cbn [step].
  - destruct (status (ui w)) eqn:Hst; [done | | done].
    apply stopRecording_loop_off. by right.
  - destruct (timeouts (browser w)) as [| d rest]; [done |].
    destruct (saveCallback_refs env d (set_timeouts rest w))
      as (Hrefs & _ & _ & _ & _ & Hp & Hl & _).
    unfold loop_off. by rewrite Hrefs, Hp, Hl.
  - destruct (mediaRecorderRef (refs w)); [| done].
    unfold ondataavailable. by destruct (0 <? JS.size data).
  - by destruct (status (ui w)) eqn:Hst.
  - by rewrite Hpending.
Qed.

Lemma run_loop_off events w : loop_off w → loop_off (run WithLevels events w).
Proof.
  unfold run. revert w.
  induction events as [| e events IH]; intros w Hoff; [done |].
  cbn [foldl]. by apply IH, step_loop_off.
Qed.

Lemma step_counted c e w n :
  counted n w → counted (n + if is_click e then 1 else 0) (step c e w).
Proof.
  intros (Hn & Hsaves & Henc & Hctx). unfold counted.
  destruct e as [| env | data | now | data].
  - cbn [is_click step]. destruct (status (ui w)) eqn:Hst;
      [repeat split; lia | | repeat split; lia].
    destruct (click_effect c w Hst)
      as (_ & _ & _ & _ & Ha & Hs & Hm & He & Hc & Hcc & _ & Ht).
    cbn [step] in *. rewrite Hst in *.
    rewrite Ha, Hs, Hm, He, Hc, Hcc, Ht, length_app. cbn [length context_closes].
    assert (encoder_stops (stopped_encoder <$> mediaRecorderRef (refs w)) = 0%nat)
      as -> by (by destruct (mediaRecorderRef (refs w))).
    repeat split; lia.
  - cbn [is_click]. destruct (timeouts (browser w)) as [| d rest] eqn:Hto.
    { cbn [step]. rewrite !Hto. cbn [length] in *. repeat split; lia. }
    destruct (timeout_effect c env w d rest Hto)
      as (_ & -> & -> & -> & -> & _ & -> & ->).
    rewrite !length_app. cbn [length] in *.
    destruct (0 <? _); cbn [length]; repeat split; lia.
  - cbn [is_click step]. destruct (mediaRecorderRef (refs w)) as [m |] eqn:Hm;
      [| rewrite Hm; repeat split; lia].
    unfold ondataavailable. destruct (0 <? JS.size data); cbn;
      rewrite Hm; repeat split; lia.
  - cbn [is_click step]. destruct (status (ui w)); cbn; repeat split; lia.
  - cbn [is_click step]. destruct (pendingFrames (browser w)) as [| h rest];
      [repeat split; lia |].
    unfold updateAudioLevels. cbn. destruct (analyserRef (refs w)); cbn;
      repeat split; lia.
Qed.

Lemma run_counted c events w n :
  counted n w → counted (n + clicks events) (run c events w).
Proof.
  unfold run. revert w n.
  induction events as [| e events IH]; intros w n Hw.
  - cbn. by rewrite Nat.add_0_r.
  - cbn [foldl]. rewrite clicks_cons, Nat.add_assoc. by apply IH, step_counted.
Qed.

Lemma mount_counted c P now search database :
  counted 0 (mount c P now search (initial database)).
Proof.
  destruct (mount_quiet c P now search (initial database))
    as (Hto & Ha & Hs & _ & He & Hc).
  unfold counted. rewrite Hto, Ha, Hs, He, Hc. cbn.
  split; [done |]. split; [done |]. split.
  - destruct (mediaRecorderRef _) as [m |]; cbn; [destruct (state m) |]; lia.
  - destruct (audioContextRef _); cbn; lia.
Qed.

End Sessions.

(** X16. The status of a window never moves back: whatever the browser
    runs on it, a window stays where it is in the order starting,
    recording, stopped or moves forward; a stopped window stays stopped. *)
Theorem status_never_moves_back :
  ∀ (c : Recorder.Component) (events : list Recorder.Event) (w : Recorder.World),
    (Lifecycle.rank (Recorder.status (Recorder.ui w))
     ≤ Lifecycle.rank (Recorder.status (Recorder.ui (Recorder.run c events w))))%nat ∧
    (Recorder.status (Recorder.ui w) = Recorder.stopped →
     Recorder.status (Recorder.ui (Recorder.run c events w)) = Recorder.stopped).
Proof.
  intros c events w.
  assert (Lifecycle.rank (Recorder.status (Recorder.ui w))
          ≤ Lifecycle.rank
              (Recorder.status (Recorder.ui (Recorder.run c events w))))%nat
    as Hrank.
  { unfold Recorder.run. revert w.
    induction events as [| e events IH]; intros w; [done |].
    cbn [foldl]. etrans; [| apply IH].
    destruct (step_status c e w) as [-> | ->]; [done |].
    destruct (Recorder.status (Recorder.ui w)); cbn; lia. }
  split; [exact Hrank |].
  intros Hst. rewrite Hst in Hrank.
  destruct (Recorder.status (Recorder.ui (Recorder.run c events w)));
    cbn in Hrank; [lia | lia | done].
Qed.

Lemma status_never_moves_back_witness :
  Recorder.status
    (Recorder.ui
       (Recorder.run Recorder.Plain [Recorder.ClickStop; Recorder.IntervalTick 5000]
          (Recorder.session Recorder.Plain Samples.without_microphone 0
             Samples.both_query Samples.empty_database [])))
  = Recorder.stopped.
Proof.
  apply (status_never_moves_back Recorder.Plain
           [Recorder.ClickStop; Recorder.IntervalTick 5000]).
  reflexivity.
Defined.

(** X17. A window whose mount did not reach the recording state (its
    parameters were rejected, or the start failed) never saves anything:
    whatever events follow, no blob is assembled, [saveRecording] is not
    called, the database is as it was, and the status and the error shown
    stay those of the mount. *)
Theorem unstarted_window_never_saves :
  ∀ (c : Recorder.Component) (P : Recorder.Platform) (now : Z)
    (search : JS.URLSearchParams) (database : Storage.IDBDatabase)
    (events : list Recorder.Event),
    Recorder.status
      (Recorder.ui (Recorder.mount c P now search (Recorder.initial database)))
    ≠ Recorder.recording →
    let w0 := Recorder.mount c P now search (Recorder.initial database) in
    let w := Recorder.session c P now search database events in
    Recorder.status (Recorder.ui w) = Recorder.status (Recorder.ui w0) ∧
    Recorder.error (Recorder.ui w) = Recorder.error (Recorder.ui w0) ∧
    Recorder.artifacts (Recorder.browser w) = [] ∧
    Recorder.saveCalls (Recorder.browser w) = [] ∧
    Recorder.database (Recorder.browser w) = database.
Proof.
  intros c P now search database events Hst w0 w. subst w0 w.
  unfold Recorder.session.
  destruct (mount_quiet c P now search (Recorder.initial database))
    as (Hto & Ha & Hs & Hd & _).
  destruct (run_idle c events _ Hst Hto) as (-> & -> & -> & -> & ->).
  by rewrite Ha, Hs, Hd.
Qed.

Lemma unstarted_window_never_saves_witness :
  Recorder.saveCalls
    (Recorder.browser
       (Recorder.session Recorder.Plain Samples.without_microphone 0
          Samples.both_query Samples.empty_database
          [Recorder.DataAvailable [Byte.x01]; Recorder.ClickStop;
           Recorder.TimeoutFires Samples.first_save]))
  = [].
Proof.
  apply (unstarted_window_never_saves Recorder.Plain Samples.without_microphone 0
           Samples.both_query Samples.empty_database).
  vm_compute. discriminate.
Defined.







(** X21. After a mount that reached the recording state, a click on stop
    stops every track of every stream the browser handed out for the
    requests of the window, whatever data, ticks, frames or timeouts came
    before the click. *)
Theorem stop_releases_every_stream :
  ∀ (c : Recorder.Component) (P : Recorder.Platform) (now : Z)
    (search : JS.URLSearchParams) (database : Storage.IDBDatabase)
    (events : list Recorder.Event),
    Recorder.status
      (Recorder.ui (Recorder.mount c P now search (Recorder.initial database)))
    = Recorder.recording →
    Lifecycle.clicks events = 0%nat →
    let w :=
      Recorder.session c P now search database (events ++ [Recorder.ClickStop]) in
    ∀ s, Lifecycle.handed_out P w s → Recorder.all_stopped s w.
Proof.
  intros c P now search database events Hst Hclicks w s (r & Hr & Hs).
  subst w. unfold Recorder.session in *. rewrite run_app in *.
  set (w0 := Recorder.mount c P now search (Recorder.initial database)) in *.
  destruct (run_without_click c events w0 Hclicks (mount_is_recording _ _ _ _ _ Hst))
    as ((Hst1 & _) & _ & Hsame).
  destruct Hsame as (_ & Hstream & Hmic & _ & _ & _ & Hreq & _).
  set (w1 := Recorder.run c events w0) in *.
  change (Recorder.run c [Recorder.ClickStop] w1)
    with (Recorder.step c Recorder.ClickStop w1) in *.
  destruct (click_effect c w1 Hst1) as (_ & _ & _ & _ & _ & _ & _ & _ & _ & _ & Htr & _).
  assert (Recorder.mediaRequests
            (Recorder.browser (Recorder.step c Recorder.ClickStop w1))
          = Recorder.mediaRequests (Recorder.browser w0)) as Hreq'.
  { cbn [Recorder.step]. rewrite Hst1.
    by destruct (stopRecording_requests c w1) as [-> _]. }
  rewrite Hreq' in Hr. intros t Ht. rewrite Htr, Hstream, Hmic.
  apply elem_of_union_r.
  subst w0. unfold Recorder.mount in *.
  destruct (Recorder.getParams search) as [params |]; [| done].
  destruct (startRecording_holds_streams c P now params
              (Recorder.initial database) Hst) as (reqs & Hreqs & Hheld).
  rewrite Hreqs in Hr. cbn [Recorder.initial Recorder.browser
                            Recorder.mediaRequests app] in Hr.
  apply (Hheld r s Hr Hs). by apply elem_of_list_to_set.
Qed.

Lemma stop_releases_every_stream_witness :
  let w := Recorder.session Recorder.Plain Samples.granting 0 Samples.both_query
             Samples.empty_database
             [Recorder.DataAvailable [Byte.x01]; Recorder.ClickStop] in
  Recorder.all_stopped Samples.tab_stream w ∧
  Recorder.all_stopped Samples.mic_stream w.
Proof.
  intros w.
  pose proof (stop_releases_every_stream Recorder.Plain Samples.granting 0
                Samples.both_query Samples.empty_database
                [Recorder.DataAvailable [Byte.x01]] eq_refl eq_refl) as Hall.
  split; apply Hall.
  - exists (Recorder.TabCapture "stream-id"). split; [| reflexivity].
    apply list_elem_of_here.
  - exists (Recorder.Microphone "mic-1"). split; [| reflexivity].
    apply list_elem_of_further, list_elem_of_here.
Defined.

(** X22. In the component with the level bars, after a mount that
    reached the recording state the level loop runs until the click on
    stop: an analyser is attached and exactly one animation frame is
    requested, each frame drawn requesting the next.  The click cancels the
    frame, detaches the analyser and sets the bars to 0, and no later event
    starts the loop again. *)
Theorem level_loop_runs_until_stop :
  ∀ (P : Recorder.Platform) (now : Z) (search : JS.URLSearchParams)
    (database : Storage.IDBDatabase) (events later : list Recorder.Event),
    Recorder.status
      (Recorder.ui
         (Recorder.mount Recorder.WithLevels P now search
            (Recorder.initial database)))
    = Recorder.recording →
    Lifecycle.clicks events = 0%nat →
    Lifecycle.loop_running
      (Recorder.session Recorder.WithLevels P now search database events) ∧
    Lifecycle.loop_off
      (Recorder.session Recorder.WithLevels P now search database
         (events ++ Recorder.ClickStop :: later)).
Proof.
  intros P now search database events later Hst Hclicks.
  unfold Recorder.session.
  pose proof (mount_is_recording _ _ _ _ _ Hst) as Hrec.
  assert (Lifecycle.loop_running
            (Recorder.mount Recorder.WithLevels P now search
               (Recorder.initial database))) as Hloop.
  { unfold Recorder.mount in *.
    destruct (Recorder.getParams search) as [params |]; [| done].
    by apply startRecording_loop_running. }
  pose proof (run_loop_running Recorder.WithLevels events _ Hclicks Hrec Hloop)
    as Hloop'.
  split; [exact Hloop' |].
  rewrite run_app.
  destruct (run_without_click Recorder.WithLevels events _ Hclicks Hrec)
    as ((Hst' & _) & _).
  set (w1 := Recorder.run Recorder.WithLevels events _) in *.
  change (Lifecycle.loop_off
            (Recorder.run Recorder.WithLevels later
               (Recorder.step Recorder.WithLevels Recorder.ClickStop w1))).
  apply run_loop_off. cbn [Recorder.step]. rewrite Hst'.
  apply stopRecording_loop_off. by left.
Qed.

Lemma level_loop_runs_until_stop_witness :
  Recorder.pendingFrames
    (Recorder.browser
       (Recorder.session Recorder.WithLevels Samples.granting 0 Samples.both_query
          Samples.empty_database
          [Recorder.AnimationFrame [Byte.xff]; Recorder.ClickStop;
           Recorder.AnimationFrame [Byte.xff]]))
  = [].
Proof.
  destruct (level_loop_runs_until_stop Samples.granting 0 Samples.both_query
              Samples.empty_database [Recorder.AnimationFrame [Byte.xff]]
              [Recorder.AnimationFrame [Byte.xff]] eq_refl eq_refl)
    as (_ & _ & Hpending & _).
  exact Hpending.
Defined.

(** X23. In every session of a window, whatever the parameters, the
    answers of the browser and the events: [mediaRecorder.stop()] is called
    at most once and [audioContext.close()] at most once, no more blobs are
    assembled than the stop button was clicked, and [saveRecording] is
    called at most once per blob. *)
Theorem session_teardown_happens_once :
  ∀ (c : Recorder.Component) (P : Recorder.Platform) (now : Z)
    (search : JS.URLSearchParams) (database : Storage.IDBDatabase)
    (events : list Recorder.Event),
    let w := Recorder.session c P now search database events in
    (Recorder.encoderStops (Recorder.browser w) ≤ 1)%nat ∧
    (Recorder.closedContexts (Recorder.browser w) ≤ 1)%nat ∧
    (length (Recorder.artifacts (Recorder.browser w))
       + length (Recorder.timeouts (Recorder.browser w))
     ≤ Lifecycle.clicks events)%nat ∧
    (length (Recorder.saveCalls (Recorder.browser w))
     ≤ length (Recorder.artifacts (Recorder.browser w)))%nat.
Proof.
  intros c P now search database events w. subst w. unfold Recorder.session.
  destruct (run_counted c events _ 0 (mount_counted c P now search database))
    as (Hn & Hsaves & Henc & Hctx).
  cbn [Nat.add] in Hn. repeat split; lia.
Qed.

(** X24. In a window whose parameters were accepted, an error is only
    ever shown with the session stopped, whatever the browser answers and
    whatever events follow. *)
Theorem accepted_window_shows_errors_only_when_stopped :
  ∀ (c : Recorder.Component) (P : Recorder.Platform) (now : Z)
    (search : JS.URLSearchParams) (database : Storage.IDBDatabase)
    (events : list Recorder.Event),
    is_Some (Recorder.getParams search) →
    let w := Recorder.session c P now search database events in
    Recorder.error (Recorder.ui w) ≠ None →
    Recorder.status (Recorder.ui w) = Recorder.stopped.
Proof.
  intros c P now search database events [params Hparams] w. subst w.
  unfold Recorder.session, Recorder.mount. rewrite Hparams.
  by apply run_error_means_stopped, startRecording_error_means_stopped.
Qed.

Lemma accepted_window_shows_errors_only_when_stopped_witness :
  Recorder.status
    (Recorder.ui
       (Recorder.session Recorder.Plain Samples.without_microphone 0
          Samples.both_query Samples.empty_database [Recorder.IntervalTick 2000]))
  = Recorder.stopped.
Proof.
  apply (accepted_window_shows_errors_only_when_stopped Recorder.Plain
           Samples.without_microphone 0 Samples.both_query Samples.empty_database
           [Recorder.IntervalTick 2000]).
  - by eexists.
  - discriminate.
Defined.

(** X25. A start in a mode other than tab and both (the mode mic, and
    any other string) makes one request, for the microphone with the device
    id of the parameters.  Granted, the session records that stream itself
    and holds it in [streamRef]; nothing is connected to the speakers: the
    plain component builds no audio graph, the one with the level bars
    connects the stream's source to the analyser only.  Refused, the
    session ends stopped with the rejection as its error. *)
Theorem other_modes_record_the_microphone :
  ∀ (c : Recorder.Component) (P : Recorder.Platform) (now : Z)
    (params : Recorder.RecorderParams) (w : Recorder.World),
    Recorder.mode params ≠ "tab" →
    Recorder.mode params ≠ "both" →
    let w' := Recorder.startRecording c P now params w in
    let request := Recorder.Microphone (Recorder.deviceId params) in
    Recorder.mediaRequests (Recorder.browser w')
    = (Recorder.mediaRequests (Recorder.browser w) ++ [request])%list ∧
    (∀ s, Recorder.getUserMedia P request = JS.Resolved s →
       Recorder.status (Recorder.ui w') = Recorder.recording ∧
       Recorder.error (Recorder.ui w') = Recorder.error (Recorder.ui w) ∧
       Recorder.mediaRecorderRef (Recorder.refs w')
       = Some {| Recorder.stream := Recorder.OfStream s;
                 Recorder.state := Recorder.Recording;
                 Recorder.timeslice := 1000 |} ∧
       Recorder.streamRef (Recorder.refs w') = Some s ∧
       Recorder.audioContextRef (Recorder.refs w')
       = match c with
         | Recorder.Plain => Recorder.audioContextRef (Recorder.refs w)
         | Recorder.WithLevels =>
             Some {| Recorder.connections := [(Recorder.source, Recorder.analyser)];
                     Recorder.streamSources := [(Recorder.source, s)] |}
         end) ∧
    (∀ e, Recorder.getUserMedia P request = JS.Rejected e →
       w' = Recorder.setStatus Recorder.stopped
              (Recorder.setError e (Recorder.logRequest request w))).
Proof.
  intros c P now params w Htab Hboth w' request. subst w' request.
  start_unfold.
  apply String.eqb_neq in Htab. apply String.eqb_neq in Hboth.
  rewrite Htab, Hboth. cbn [orb].
  cbn. destruct (Recorder.getUserMedia P _) as [mic | e].
  - split; [by destruct c |]. split; [| done].
    intros s [= <-]. by destruct c.
  - split; [done |]. split; [done |]. by intros e' [= <-].
Qed.

Lemma other_modes_record_the_microphone_witness :
  let w' := Recorder.startRecording Recorder.WithLevels Samples.granting 0
              {| Recorder.mode := "mic"; Recorder.deviceId := "mic-1";
                 Recorder.tabId := JS.Finite 7 |}
              (Recorder.initial Samples.empty_database) in
  Recorder.status (Recorder.ui w') = Recorder.recording ∧
  Recorder.mediaRequests (Recorder.browser w') = [Recorder.Microphone "mic-1"] ∧
  Recorder.streamRef (Recorder.refs w') = Some Samples.mic_stream.
Proof.
  destruct (other_modes_record_the_microphone Recorder.WithLevels Samples.granting 0
              {| Recorder.mode := "mic"; Recorder.deviceId := "mic-1";
                 Recorder.tabId := JS.Finite 7 |}
              (Recorder.initial Samples.empty_database)
              ltac:(discriminate) ltac:(discriminate))
    as (Hreq & Hgranted & _).
  destruct (Hgranted Samples.mic_stream eq_refl) as (Hstatus & _ & _ & Hstream & _).
  split; [exact Hstatus |]. split; [exact Hreq | exact Hstream].
Defined.

(** ** The level bars, band by band *)

Section Bands.
Import JS Recorder.

Lemma sum_from_None dataArray count : ∀ j, sum_from dataArray j count None = None.
Proof. induction count as [| count IH]; intros j; [done | apply IH]. Qed.

Lemma sum_from_defined dataArray :
  ∀ count j acc,
    (j + count ≤ length dataArray)%nat →
    ∃ s, sum_from dataArray j count (Some acc) = Some s.
Proof.
  induction count as [| count IH]; intros j acc Hlen; [by eexists |].
  destruct (lookup_lt_is_Some_2 dataArray j) as [x Hx]; [lia |].
  cbn [sum_from]. rewrite Hx. apply IH. lia.
Qed.

Lemma sum_from_agree a b :
  ∀ count j acc,
    (∀ k, (j ≤ k < j + count)%nat → a !! k = b !! k) →
    sum_from a j count acc = sum_from b j count acc.
Proof.
  induction count as [| count IH]; intros j acc Hsame; [done |].
  cbn [sum_from]. rewrite (Hsame j) by lia. apply IH.
  intros k Hk. apply Hsame. lia.
Qed.

Lemma sum_from_le a b :
  ∀ count j acc acc' sa sb,
    (∀ k x y, (j ≤ k < j + count)%nat → a !! k = Some x → b !! k = Some y → x ≤ y) →
    acc ≤ acc' →
    sum_from a j count (Some acc) = Some sa →
    sum_from b j count (Some acc') = Some sb →
    sa ≤ sb.
Proof.
  induction count as [| count IH]; intros j acc acc' sa sb Hle Hacc Ha Hb.
  - cbn in Ha, Hb. congruence.
  - cbn [sum_from] in Ha, Hb.
    destruct (a !! j) as [x |] eqn:Hx; [| by rewrite sum_from_None in Ha].
    destruct (b !! j) as [y |] eqn:Hy; [| by rewrite sum_from_None in Hb].
    apply (IH (S j) (acc + x) (acc' + y) sa sb); [| | done | done].
    + intros k x' y' Hk. apply Hle. lia.
    + pose proof (Hle j x y ltac:(lia) Hx Hy). lia.
Qed.

Lemma Qcdiv_le_mono x y z : (x ≤ y)%Qc → (0 < z)%Qc → (x / z ≤ y / z)%Qc.
Proof.
  intros Hxy Hz. unfold Qcdiv. apply Qcmult_le_compat_r; [done |].
  by apply Qclt_le_weak, Qcinv_pos.
Qed.

Lemma min1_mono x y : (x ≤ y)%Qc → (min1 x ≤ min1 y)%Qc.
Proof.
  intros Hxy. unfold min1. repeat case_decide; try done.
  - exfalso. eauto using Qcle_trans.
  - by apply Qclt_le_weak, Qcnot_le_lt.
Qed.

Lemma computeLevels_lookup dataArray i :
  (i < NUM_BARS)%nat →
  computeLevels dataArray !! i
  = Some (level dataArray (length dataArray / NUM_BARS) i).
Proof.
  intros Hi. unfold computeLevels.
  by rewrite list_lookup_fmap, lookup_seq_lt.
Qed.

End Bands.

(** X26. Each bar shows its own band of the snapshot and nothing else:
    for two snapshots of the same length (of 5 bins or more), bar [i] is a
    number for both; it is the same when the snapshots agree on the bins
    of band [i], and it is no lower for the one that is no lower on every
    bin of the band. *)
Theorem levels_follow_their_bands :
  ∀ (a b : list Z) (i : nat),
    length a = length b →
    (Recorder.NUM_BARS ≤ length a)%nat →
    (i < Recorder.NUM_BARS)%nat →
    let step := (length a / Recorder.NUM_BARS)%nat in
    ∃ p q,
      Recorder.computeLevels a !! i = Some (Some p) ∧
      Recorder.computeLevels b !! i = Some (Some q) ∧
      ((∀ j, (i * step ≤ j < i * step + step)%nat → a !! j = b !! j) → p = q) ∧
      ((∀ j x y, (i * step ≤ j < i * step + step)%nat →
                 a !! j = Some x → b !! j = Some y → x ≤ y) →
       (p ≤ q)%Qc).
Proof.
  intros a b i Hlen Hbars Hi step.
  rewrite !computeLevels_lookup by done. rewrite <- Hlen. fold step.
  assert (0 < step)%nat as Hstep.
  { subst step. apply Nat.div_str_pos. unfold Recorder.NUM_BARS in *. lia. }
  assert (i * step + step ≤ length a)%nat as Hfit by (by apply bars_fit).
  unfold Recorder.level.
  destruct (sum_from_defined a step (i * step)%nat 0 Hfit) as (sa & Hsa).
  destruct (sum_from_defined b step (i * step)%nat 0 ltac:(lia)) as (sb & Hsb).
  rewrite Hsa, Hsb.
  destruct (Nat.eqb_spec step 0) as [| _]; [lia |].
  eexists _, _. split; [reflexivity |]. split; [reflexivity |]. split.
  - intros Hsame.
    rewrite (sum_from_agree a b step (i * step)%nat (Some 0) Hsame) in Hsa.
    congruence.
  - intros Hle. apply min1_mono.
    apply Qcdiv_le_mono; [| by apply Qc_of_Z_pos].
    apply Qcdiv_le_mono; [| apply Qc_of_Z_pos; lia].
    apply (proj1 (Z2Qc_inj_le sa sb)).
    by apply (sum_from_le a b step (i * step)%nat 0 0 sa sb Hle).
Qed.

Lemma levels_follow_their_bands_witness :
  Recorder.computeLevels (replicate 128 0) !! 4%nat
  = Recorder.computeLevels (replicate 125 0 ++ [255; 255; 255]) !! 4%nat.
Proof.
  destruct (levels_follow_their_bands (replicate 128 0)
              (replicate 125 0 ++ [255; 255; 255]) 4 eq_refl
              ltac:(vm_compute; lia) ltac:(vm_compute; lia))
    as (p & q & Hp & Hq & Hsame & _).
  assert (p = q) as Hpq.
  { apply Hsame. intros j Hj. vm_compute in Hj.
    rewrite lookup_app_l by (rewrite length_replicate; lia).
    rewrite !lookup_replicate_2 by lia. done. }
  rewrite Hpq in Hp. exact (eq_trans Hp (eq_sym Hq)).
Defined.

(** ** The duration display *)

Section Display.
Import JS Recorder Lifecycle.




End Display.


